(** * Pokemon battle service: a shallow embedding and its properties

    The development follows the Python package [pokemon_battle].

    The program:
    - [Py]          the Python built-ins the code relies on (string
                    methods, true division, [min], [max], [round], number
                    formatting);
    - [Battle]      [battle.py]: the type chart, the scoring formula and
                    the contest resolution, with the log they write;
    - [Binary64]    the scoring of [battle.py] once more, on the floats
                    of the machine;
    - [F64], [Rounded]
                    binary64 arithmetic as rounded rationals, and
                    [battle.py] with every operation rounded: the
                    program as it runs;
    - [Json], [Schemas], [Exceptions]
                    the payloads of the external source, [schemas.py] and
                    [exceptions.py];
    - [World]       the state the service runs in (cache, store, clock,
                    external source, validation of the schema library,
                    trace of effects) and its effect monad;
    - [PokeAPI]     [pokeapi.py]: the time-based cache, the parser and the
                    external fetch;
    - [Services]    [services.py]: the store-backed lookup and the
                    orchestration of one contest;
    - [Queries]     [services.py]: the lookups by identifier;
    - [Api]         [api.py] and [database.py]: the endpoints, the
                    conversion of errors to replies and the session of a
                    request.

    The properties:
    - [Spec], [CacheOps], [Fetch], [Fixtures]
                    the vocabulary of the statements and the records of
                    the test suite;
    - [TypeChart]   the range of the combined effectiveness;
    - [Scoring]     the score formula, the draw policy, the mirrored
                    outcome, identical participants, empty categories;
    - [Binary64Props]
                    the rational model against binary64 arithmetic;
    - [CacheProps], [FetchProps], [ServicesProps]
                    expiry and clearing of the cache, the errors of the
                    fetch, the orchestration and the outcome invariant;
    - [ChartSpec], [TextSpec], [CacheSpec], [ParseSpec], [FetchSpec],
      [StoreSpec], [RoundedSpec]
                    the vocabulary of the further properties;
    - [TypeChartMore], [TextProps], [ScoringMore]
                    the effectiveness as a product over label pairs, the
                    normalization of names and the round trip of category
                    strings, rounding, monotonicity and bounds of scores;
    - [RoundedProps]
                    rounding to the nearest float, the draw policy and the
                    returned scores of the program in binary64, and the
                    rounded rationals against the floats of the machine;
    - [CacheMore], [ParseProps], [FetchMore]
                    the cache as a map with expiry, the parser on
                    well-formed and ill-formed payloads, the requests and
                    the caching of the fetch;
    - [StoreProps], [ApiProps]
                    the constraints of the store, what a contest persists,
                    the lookups by identifier, the replies of the
                    endpoints and the atomicity of a request;
    - [Tests]       the assertions of the test suite.

    Numbers.  Python [int] is [Z].  Python [float] has two models.  In
    [Battle] it is the exact rationals [Q]: every float literal of the
    source is the decimal it is written as, every float operation is the
    exact operation, and equality of floats ([==]) is [Qeq_bool]; this
    is the model of the algebra of the scoring (the formula, the mirrored
    contest, identical participants), where rounding plays no part.  In
    [Rounded] it is binary64 itself: a float is the rational it denotes,
    and every literal, conversion and operation of the source is followed
    by [F64.fl], the rounding to the nearest number with a significand of
    53 bits, ties to even.  The exponent of [F64.fl] is not bounded, so
    [Rounded] is the program wherever no operation overflows or
    underflows, which is the case for attributes that fit a database
    column and category lists of a few labels.  What depends on where a
    comparison of scores falls, the draw and the returned scores, is
    stated on [Rounded].  [Binary64] repeats the scoring on the floats of
    the machine, so that concrete values of either model can be replayed
    there.

    Libraries.  What the HTTP client and the schema validation do is not
    code of the package: the answer of the client to a URL, its refusal of
    a URL included, is the field [remote] of the world, and the conversion
    of a JSON value that is not an [int] to an [int] field, which the
    validation attempts before it rejects the value, is the field
    [coerce_int].

    Text.  Python [str] is [string], one character per code point: the
    strings of the model are those of code points below U+0100, and on
    them [lower], [strip], [split] and [join] are the methods of [str].

    Errors.  A call that can raise returns a sum whose left side is the
    exception; in [battle.py], whose only possible exception is the
    division by zero, it returns an option. *)

From Stdlib Require Import ZArith QArith Qabs Qround Qpower Qminmax Lqa.
From Stdlib Require Import String Ascii List Lia.
From Stdlib Require Import Uint63 PrimFloat FloatOps SpecFloat.
From Stdlib Require Import DecimalString.
From stdpp Require Import gmap strings list fin_maps.

Open Scope string_scope.
Open Scope Z_scope.

(** ** Python built-ins *)

Module Py.

(** [str.isspace] on one character: TAB, LF, VT, FF, CR, the four
    separators FS GS RS US, the space, NEL (U+0085) and the no-break space
    (U+00A0). *)
Definition is_space (c : ascii) : bool :=
  let n := N_of_ascii c in
  ((9 <=? n) && (n <=? 13) || (28 <=? n) && (n <=? 32) || (n =? 133) || (n =? 160))%N.

(** The capital letters: A to Z, and U+00C0 to U+00DE without the
    multiplication sign U+00D7.  Each has its small letter 32 places on. *)
Definition is_upper (c : ascii) : bool :=
  let n := N_of_ascii c in
  ((65 <=? n) && (n <=? 90) || (192 <=? n) && (n <=? 222) && negb (n =? 215))%N.

(** The small letters that have a capital 32 places back: a to z, and
    U+00E0 to U+00FE without the division sign U+00F7. *)
Definition is_lower (c : ascii) : bool :=
  let n := N_of_ascii c in
  ((97 <=? n) && (n <=? 122) || (224 <=? n) && (n <=? 254) && negb (n =? 247))%N.

Definition lower_char (c : ascii) : ascii :=
  if is_upper c then ascii_of_N (N_of_ascii c + 32) else c.

Fixpoint map_chars (f : ascii -> ascii) (s : string) : string :=
  match s with
  | EmptyString => EmptyString
  | String c s' => String (f c) (map_chars f s')
  end.

(** [s.lower()]. *)
Definition lower (s : string) : string := map_chars lower_char s.

(** [s.upper()]: the sharp s (U+00DF) becomes "SS"; the micro sign and
    the y with diaeresis, whose capitals lie above U+00FF, stay. *)
Fixpoint upper (s : string) : string :=
  match s with
  | EmptyString => EmptyString
  | String c s' =>
      if is_lower c then String (ascii_of_N (N_of_ascii c - 32)) (upper s')
      else if (N_of_ascii c =? 223)%N then String "S" (String "S" (upper s'))
      else String c (upper s')
  end.

Fixpoint lstrip (s : string) : string :=
  match s with
  | EmptyString => EmptyString
  | String c s' => if is_space c then lstrip s' else s
  end.

Fixpoint rstrip (s : string) : string :=
  match s with
  | EmptyString => EmptyString
  | String c s' =>
      match rstrip s' with
      | EmptyString => if is_space c then EmptyString else String c EmptyString
      | r => String c r
      end
  end.

(** [s.strip()]: surrounding whitespace removed. *)
Definition strip (s : string) : string := rstrip (lstrip s).

(** [s.split(sep)] for a one-character separator; the empty string splits
    into one empty field. *)
Fixpoint split (sep : ascii) (s : string) : list string :=
  match s with
  | EmptyString => [EmptyString]
  | String c s' =>
      if Ascii.eqb c sep then EmptyString :: split sep s'
      else match split sep s' with
           | h :: t => String c h :: t
           | [] => [String c EmptyString]
           end
  end.

(** Truth value of a string: non-empty. *)
Definition truthy (s : string) : bool :=
  match s with
  | EmptyString => false
  | String _ _ => true
  end.

(** [sep.join(l)]. *)
Definition join (sep : string) (l : list string) : string := String.concat sep l.

(** [l.append(x)] and [l.extend(l')] on lists of lines. *)
Definition append (l : list string) (x : string) : list string := (l ++ [x])%list.
Definition extend (l l' : list string) : list string := (l ++ l')%list.

(** [s * n]. *)
Fixpoint repeat_str (s : string) (n : nat) : string :=
  match n with
  | O => EmptyString
  | S n' => s ++ repeat_str s n'
  end.

(** [str(n)] for an [int]. *)
Definition str_int (n : Z) : string := NilZero.string_of_int (Z.to_int n).

(** [float(n)]. *)
Definition float (n : Z) : Q := inject_Z n.

(** [a < b] and [a > b] on floats. *)
Definition Qltb (a b : Q) : bool := negb (Qle_bool b a).
Definition Qgtb (a b : Q) : bool := Qltb b a.

(** [a / b] on two [int]s: [ZeroDivisionError] (here [None]) exactly when
    the divisor is zero. *)
Definition truediv (a b : Z) : option Q :=
  if b =? 0 then None else Some (float a / float b)%Q.

(** [min(a, b)] on floats: the first argument unless the second is
    strictly smaller. *)
Definition min (a b : Q) : Q := if Qltb b a then b else a.

(** [max(a, b)] on [int]s: the first argument unless the second is
    strictly larger. *)
Definition max (a b : Z) : Z := if a <? b then b else a.

(** Nearest integer, ties to even. *)
Definition round_half_even (q : Q) : Z :=
  let f := Qfloor q in
  let r := (q - inject_Z f)%Q in
  if Qltb r (1 # 2) then f
  else if Qltb (1 # 2) r then f + 1
  else if Z.even f then f else f + 1.

(** [round(x, 2)]. *)
Definition round2 (x : Q) : Q := (inject_Z (round_half_even (x * 100)) / 100)%Q.

Definition two_digits (n : Z) : string :=
  if n <? 10 then "0" ++ str_int n else str_int n.

(** [f"{x:.2f}"]: sign, integer part, two decimals. *)
Definition format_2f (x : Q) : string :=
  let n := round_half_even (Qabs x * 100) in
  (if Qltb x 0 then "-" else "") ++ str_int (n / 100) ++ "." ++ two_digits (n mod 100).

End Py.

(** ** battle.py *)

Module Battle.

(** The [Pokemon] row of [models.py] (timestamps left out). *)
Record Pokemon := mkPokemon {
  id : Z;
  pokeapi_id : Z;
  name : string;
  hp : Z;
  attack : Z;
  defense : Z;
  special_attack : Z;
  special_defense : Z;
  speed : Z;
  types : string;
  sprite_url : option string
}.

(** A Python dict literal: a later binding of a key replaces an earlier one. *)
Definition dict {V : Type} (l : list (string * V)) : gmap string V :=
  fold_left (fun m kv => <[kv.1 := kv.2]> m) l ∅.

(** Type effectiveness chart (attacking_type -> defending_type -> multiplier). *)
Definition TYPE_CHART : gmap string (gmap string Q) :=
  dict [
    ("normal", dict [("rock", 0.5); ("ghost", 0); ("steel", 0.5)]);
    ("fire", dict [("fire", 0.5); ("water", 0.5); ("grass", 2); ("ice", 2);
                   ("bug", 2); ("rock", 0.5); ("dragon", 0.5); ("steel", 2)]);
    ("water", dict [("fire", 2); ("water", 0.5); ("grass", 0.5); ("ground", 2);
                    ("rock", 2); ("dragon", 0.5)]);
    ("electric", dict [("water", 2); ("electric", 0.5); ("grass", 0.5);
                       ("ground", 0); ("flying", 2); ("dragon", 0.5)]);
    ("grass", dict [("fire", 0.5); ("water", 2); ("grass", 0.5); ("poison", 0.5);
                    ("ground", 2); ("flying", 0.5); ("bug", 0.5); ("rock", 2);
                    ("dragon", 0.5); ("steel", 0.5)]);
    ("ice", dict [("fire", 0.5); ("water", 0.5); ("grass", 2); ("ice", 0.5);
                  ("ground", 2); ("flying", 2); ("dragon", 2); ("steel", 0.5)]);
    ("fighting", dict [("normal", 2); ("ice", 2); ("poison", 0.5); ("flying", 0.5);
                       ("psychic", 0.5); ("bug", 0.5); ("rock", 2); ("ghost", 0);
                       ("dark", 2); ("steel", 2); ("fairy", 0.5)]);
    ("poison", dict [("grass", 2); ("poison", 0.5); ("ground", 0.5); ("rock", 0.5);
                     ("ghost", 0.5); ("steel", 0); ("fairy", 2)]);
    ("ground", dict [("fire", 2); ("electric", 2); ("grass", 0.5); ("poison", 2);
                     ("flying", 0); ("bug", 0.5); ("rock", 2); ("steel", 2)]);
    ("flying", dict [("electric", 0.5); ("grass", 2); ("fighting", 2); ("bug", 2);
                     ("rock", 0.5); ("steel", 0.5)]);
    ("psychic", dict [("fighting", 2); ("poison", 2); ("psychic", 0.5); ("dark", 0);
                      ("steel", 0.5)]);
    ("bug", dict [("fire", 0.5); ("grass", 2); ("fighting", 0.5); ("poison", 0.5);
                  ("flying", 0.5); ("psychic", 2); ("ghost", 0.5); ("dark", 2);
                  ("steel", 0.5); ("fairy", 0.5)]);
    ("rock", dict [("fire", 2); ("ice", 2); ("fighting", 0.5); ("ground", 0.5);
                   ("flying", 2); ("bug", 2); ("steel", 0.5)]);
    ("ghost", dict [("normal", 0); ("psychic", 2); ("ghost", 2); ("dark", 0.5)]);
    ("dragon", dict [("dragon", 2); ("steel", 0.5); ("fairy", 0)]);
    ("dark", dict [("fighting", 0.5); ("psychic", 2); ("ghost", 2); ("dark", 0.5);
                   ("fairy", 0.5)]);
    ("steel", dict [("fire", 0.5); ("water", 0.5); ("electric", 0.5); ("ice", 2);
                    ("rock", 2); ("steel", 0.5); ("fairy", 2)]);
    ("fairy", dict [("fire", 0.5); ("fighting", 2); ("poison", 0.5); ("dragon", 2);
                    ("dark", 2); ("steel", 0.5)])
  ]%Q.

(** Result of a Pokemon battle. *)
Record BattleResult := mkBattleResult {
  winner : option Pokemon;
  pokemon1_score : Q;
  pokemon2_score : Q;
  battle_log : string;
  is_draw : bool
}.

(** [atk_chart.get(def_type, 1.0)]. *)
Definition type_mult (atk_chart : gmap string Q) (def_type : string) : Q :=
  default 1%Q (atk_chart !! def_type).

(** Calculate type effectiveness multiplier: the two nested loops thread
    [multiplier], which starts at 1.0. *)
Definition get_type_effectiveness (attacker_types defender_types : list string) : Q :=
  fold_left
    (fun multiplier atk_type =>
       let atk_chart := default ∅ (TYPE_CHART !! atk_type) in
       fold_left
         (fun multiplier def_type => (multiplier * type_mult atk_chart def_type)%Q)
         defender_types multiplier)
    attacker_types 1%Q.

(** Calculate the base power score for a Pokemon.  The two divisions are
    by the literals 2 and 4. *)
Definition calculate_base_power (pokemon : Pokemon) : Q :=
  let offensive := (Py.float (attack pokemon + special_attack pokemon) / 2)%Q in
  let defensive := (Py.float (defense pokemon + special_defense pokemon) / 2)%Q in
  let power :=
    ((Py.float (hp pokemon) * 0.5 + offensive + defensive + Py.float (speed pokemon)) / 4)%Q in
  power.

(** Calculate the battle score for an attacking Pokemon: the score and the
    log entries, or [None] when the speed ratio divides by zero. *)
Definition calculate_battle_score (attacker defender : Pokemon)
    (attacker_types defender_types : list string) : option (Q * list string) :=
  let log_entries : list string := [] in
  let base_power := calculate_base_power attacker in
  let log_entries := Py.append log_entries ("  Base Power: " ++ Py.format_2f base_power) in
  let type_effectiveness := get_type_effectiveness attacker_types defender_types in
  let type_bonus := (type_effectiveness * base_power * 0.3)%Q in
  let log_entries :=
    if Py.Qgtb type_effectiveness 1 then
      Py.append log_entries
        ("  Type Advantage: " ++ Py.format_2f type_effectiveness ++ "x (Super Effective!)")
    else if Py.Qltb type_effectiveness 1 then
      Py.append log_entries
        ("  Type Disadvantage: " ++ Py.format_2f type_effectiveness
           ++ "x (Not Very Effective)")
    else Py.append log_entries "  Type: Neutral" in
  speed_ratio ← Py.truediv (speed attacker) (Py.max (speed defender) 1);
  let speed_bonus := (Py.min speed_ratio 2.0 * base_power * 0.2)%Q in
  let log_entries :=
    if speed defender <? speed attacker then
      Py.append log_entries
        ("  Speed Advantage: " ++ Py.str_int (speed attacker) ++ " vs "
           ++ Py.str_int (speed defender))
    else
      Py.append log_entries
        ("  Speed: " ++ Py.str_int (speed attacker) ++ " vs " ++ Py.str_int (speed defender)) in
  let score := ((base_power * 0.5) + type_bonus + speed_bonus)%Q in
  let log_entries := Py.append log_entries ("  Final Score: " ++ Py.format_2f score) in
  Some (score, log_entries).

(** [[t.strip() for t in types.split(",") if t.strip()]]. *)
Definition parse_types (types : string) : list string :=
  map Py.strip (filter (fun t => Py.truthy (Py.strip t) = true) (Py.split "," types)).

(** The four log lines with one participant's stats. *)
Definition stats_lines (p : Pokemon) (p_types : list string) : list string :=
  let p_sp := "  SP.ATK: " ++ Py.str_int (special_attack p) ++ " | SP.DEF: "
                ++ Py.str_int (special_defense p) in
  [ Py.upper (name p) ++ " (" ++ Py.join ", " p_types ++ ")";
    "  HP: " ++ Py.str_int (hp p) ++ " | ATK: " ++ Py.str_int (attack p) ++ " | DEF: "
      ++ Py.str_int (defense p);
    p_sp ++ " | SPD: " ++ Py.str_int (speed p);
    "" ].

(** Check for draw (within 1% difference): the [is_draw] of
    [execute_battle]. *)
Definition draw_policy (score1 score2 : Q) : bool :=
  let score_diff := Qabs (score1 - score2) in
  let avg_score := ((score1 + score2) / 2)%Q in
  if Py.Qgtb avg_score 0 then Py.Qltb score_diff (avg_score * 0.01) else Qeq_bool score1 score2.

(** Execute a battle between two Pokemon. *)
Definition execute_battle (pokemon1 pokemon2 : Pokemon) : option BattleResult :=
  let log_lines : list string :=
    [ Py.repeat_str "=" 50;
      "BATTLE: " ++ Py.upper (name pokemon1) ++ " vs " ++ Py.upper (name pokemon2);
      Py.repeat_str "=" 50;
      "" ] in
  let p1_types := parse_types (types pokemon1) in
  let p2_types := parse_types (types pokemon2) in
  let log_lines := Py.extend log_lines (stats_lines pokemon1 p1_types) in
  let log_lines := Py.extend log_lines (stats_lines pokemon2 p2_types) in
  let log_lines := Py.append log_lines ("--- " ++ Py.upper (name pokemon1) ++ "'s Attack ---") in
  '(score1, log1) ← calculate_battle_score pokemon1 pokemon2 p1_types p2_types;
  let log_lines := Py.extend log_lines log1 in
  let log_lines := Py.append log_lines "" in
  let log_lines := Py.append log_lines ("--- " ++ Py.upper (name pokemon2) ++ "'s Attack ---") in
  '(score2, log2) ← calculate_battle_score pokemon2 pokemon1 p2_types p1_types;
  let log_lines := Py.extend log_lines log2 in
  let log_lines := Py.append log_lines "" in
  let log_lines := Py.append log_lines (Py.repeat_str "=" 50) in
  let is_draw := draw_policy score1 score2 in
  let '(winner, log_lines) :=
    if is_draw then
      (None,
       Py.append (Py.append log_lines "RESULT: DRAW!")
         ("Scores were too close: " ++ Py.format_2f score1 ++ " vs " ++ Py.format_2f score2))
    else if Py.Qgtb score1 score2 then
      (Some pokemon1,
       Py.append (Py.append log_lines ("WINNER: " ++ Py.upper (name pokemon1) ++ "!"))
         ("Final Scores: " ++ Py.format_2f score1 ++ " vs " ++ Py.format_2f score2))
    else
      (Some pokemon2,
       Py.append (Py.append log_lines ("WINNER: " ++ Py.upper (name pokemon2) ++ "!"))
         ("Final Scores: " ++ Py.format_2f score1 ++ " vs " ++ Py.format_2f score2)) in
  let log_lines := Py.append log_lines (Py.repeat_str "=" 50) in
  Some {| winner := winner;
          pokemon1_score := Py.round2 score1;
          pokemon2_score := Py.round2 score2;
          battle_log := Py.join (String "010" "") log_lines;
          is_draw := is_draw |}.

(** The [BattleEngine] protocol of [protocols.py]: anything that can
    execute a battle between two Pokemon. *)
Class BattleEngine (E : Type) := {
  execute : E -> Pokemon -> Pokemon -> option BattleResult
}.

(** Default battle engine using stats-based scoring: the one
    implementation of the protocol. *)
Inductive DefaultBattleEngine := mkDefaultBattleEngine.

#[global] Instance DefaultBattleEngine_execute : BattleEngine DefaultBattleEngine := {|
  execute _ pokemon1 pokemon2 := execute_battle pokemon1 pokemon2
|}.

(** Get the default battle engine instance. *)
Definition get_battle_engine : DefaultBattleEngine := mkDefaultBattleEngine.

End Battle.

(** ** The scoring of battle.py in binary64 arithmetic *)

Module Binary64.

Import Battle.

(** [float(n)] for an [int] of at most 63 bits. *)
Definition of_int (n : Z) : float :=
  if n <? 0 then (- of_uint63 (Uint63.of_Z (- n)))%float else of_uint63 (Uint63.of_Z n).

(** The float a chart entry stands for. *)
Definition of_entry (q : Q) : float := (of_int (Qnum q) / of_int (Z.pos (Qden q)))%float.

Definition get_type_effectiveness64 (attacker_types defender_types : list string) : float :=
  fold_left
    (fun multiplier atk_type =>
       let atk_chart := default ∅ (TYPE_CHART !! atk_type) in
       fold_left
         (fun multiplier def_type => (multiplier * of_entry (type_mult atk_chart def_type))%float)
         defender_types multiplier)
    attacker_types 1%float.

Definition calculate_base_power64 (pokemon : Pokemon) : float :=
  let offensive := (of_int (attack pokemon + special_attack pokemon) / 2)%float in
  let defensive := (of_int (defense pokemon + special_defense pokemon) / 2)%float in
  ((of_int (hp pokemon) * 0.5 + offensive + defensive + of_int (speed pokemon)) / 4)%float.

(** The score of [calculate_battle_score], without the log. *)
#[warnings="-inexact-float"]
Definition battle_score64 (attacker defender : Pokemon)
    (attacker_types defender_types : list string) : float :=
  let base_power := calculate_base_power64 attacker in
  let type_effectiveness := get_type_effectiveness64 attacker_types defender_types in
  let type_bonus := (type_effectiveness * base_power * 0.3)%float in
  let speed_ratio := (of_int (speed attacker) / of_int (Py.max (speed defender) 1))%float in
  let speed_bonus :=
    ((if (2 <? speed_ratio)%float then 2%float else speed_ratio) * base_power * 0.2)%float in
  ((base_power * 0.5) + type_bonus + speed_bonus)%float.

#[warnings="-inexact-float"]
Definition draw_policy64 (score1 score2 : float) : bool :=
  let score_diff := abs (score1 - score2) in
  let avg_score := ((score1 + score2) / 2)%float in
  if (0 <? avg_score)%float then (score_diff <? avg_score * 0.01)%float
  else (score1 =? score2)%float.

(** The two unrounded scores, the draw flag and the winner of
    [execute_battle]. *)
Definition execute_battle64 (pokemon1 pokemon2 : Pokemon)
  : float * float * bool * option Pokemon :=
  let p1_types := parse_types (types pokemon1) in
  let p2_types := parse_types (types pokemon2) in
  let score1 := battle_score64 pokemon1 pokemon2 p1_types p2_types in
  let score2 := battle_score64 pokemon2 pokemon1 p2_types p1_types in
  let is_draw := draw_policy64 score1 score2 in
  let winner :=
    if is_draw then None
    else if (score2 <? score1)%float then Some pokemon1 else Some pokemon2 in
  (score1, score2, is_draw, winner).

End Binary64.


(** ** Binary64 arithmetic, as rounded rationals *)

Module F64.

Local Open Scope Q_scope.

(** [2 ^ e], for any integer [e]. *)
Definition pow2 (e : Z) : Q := 2 ^ e.

(** The binade of a number that is not zero: the [e] with
    [2 ^ e <= |q| < 2 ^ (e + 1)]. *)
Definition binade (q : Q) : Z :=
  let e := (Z.log2 (Z.abs (Qnum q)) - Z.log2 (Z.pos (Qden q)))%Z in
  if Qle_bool (pow2 e) (Qabs q) then e else (e - 1)%Z.

(** The float nearest to [q]: a significand of 53 bits, ties to the even
    significand.  The exponent is not bounded: a result is the float the
    machine gives as long as that neither overflows nor is subnormal. *)
Definition fl (q : Q) : Q :=
  if Qeq_bool q 0 then 0
  else
    let ulp := pow2 (binade q - 52) in
    inject_Z (Py.round_half_even (q / ulp)) * ulp.

(** [x + y], [x - y], [x * y] and [x / y] on floats. *)
Definition fl_add (x y : Q) : Q := fl (x + y).
Definition fl_sub (x y : Q) : Q := fl (x - y).
Definition fl_mul (x y : Q) : Q := fl (x * y).
Definition fl_div (x y : Q) : Q := fl (x / y).

(** [float(n)], the conversion an [int] undergoes next to a float. *)
Definition fl_of_int (n : Z) : Q := fl (inject_Z n).

(** [a / b] on two [int]s: the quotient, rounded once;
    [ZeroDivisionError] (here [None]) exactly when the divisor is zero. *)
Definition fl_truediv (a b : Z) : option Q :=
  if (b =? 0)%Z then None else Some (fl (inject_Z a / inject_Z b)).

(** [round(x, 2)]: the float nearest to the nearest number of
    hundredths. *)
Definition fl_round2 (x : Q) : Q := fl (Py.round2 x).

End F64.

(** ** battle.py once more, every operation rounded to binary64 *)

Module Rounded.

Import Battle F64.
Local Open Scope Q_scope.

(** The loops of [get_type_effectiveness]; [multiplier *= type_mult]
    rounds. *)
Definition get_type_effectiveness_fl (attacker_types defender_types : list string) : Q :=
  fold_left
    (fun multiplier atk_type =>
       let atk_chart := default ∅ (TYPE_CHART !! atk_type) in
       fold_left
         (fun multiplier def_type => fl_mul multiplier (fl (type_mult atk_chart def_type)))
         defender_types multiplier)
    attacker_types (fl 1.0).

Definition calculate_base_power_fl (pokemon : Pokemon) : Q :=
  let offensive := fl (inject_Z (attack pokemon + special_attack pokemon) / 2) in
  let defensive := fl (inject_Z (defense pokemon + special_defense pokemon) / 2) in
  let power :=
    fl_div
      (fl_add
         (fl_add (fl_add (fl_mul (fl_of_int (hp pokemon)) (fl 0.5)) offensive) defensive)
         (fl_of_int (speed pokemon)))
      (fl_of_int 4) in
  power.

Definition calculate_battle_score_fl (attacker defender : Pokemon)
    (attacker_types defender_types : list string) : option (Q * list string) :=
  let log_entries : list string := [] in
  let base_power := calculate_base_power_fl attacker in
  let log_entries := Py.append log_entries ("  Base Power: " ++ Py.format_2f base_power)%string in
  let type_effectiveness := get_type_effectiveness_fl attacker_types defender_types in
  let type_bonus := fl_mul (fl_mul type_effectiveness base_power) (fl 0.3) in
  let log_entries :=
    if Py.Qgtb type_effectiveness 1 then
      Py.append log_entries
        ("  Type Advantage: " ++ Py.format_2f type_effectiveness
           ++ "x (Super Effective!)")%string
    else if Py.Qltb type_effectiveness 1 then
      Py.append log_entries
        ("  Type Disadvantage: " ++ Py.format_2f type_effectiveness
           ++ "x (Not Very Effective)")%string
    else Py.append log_entries "  Type: Neutral" in
  speed_ratio ← fl_truediv (speed attacker) (Py.max (speed defender) 1);
  let speed_bonus := fl_mul (fl_mul (Py.min speed_ratio (fl 2.0)) base_power) (fl 0.2) in
  let log_entries :=
    if (speed defender <? speed attacker)%Z then
      Py.append log_entries
        ("  Speed Advantage: " ++ Py.str_int (speed attacker) ++ " vs "
           ++ Py.str_int (speed defender))%string
    else
      Py.append log_entries
        ("  Speed: " ++ Py.str_int (speed attacker) ++ " vs "
           ++ Py.str_int (speed defender))%string in
  let score := fl_add (fl_add (fl_mul base_power (fl 0.5)) type_bonus) speed_bonus in
  let log_entries := Py.append log_entries ("  Final Score: " ++ Py.format_2f score)%string in
  Some (score, log_entries).

(** Check for draw (within 1% difference). *)
Definition draw_policy_fl (score1 score2 : Q) : bool :=
  let score_diff := Qabs (fl_sub score1 score2) in
  let avg_score := fl_div (fl_add score1 score2) (fl_of_int 2) in
  if Py.Qgtb avg_score 0 then Py.Qltb score_diff (fl_mul avg_score (fl 0.01))
  else Qeq_bool score1 score2.

Definition execute_battle_fl (pokemon1 pokemon2 : Pokemon) : option BattleResult :=
  let log_lines : list string :=
    [ Py.repeat_str "=" 50;
      ("BATTLE: " ++ Py.upper (name pokemon1) ++ " vs " ++ Py.upper (name pokemon2))%string;
      Py.repeat_str "=" 50;
      ""%string ] in
  let p1_types := parse_types (types pokemon1) in
  let p2_types := parse_types (types pokemon2) in
  let log_lines := Py.extend log_lines (stats_lines pokemon1 p1_types) in
  let log_lines := Py.extend log_lines (stats_lines pokemon2 p2_types) in
  let log_lines :=
    Py.append log_lines ("--- " ++ Py.upper (name pokemon1) ++ "'s Attack ---")%string in
  '(score1, log1) ← calculate_battle_score_fl pokemon1 pokemon2 p1_types p2_types;
  let log_lines := Py.extend log_lines log1 in
  let log_lines := Py.append log_lines "" in
  let log_lines :=
    Py.append log_lines ("--- " ++ Py.upper (name pokemon2) ++ "'s Attack ---")%string in
  '(score2, log2) ← calculate_battle_score_fl pokemon2 pokemon1 p2_types p1_types;
  let log_lines := Py.extend log_lines log2 in
  let log_lines := Py.append log_lines "" in
  let log_lines := Py.append log_lines (Py.repeat_str "=" 50) in
  let is_draw := draw_policy_fl score1 score2 in
  let '(winner, log_lines) :=
    if is_draw then
      (None,
       Py.append (Py.append log_lines "RESULT: DRAW!")
         ("Scores were too close: " ++ Py.format_2f score1 ++ " vs "
            ++ Py.format_2f score2)%string)
    else if Py.Qgtb score1 score2 then
      (Some pokemon1,
       Py.append (Py.append log_lines ("WINNER: " ++ Py.upper (name pokemon1) ++ "!")%string)
         ("Final Scores: " ++ Py.format_2f score1 ++ " vs " ++ Py.format_2f score2)%string)
    else
      (Some pokemon2,
       Py.append (Py.append log_lines ("WINNER: " ++ Py.upper (name pokemon2) ++ "!")%string)
         ("Final Scores: " ++ Py.format_2f score1 ++ " vs " ++ Py.format_2f score2)%string) in
  let log_lines := Py.append log_lines (Py.repeat_str "=" 50) in
  Some {| winner := winner;
          pokemon1_score := fl_round2 score1;
          pokemon2_score := fl_round2 score2;
          battle_log := Py.join (String "010" "") log_lines;
          is_draw := is_draw |}.

End Rounded.

(** ** JSON payloads (the [dict[str, Any]] of the external source) *)

Module Json.

(** A decoded JSON document.  An object keeps its members in document
    order; [get] returns the last member of a given name, as the decoder
    does for a repeated key. *)
#[warnings="-register-all"]
Inductive json :=
| JNull
| JBool (b : bool)
| JInt (n : Z)
| JFloat (q : Q)
| JStr (s : string)
| JList (l : list json)
| JDict (d : list (string * json)).

(** Last binding of [k] in a list of members. *)
Fixpoint assoc_last {V : Type} (d : list (string * V)) (k : string) : option V :=
  match d with
  | [] => None
  | (k', v) :: d' =>
      match assoc_last d' k with
      | Some v' => Some v'
      | None => if String.eqb k' k then Some v else None
      end
  end.

(** Truth value of a decoded document. *)
Definition json_truthy (j : json) : bool :=
  match j with
  | JNull => false
  | JBool b => b
  | JInt n => negb (n =? 0)
  | JFloat q => negb (Qeq_bool q 0)
  | JStr s => Py.truthy s
  | JList l => match l with [] => false | _ => true end
  | JDict d => match d with [] => false | _ => true end
  end.

End Json.

(** ** schemas.py *)

Module Schemas.

(** Schema for creating a Pokemon from PokeAPI data. *)
Record PokemonCreate := mkPokemonCreate {
  pokeapi_id : Z;
  name : string;
  hp : Z;
  attack : Z;
  defense : Z;
  special_attack : Z;
  special_defense : Z;
  speed : Z;
  types : string;
  sprite_url : option string
}.

End Schemas.

(** ** exceptions.py *)

Module Exceptions.

(** The domain errors, each with the argument its constructor takes. *)
Inductive PokemonBattleError :=
| PokemonNotFoundError (pokemon_name : string)
| PokeAPIError (message : string)
| SamePokemonError (pokemon_name : string)
| DatabaseError (message : string).

(** [error.message], as the constructors build it. *)
Definition message (e : PokemonBattleError) : string :=
  match e with
  | PokemonNotFoundError pokemon_name => "Pokemon '" ++ pokemon_name ++ "' not found"
  | PokeAPIError message => "PokeAPI error: " ++ message
  | SamePokemonError pokemon_name => "Cannot battle '" ++ pokemon_name ++ "' against itself"
  | DatabaseError message => "Database error: " ++ message
  end.

(** [error.error_code]; the base class allows [None]. *)
Definition error_code (e : PokemonBattleError) : option string :=
  match e with
  | PokemonNotFoundError _ => Some "POKEMON_NOT_FOUND"
  | PokeAPIError _ => Some "POKEAPI_ERROR"
  | SamePokemonError _ => Some "SAME_POKEMON"
  | DatabaseError _ => Some "DATABASE_ERROR"
  end.

(** Everything a call can raise: a domain error, or one of the errors of
    the runtime and the libraries that the code does not catch.
    [JSONDecodeError] is the [ValueError] of [response.json()] on a body
    that is not JSON; [InvalidURL] is [httpx.InvalidURL], with its text. *)
Inductive exn :=
| Domain (e : PokemonBattleError)
| KeyError (key : string)
| TypeError
| AttributeError
| ValidationError
| JSONDecodeError
| InvalidURL (text : string)
| ZeroDivisionError
| IntegrityError
| MultipleResultsFound.

End Exceptions.

(** ** The world the service runs in, and its effect monad *)

Module World.

Import Json Exceptions.

(** A cached entry with expiration time. *)
Record CacheEntry := mkCacheEntry {
  data : json;
  expires_at : Q
}.

(** Simple in-memory cache for Pokemon data. *)
Record PokemonCache := mkPokemonCache {
  _cache : gmap string CacheEntry;
  ttl : Z
}.

(** What [client.get] does with one URL: an HTTP response with its status
    code and body ([None]: the body is not JSON), a failure of the
    transport ([httpx.RequestError], with its text), or the refusal of the
    URL before anything is sent ([httpx.InvalidURL], which is not a
    [RequestError]: a URL with a control character in it, say). *)
Inductive HttpResult :=
| Response (status_code : Z) (body : option json)
| RequestError (text : string)
| Malformed (text : string).

(** The rows of the [battles] table, with the relationships the service
    loads on the returned object. *)
Record Battle := mkBattle {
  battle_id : Z;
  pokemon1_id : Z;
  pokemon2_id : Z;
  winner_id : option Z;
  pokemon1_score : Q;
  pokemon2_score : Q;
  battle_log : string;
  pokemon1 : Battle.Pokemon;
  pokemon2 : Battle.Pokemon;
  winner : option Battle.Pokemon
}.

(** The two tables and their auto-increment counters. *)
Record Database := mkDatabase {
  pokemon_rows : list Battle.Pokemon;
  battle_rows : list Battle;
  next_pokemon_id : Z;
  next_battle_id : Z
}.

(** The observable effects, in the order they happen. *)
Inductive Event :=
| ClockRead
| HttpGet (url : string)
| DbSelect (name : string)
| DbInsertPokemon (name : string)
| DbInsertBattle.

(** The process-local cache, the store, the trace of effects so far, and
    the environment: what the clock shows and what the HTTP client
    answers, each as a function of the number of effects before it, and
    what the validation library makes of a value that is not an integer
    where the schema wants one (the library validates in its lax mode and
    may convert a boolean, a float or a string). *)
Record World := mkWorld {
  cache : PokemonCache;
  db : Database;
  events : list Event;
  clock : nat -> Q;
  remote : nat -> string -> HttpResult;
  coerce_int : json -> option Z
}.

(** Computations that read and change the world and may raise. *)
Definition M (A : Type) : Type := World -> (exn + A) * World.

Definition ret {A : Type} (a : A) : M A := fun w => (inr a, w).

Definition raise {A : Type} (e : exn) : M A := fun w => (inl e, w).

Definition bind {A B : Type} (m : M A) (k : A -> M B) : M B :=
  fun w =>
    match m w with
    | (inl e, w') => (inl e, w')
    | (inr a, w') => k a w'
    end.

#[global] Instance M_ret : MRet M := @ret.
#[global] Instance M_bind : MBind M := fun A B k m => bind m k.

(** A pure computation that may raise. *)
Definition lift {A : Type} (r : exn + A) : M A := fun w => (r, w).

Definition emit (e : Event) (w : World) : World :=
  {| cache := cache w; db := db w; events := (events w ++ [e])%list;
     clock := clock w; remote := remote w; coerce_int := coerce_int w |}.

Definition with_cache (c : PokemonCache) (w : World) : World :=
  {| cache := c; db := db w; events := events w; clock := clock w; remote := remote w;
     coerce_int := coerce_int w |}.

Definition with_db (d : Database) (w : World) : World :=
  {| cache := cache w; db := d; events := events w; clock := clock w; remote := remote w;
     coerce_int := coerce_int w |}.

(** [time.time()]. *)
Definition time_time : M Q :=
  fun w => (inr (clock w (length (events w))), emit ClockRead w).

(** [await client.get(url)]: a URL the client refuses raises at once and
    nothing is sent. *)
Definition http_get (url : string) : M HttpResult :=
  fun w =>
    match remote w (length (events w)) url with
    | Malformed text => (inl (InvalidURL text), w)
    | answer => (inr answer, emit (HttpGet url) w)
    end.

(** The lax conversion of the validation library, as the world has it. *)
Definition get_coerce_int : M (json -> option Z) := fun w => (inr (coerce_int w), w).

Definition get_cache : M PokemonCache := fun w => (inr (cache w), w).

Definition put_cache (c : PokemonCache) : M unit := fun w => (inr tt, with_cache c w).

End World.

(** ** pokeapi.py *)

Module PokeAPI.

Import Json Exceptions World.

(** Pure steps that may raise. *)
Definition R (A : Type) : Type := (exn + A)%type.

#[global] Instance R_ret : MRet R := fun A a => inr a.
#[global] Instance R_bind : MBind R :=
  fun A B k r => match r with inl e => inl e | inr a => k a end.

(** [j[k]] for a string key. *)
Definition getitem (j : json) (k : string) : R json :=
  match j with
  | JDict d =>
      match assoc_last d k with
      | Some v => inr v
      | None => inl (KeyError k)
      end
  | _ => inl TypeError
  end.

(** [for x in j]: the items of a list, the keys of an object, the
    characters of a string. *)
Definition iter (j : json) : R (list json) :=
  match j with
  | JList l => inr l
  | JDict d => inr (map (fun kv => JStr kv.1) d)
  | JStr s => inr (map (fun c => JStr (String c EmptyString)) (list_ascii_of_string s))
  | _ => inl TypeError
  end.

(** One item of the [stats] comprehension: the key [stat["stat"]["name"]]
    and the value [stat["base_stat"]].  A list or an object cannot be a
    key; a key that is not a string is kept out of the result, since only
    string keys are ever looked up. *)
Definition stat_item (stat : json) : R (list (string * json)) :=
  s ← getitem stat "stat";
  k ← getitem s "name";
  v ← getitem stat "base_stat";
  match k with
  | JStr name => mret [(name, v)]
  | JList _ | JDict _ => inl TypeError
  | _ => mret []
  end.

Fixpoint stats_of (items : list json) : R (list (string * json)) :=
  match items with
  | [] => mret []
  | stat :: rest =>
      kv ← stat_item stat;
      kvs ← stats_of rest;
      mret (kv ++ kvs)%list
  end.

(** One item of the [types] comprehension: [t["type"]["name"]]. *)
Definition type_item (t : json) : R json :=
  ty ← getitem t "type";
  getitem ty "name".

Fixpoint types_of (items : list json) : R (list json) :=
  match items with
  | [] => mret []
  | t :: rest =>
      n ← type_item t;
      ns ← types_of rest;
      mret (n :: ns)
  end.

(** The items handed to [",".join]: every one must be a string. *)
Fixpoint strings_of (items : list json) : R (list string) :=
  match items with
  | [] => mret []
  | JStr s :: rest => ss ← strings_of rest; mret (s :: ss)
  | _ :: _ => inl TypeError
  end.

(** [stats.get(key, 0)]. *)
Definition stats_get (stats : list (string * json)) (key : string) : json :=
  default (JInt 0) (assoc_last stats key).

(** Validation of the schema's fields against their declared types, in
    the library's lax mode.  An [int] field takes an integer as it is; a
    boolean, a float or a string is what the library converts it to, when
    it does ([lax]); [null], a list and an object are refused.  A [str]
    field takes a string, and the optional field also [null]. *)
Definition validate_int (lax : json -> option Z) (j : json) : R Z :=
  match j with
  | JInt n => inr n
  | JBool _ | JFloat _ | JStr _ =>
      match lax j with
      | Some n => inr n
      | None => inl ValidationError
      end
  | JNull | JList _ | JDict _ => inl ValidationError
  end.

Definition validate_str (j : json) : R string :=
  match j with JStr s => inr s | _ => inl ValidationError end.

Definition validate_opt_str (j : json) : R (option string) :=
  match j with
  | JNull => inr None
  | JStr s => inr (Some s)
  | _ => inl ValidationError
  end.

(** [data.get(key)] on an object. *)
Definition dict_get (j : json) (key : string) : R json :=
  match j with
  | JDict d => inr (default JNull (assoc_last d key))
  | _ => inl AttributeError
  end.

(** The sprite reference: [sprites.get("front_default")] when
    [data.get("sprites")] is truthy, [None] otherwise. *)
Definition sprite_of (data : json) : R json :=
  sprites ← dict_get data "sprites";
  if json_truthy sprites then dict_get sprites "front_default" else mret JNull.

(** Parse raw PokeAPI response into PokemonCreate schema. *)
Definition _parse_pokemon_data (lax : json -> option Z) (data : json)
  : R Schemas.PokemonCreate :=
  stat_items ← getitem data "stats" ≫= iter;
  stats ← stats_of stat_items;
  type_items ← getitem data "types" ≫= iter;
  types ← types_of type_items;
  sprite_url ← sprite_of data;
  pokeapi_id ← getitem data "id";
  name ← getitem data "name";
  type_names ← strings_of types;
  let types_joined := Py.join "," type_names in
  pokeapi_id ← validate_int lax pokeapi_id;
  name ← validate_str name;
  hp ← validate_int lax (stats_get stats "hp");
  attack ← validate_int lax (stats_get stats "attack");
  defense ← validate_int lax (stats_get stats "defense");
  special_attack ← validate_int lax (stats_get stats "special-attack");
  special_defense ← validate_int lax (stats_get stats "special-defense");
  speed ← validate_int lax (stats_get stats "speed");
  sprite_url ← validate_opt_str sprite_url;
  mret (Schemas.mkPokemonCreate pokeapi_id name hp attack defense special_attack
          special_defense speed types_joined sprite_url).

(** Get a value from cache if not expired. *)
Definition PokemonCache_get (key : string) : M (option json) :=
  self ← get_cache;
  match _cache self !! key with
  | None => mret None
  | Some entry =>
      now ← time_time;
      if Py.Qgtb now (expires_at entry) then
        _ ← put_cache {| _cache := delete key (_cache self); ttl := ttl self |};
        mret None
      else mret (Some (data entry))
  end.

(** Set a value in cache with TTL. *)
Definition PokemonCache_set (key : string) (value : json) : M unit :=
  self ← get_cache;
  now ← time_time;
  put_cache {| _cache := <[key := {| data := value;
                                     expires_at := (now + Py.float (ttl self))%Q |}]>
                           (_cache self);
               ttl := ttl self |}.

(** Clear all cached entries. *)
Definition PokemonCache_clear : M unit :=
  self ← get_cache;
  put_cache {| _cache := ∅; ttl := ttl self |}.

(** Client for interacting with the PokeAPI; its cache is the world's. *)
Record PokeAPIClient := mkPokeAPIClient {
  base_url : string;
  timeout : Q
}.

(** The [PokemonProvider] protocol of [protocols.py]: anything that can
    fetch Pokemon data by name. *)
Class PokemonProvider (P : Type) := {
  provide : P -> string -> M Schemas.PokemonCreate
}.

(** [response.raise_for_status()] lets a response through exactly when
    its status is a success (2xx). *)
Definition is_success (status_code : Z) : bool :=
  (200 <=? status_code) && (status_code <=? 299).

(** [self._parse_pokemon_data(data)] where it is called: the schema is
    validated by the library of the world. *)
Definition parse (data : json) : M Schemas.PokemonCreate :=
  lax ← get_coerce_int;
  lift (_parse_pokemon_data lax data).

(** What [self.cache.get] returns, as the caller sees it: the stored
    payload, and a payload that is the JSON [null] is Python's [None] like
    the answer for a key without a live entry. *)
Definition not_none (cached_data : option json) : option json :=
  match cached_data with
  | Some JNull => None
  | _ => cached_data
  end.

(** Fetch Pokemon data from PokeAPI. *)
Definition get_pokemon (self : PokeAPIClient) (name : string) : M Schemas.PokemonCreate :=
  let name_lower := Py.strip (Py.lower name) in
  cached_data ← PokemonCache_get name_lower;
  match not_none cached_data with
  | Some cached_data => parse cached_data
  | None =>
      response ← http_get (base_url self ++ "/pokemon/" ++ name_lower);
      match response with
      | Response status_code body =>
          if status_code =? 404 then raise (Domain (PokemonNotFoundError name))
          else if is_success status_code then
            match body with
            | None => raise JSONDecodeError
            | Some data =>
                _ ← PokemonCache_set name_lower data;
                parse data
            end
          else if status_code =? 404 then raise (Domain (PokemonNotFoundError name))
          else raise (Domain (PokeAPIError ("HTTP error " ++ Py.str_int status_code)))
      | RequestError text => raise (Domain (PokeAPIError text))
      | Malformed text => raise (InvalidURL text)
      end
  end.

#[global] Instance PokeAPIClient_provide : PokemonProvider PokeAPIClient := {|
  provide := get_pokemon
|}.

(** Get a PokeAPI client instance, for the configured base URL and timeout. *)
Definition get_pokeapi_client (base_url : string) (timeout : Q) : PokeAPIClient :=
  {| base_url := base_url; timeout := timeout |}.

End PokeAPI.

(** ** services.py *)

Module Services.

Import Json Exceptions World PokeAPI.

(** [result.scalar_one_or_none()]: no row, the one row, or an error when
    the query matched several. *)
Definition scalar_one_or_none {A : Type} (rows : list A) : R (option A) :=
  match rows with
  | [] => inr None
  | [row] => inr (Some row)
  | _ => inl MultipleResultsFound
  end.

(** [select(Pokemon).where(Pokemon.name == name)], executed. *)
Definition select_pokemon_by_name (name : string) : M (option Battle.Pokemon) :=
  fun w =>
    (scalar_one_or_none
       (filter (fun p => String.eqb (Battle.name p) name = true) (pokemon_rows (db w))),
     emit (DbSelect name) w).

(** Create a new Pokemon in the database: [db.add] and [db.flush].  The
    table requires [name] and [pokeapi_id] to be unique; the new row gets
    the next identifier. *)
Definition _create_pokemon (data : Schemas.PokemonCreate) : M Battle.Pokemon :=
  fun w =>
    let d := db w in
    let w' := emit (DbInsertPokemon (Schemas.name data)) w in
    if existsb (fun p => String.eqb (Battle.name p) (Schemas.name data)
                         || (Battle.pokeapi_id p =? Schemas.pokeapi_id data))
         (pokemon_rows d)
    then (inl IntegrityError, w')
    else
      let pokemon :=
        {| Battle.id := next_pokemon_id d;
           Battle.pokeapi_id := Schemas.pokeapi_id data;
           Battle.name := Schemas.name data;
           Battle.hp := Schemas.hp data;
           Battle.attack := Schemas.attack data;
           Battle.defense := Schemas.defense data;
           Battle.special_attack := Schemas.special_attack data;
           Battle.special_defense := Schemas.special_defense data;
           Battle.speed := Schemas.speed data;
           Battle.types := Schemas.types data;
           Battle.sprite_url := Schemas.sprite_url data |} in
      (inr pokemon,
       with_db {| pokemon_rows := (pokemon_rows d ++ [pokemon])%list;
                  battle_rows := battle_rows d;
                  next_pokemon_id := next_pokemon_id d + 1;
                  next_battle_id := next_battle_id d |} w').

(** Get a Pokemon from database or fetch from PokeAPI. *)
Definition get_or_fetch_pokemon (pokeapi_client : PokeAPIClient) (name : string)
  : M Battle.Pokemon :=
  let name_lower := Py.strip (Py.lower name) in
  pokemon ← select_pokemon_by_name name_lower;
  match pokemon with
  | Some pokemon => mret pokemon
  | None =>
      pokemon_data ← get_pokemon pokeapi_client name_lower;
      pokemon ← _create_pokemon pokemon_data;
      mret pokemon
  end.

(** The [Battle] object the service builds from a result. *)
Definition make_battle (battle_id : Z) (pokemon1 pokemon2 : Battle.Pokemon)
    (result : Battle.BattleResult) : Battle :=
  {| battle_id := battle_id;
     pokemon1_id := Battle.id pokemon1;
     pokemon2_id := Battle.id pokemon2;
     winner_id := match Battle.winner result with
                  | Some winner => Some (Battle.id winner)
                  | None => None
                  end;
     pokemon1_score := Battle.pokemon1_score result;
     pokemon2_score := Battle.pokemon2_score result;
     battle_log := Battle.battle_log result;
     pokemon1 := pokemon1;
     pokemon2 := pokemon2;
     winner := Battle.winner result |}.

(** Save battle record: [db.add] and [db.flush], then the relationships. *)
Definition save_battle (pokemon1 pokemon2 : Battle.Pokemon) (result : Battle.BattleResult)
  : M Battle :=
  fun w =>
    let d := db w in
    let battle := make_battle (next_battle_id d) pokemon1 pokemon2 result in
    (inr battle,
     with_db {| pokemon_rows := pokemon_rows d;
                battle_rows := (battle_rows d ++ [battle])%list;
                next_pokemon_id := next_pokemon_id d;
                next_battle_id := next_battle_id d + 1 |} (emit DbInsertBattle w)).

(** [BattleService.execute_battle]: execute a battle between two Pokemon
    given by name, and save the battle record. *)
Definition BattleService_execute_battle (pokeapi_client : PokeAPIClient)
    (pokemon1_name pokemon2_name : string) : M Battle :=
  let name1 := Py.strip (Py.lower pokemon1_name) in
  let name2 := Py.strip (Py.lower pokemon2_name) in
  if String.eqb name1 name2 then raise (Domain (SamePokemonError name1))
  else
    pokemon1 ← get_or_fetch_pokemon pokeapi_client name1;
    pokemon2 ← get_or_fetch_pokemon pokeapi_client name2;
    result ← lift (match Battle.execute_battle pokemon1 pokemon2 with
                   | Some result => inr result
                   | None => inl ZeroDivisionError
                   end);
    save_battle pokemon1 pokemon2 result.

End Services.

(** ** services.py: the lookups by identifier *)

Module Queries.

Import Exceptions World PokeAPI Services.


(** A battle as a query returns it: the stored row, and the three
    relationships as [selectinload] finds them in the [pokemon] table
    through the row's foreign keys. *)
Record LoadedBattle := mkLoadedBattle {
  loaded_row : Battle;
  loaded_pokemon1 : option Battle.Pokemon;
  loaded_pokemon2 : option Battle.Pokemon;
  loaded_winner : option Battle.Pokemon
}.

(** The row of the [pokemon] table a foreign key refers to. *)
Definition load_pokemon (d : Database) (pokemon_id : Z) : option Battle.Pokemon :=
  head (filter (fun p => Battle.id p = pokemon_id) (pokemon_rows d)).

Definition load_battle (d : Database) (row : Battle) : LoadedBattle :=
  {| loaded_row := row;
     loaded_pokemon1 := load_pokemon d (pokemon1_id row);
     loaded_pokemon2 := load_pokemon d (pokemon2_id row);
     loaded_winner := winner_id row ≫= load_pokemon d |}.

(** Get a battle by ID with related Pokemon loaded. *)
Definition get_battle (battle_id : Z) : M (option LoadedBattle) :=
  fun w =>
    (row ← scalar_one_or_none
             (filter (fun b => World.battle_id b = battle_id) (battle_rows (db w)));
     (mret (load_battle (db w) <$> row) : R (option LoadedBattle)),
     emit (DbSelect ("battles.id=" ++ Py.str_int battle_id)) w).

End Queries.

(** ** api.py and database.py: the boundary *)

Module Api.

Import Exceptions World PokeAPI Services Queries.

(** [fastapi.HTTPException]. *)
Record HTTPException := mkHTTPException {
  status_code : Z;
  detail : string
}.

(** Convert Pokemon errors to HTTP exceptions. *)
Definition handle_pokemon_error (error : PokemonBattleError) : HTTPException :=
  match error with
  | PokemonNotFoundError _ => {| status_code := 404; detail := message error |}
  | SamePokemonError _ => {| status_code := 400; detail := message error |}
  | PokeAPIError _ => {| status_code := 502; detail := message error |}
  | _ => {| status_code := 500; detail := message error |}
  end.

(** What leaves an endpoint instead of a response: the HTTP exception it
    raised, an exception it did not handle, or the refusal of the request
    by the framework before the endpoint runs (status 422), when the body
    does not validate against the request schema. *)
Inductive ApiError :=
| Http (e : HTTPException)
| Unhandled (e : exn)
| RequestValidationError.

(** An endpoint's run: a response or an error, and the world after it. *)
Definition Endpoint (A : Type) : Type := World -> (ApiError + A) * World.

(** [try: ... except PokemonBattleError as e: raise handle_pokemon_error(e)]. *)
Definition try_domain {A : Type} (m : M A) : Endpoint A :=
  fun w =>
    match m w with
    | (inr a, w') => (inr a, w')
    | (inl (Domain e), w') => (inl (Http (handle_pokemon_error e)), w')
    | (inl e, w') => (inl (Unhandled e), w')
    end.

(** Battle response schema (the creation time left out); a Pokemon
    response is the row itself. *)
Record BattleResponse := mkBattleResponse {
  id : Z;
  pokemon1 : Battle.Pokemon;
  pokemon2 : Battle.Pokemon;
  winner : option Battle.Pokemon;
  pokemon1_score : Q;
  pokemon2_score : Q;
  battle_log : string
}.

(** [GET /pokemon/{name}]: get Pokemon data by name. *)
Definition api_get_pokemon (pokeapi : PokeAPIClient) (name : string)
  : Endpoint Battle.Pokemon :=
  try_domain (get_or_fetch_pokemon pokeapi name).

(** Request schema for starting a battle: both names are strings of
    [min_length=1]. *)
Record BattleRequest := mkBattleRequest {
  pokemon1_name : string;
  pokemon2_name : string
}.

Definition BattleRequest_valid (request : BattleRequest) : bool :=
  (1 <=? String.length (pokemon1_name request))%nat
  && (1 <=? String.length (pokemon2_name request))%nat.

(** The endpoint of [POST /battles] (status 201 on success): start a
    battle between two Pokemon. *)
Definition create_battle (pokeapi : PokeAPIClient) (request : BattleRequest)
  : Endpoint BattleResponse :=
  try_domain
    (battle ← BattleService_execute_battle pokeapi (pokemon1_name request)
                (pokemon2_name request);
     mret {| id := World.battle_id battle;
             pokemon1 := World.pokemon1 battle;
             pokemon2 := World.pokemon2 battle;
             winner := World.winner battle;
             pokemon1_score := World.pokemon1_score battle;
             pokemon2_score := World.pokemon2_score battle;
             battle_log := World.battle_log battle |}).

(** [POST /battles] with a body of two strings: the framework validates
    the body against [BattleRequest] and runs the endpoint only when it
    is valid. *)
Definition api_create_battle (pokeapi : PokeAPIClient) (pokemon1_name pokemon2_name : string)
  : Endpoint BattleResponse :=
  fun w =>
    let request := {| pokemon1_name := pokemon1_name; pokemon2_name := pokemon2_name |} in
    if BattleRequest_valid request then create_battle pokeapi request w
    else (inl RequestValidationError, w).

(** [GET /battles/{battle_id}]: get a specific battle by its ID.  Nothing
    is caught here; a relationship that could not be loaded fails the
    validation of the response. *)
Definition api_get_battle (battle_id : Z) : Endpoint BattleResponse :=
  fun w =>
    match get_battle battle_id w with
    | (inl e, w') => (inl (Unhandled e), w')
    | (inr None, w') =>
        (inl (Http {| status_code := 404;
                      detail := "Battle with id " ++ Py.str_int battle_id ++ " not found" |}),
         w')
    | (inr (Some battle), w') =>
        match loaded_pokemon1 battle, loaded_pokemon2 battle with
        | Some p1, Some p2 =>
            (inr {| id := World.battle_id (loaded_row battle);
                    pokemon1 := p1;
                    pokemon2 := p2;
                    winner := loaded_winner battle;
                    pokemon1_score := World.pokemon1_score (loaded_row battle);
                    pokemon2_score := World.pokemon2_score (loaded_row battle);
                    battle_log := World.battle_log (loaded_row battle) |},
             w')
        | _, _ => (inl (Unhandled ValidationError), w')
        end
    end.

(** [get_db]: the session of one request.  When the endpoint returns, the
    session commits; when it raises, the session rolls back, which takes
    the two tables back to their rows at the start of the request (the
    identifier counters are sequences and keep their values), and the
    exception goes on. *)
Definition get_db {A : Type} (endpoint : Endpoint A) : Endpoint A :=
  fun w =>
    match endpoint w with
    | (inr a, w') => (inr a, w')
    | (inl e, w') =>
        (inl e,
         with_db {| pokemon_rows := pokemon_rows (db w);
                    battle_rows := battle_rows (db w);
                    next_pokemon_id := next_pokemon_id (db w');
                    next_battle_id := next_battle_id (db w') |} w')
    end.

End Api.

(** ** Vocabulary of the properties *)

Module Spec.

Import Battle.

(** The 18 category labels of the chart. *)
Definition known_types : list string :=
  ["normal"; "fire"; "water"; "electric"; "grass"; "ice"; "fighting"; "poison"; "ground";
   "flying"; "psychic"; "bug"; "rock"; "ghost"; "dragon"; "dark"; "steel"; "fairy"].

(** A category sequence of one or two known labels. *)
Definition valid_categories (l : list string) : Prop :=
  (length l = 1 \/ length l = 2)%nat /\ Forall (fun t => In t known_types) l.

(** The same, as a test. *)
Definition valid_categories_b (l : list string) : bool :=
  ((length l =? 1) || (length l =? 2))%nat
  && forallb (fun t => existsb (String.eqb t) known_types) l.

(** All of them: the 18 single labels and the 324 pairs. *)
Definition all_categories : list (list string) :=
  (map (fun a => [a]) known_types
   ++ flat_map (fun a => map (fun b => [a; b]) known_types) known_types)%list.

(** [q] is (equal to) one of the listed values. *)
Definition one_of (q : Q) (values : list Q) : Prop := Exists (fun v => q == v)%Q values.

(** The values of one chart entry, of two stacked entries and of four. *)
Definition entry_values : list Q := [0; 0.5; 1; 2]%Q.
Definition stacked_twice : list Q := [0; 0.25; 0.5; 1; 2; 4]%Q.
Definition stacked_four_times : list Q :=
  [0; 1 # 16; 1 # 8; 0.25; 0.5; 1; 2; 4; 8; 16]%Q.

Definition is_entry (q : Q) : bool :=
  Qeq_bool q 0 || Qeq_bool q 0.5 || Qeq_bool q 1 || Qeq_bool q 2.

(** Zero, or a power of two with exponent between [-n] and [n]: what a
    product of at most [n] chart entries can be. *)
Definition pow2_within (n : nat) (q : Q) : Prop :=
  (q == 0)%Q \/ exists k : Z, - Z.of_nat n <= k <= Z.of_nat n /\ (q == 2 ^ k)%Q.

(** Base power, in the words of the specification. *)
Definition base_power (vitality offense defense special_offense special_defense speed : Z) : Q :=
  let offensive := (inject_Z (offense + special_offense) / 2)%Q in
  let defensive := (inject_Z (defense + special_defense) / 2)%Q in
  ((inject_Z vitality * 0.5 + offensive + defensive + inject_Z speed) / 4)%Q.

Definition base_power_of (p : Pokemon) : Q :=
  base_power (hp p) (attack p) (defense p) (special_attack p) (special_defense p) (speed p).

(** Per-side score, in the words of the specification:
    base x 0.5 + effectiveness x base x 0.3
    + min(attacker.speed / max(defender.speed, 1), 2.0) x base x 0.2. *)
Definition side_score (base effectiveness : Q) (attacker_speed defender_speed : Z) : Q :=
  (base * 0.5 + effectiveness * base * 0.3
   + Qmin (inject_Z attacker_speed / inject_Z (Z.max defender_speed 1)) 2.0 * base * 0.2)%Q.

(** The draw policy, in the words of the specification, for
    diff = |score_a - score_b| and avg = (score_a + score_b) / 2. *)
Definition draw_declared (score_a score_b : Q) : Prop :=
  let diff := Qabs (score_a - score_b) in
  let avg := ((score_a + score_b) / 2)%Q in
  (0 < avg /\ diff < avg * 0.01)%Q \/ (~ (0 < avg)%Q /\ (score_a == score_b)%Q).

(** The score of [attacker] against [defender] as the code computes it,
    whatever the log. *)
Definition scored (attacker defender : Pokemon) (score : Q) : Prop :=
  exists log_entries,
    calculate_battle_score attacker defender (parse_types (types attacker))
      (parse_types (types defender)) = Some (score, log_entries).

(** A string of whitespace only, and one of delimiters and whitespace only. *)
Fixpoint all_space (s : string) : bool :=
  match s with
  | EmptyString => true
  | String c s' => Py.is_space c && all_space s'
  end.

Fixpoint blank (s : string) : bool :=
  match s with
  | EmptyString => true
  | String c s' => (Ascii.eqb c "," || Py.is_space c) && blank s'
  end.

End Spec.

(** ** Histories of cache operations *)

Module CacheOps.

Import Json World PokeAPI.

(** One call on the cache. *)
Inductive cache_op :=
| OpGet (key : string)
| OpSet (key : string) (value : json)
| OpClear.

(** The world after the call. *)
Definition run_op (op : cache_op) (w : World) : World :=
  match op with
  | OpGet key => (PokemonCache_get key w).2
  | OpSet key value => (PokemonCache_set key value w).2
  | OpClear => (PokemonCache_clear w).2
  end.

Definition run_ops (ops : list cache_op) (w : World) : World :=
  fold_left (fun w op => run_op op w) ops w.

(** [op] is a [set] for [key]. *)
Definition sets_key (key : string) (op : cache_op) : bool :=
  match op with
  | OpSet k _ => String.eqb k key
  | _ => false
  end.

(** What the clock shows at the next reading. *)
Definition now (w : World) : Q := clock w (length (events w)).

End CacheOps.

(** ** Vocabulary of the fetch and of the orchestration *)

Module Fetch.

Import Json Exceptions World PokeAPI.

(** A name in normalized form: lower-cased, then trimmed. *)
Definition normalize (name : string) : string := Py.strip (Py.lower name).

(** What the HTTP client answers to the request that [get_pokemon] makes
    for [name], when it makes one (that is, when the cache has no live
    entry for the name, or one that holds [null]). *)
Definition source_answer (self : PokeAPIClient) (name : string) (w : World)
  : option HttpResult :=
  match PokemonCache_get (normalize name) w with
  | (inr cached_data, w') =>
      match not_none cached_data with
      | Some _ => None
      | None =>
          Some (remote w' (length (events w'))
                  (base_url self ++ "/pokemon/" ++ normalize name))
      end
  | _ => None
  end.

(** The payload [get_pokemon] parses, when it gets that far: the live
    cache entry, or the body of a success response. *)
Definition payload (self : PokeAPIClient) (name : string) (w : World) : option json :=
  match PokemonCache_get (normalize name) w with
  | (inr cached_data, w') =>
      match not_none cached_data with
      | Some cached => Some cached
      | None =>
          match remote w' (length (events w'))
                  (base_url self ++ "/pokemon/" ++ normalize name) with
          | Response status_code (Some data) =>
              if negb (status_code =? 404) && is_success status_code then Some data else None
          | _ => None
          end
      end
  | _ => None
  end.

(** An error of a pure step that is not a domain error. *)
Definition not_domain {A : Type} (r : R A) : Prop := forall e, r <> inl (Domain e).

(** A computation that never raises the identical-participants error. *)
Definition never_same {A : Type} (m : M A) : Prop :=
  forall w n, (m w).1 <> inl (Domain (SamePokemonError n)).

End Fetch.

(** ** The records of the test suite *)

Module Fixtures.

Import Battle.

Definition pikachu : Pokemon :=
  mkPokemon 1 25 "pikachu" 35 55 40 50 50 90 "electric"
    (Some "https://example.com/pikachu.png").

Definition charizard : Pokemon :=
  mkPokemon 2 6 "charizard" 78 84 78 109 85 100 "fire,flying"
    (Some "https://example.com/charizard.png").

Definition blastoise : Pokemon :=
  mkPokemon 3 9 "blastoise" 79 83 100 85 105 78 "water"
    (Some "https://example.com/blastoise.png").

(** The second Pikachu of [test_battle_symmetric_opponents]. *)
Definition pikachu2 : Pokemon :=
  mkPokemon 2 25 "pikachu2" 35 55 40 50 50 90 "electric" None.

(** The payloads of the test suite. *)
Definition stat_entry (name : string) (base_stat : Z) : Json.json :=
  Json.JDict [("base_stat", Json.JInt base_stat);
              ("stat", Json.JDict [("name", Json.JStr name)])].

Definition type_entry (name : string) : Json.json :=
  Json.JDict [("type", Json.JDict [("name", Json.JStr name)])].

Definition mock_pikachu_data : Json.json :=
  Json.JDict [
    ("id", Json.JInt 25);
    ("name", Json.JStr "pikachu");
    ("stats", Json.JList [stat_entry "hp" 35; stat_entry "attack" 55;
                          stat_entry "defense" 40; stat_entry "special-attack" 50;
                          stat_entry "special-defense" 50; stat_entry "speed" 90]);
    ("types", Json.JList [type_entry "electric"]);
    ("sprites", Json.JDict [("front_default", Json.JStr "https://example.com/pikachu.png")])
  ].

Definition mock_charizard_data : Json.json :=
  Json.JDict [
    ("id", Json.JInt 6);
    ("name", Json.JStr "charizard");
    ("stats", Json.JList [stat_entry "hp" 78; stat_entry "attack" 84;
                          stat_entry "defense" 78; stat_entry "special-attack" 109;
                          stat_entry "special-defense" 85; stat_entry "speed" 100]);
    ("types", Json.JList [type_entry "fire"; type_entry "flying"]);
    ("sprites", Json.JDict [("front_default", Json.JStr "https://example.com/charizard.png")])
  ].

Definition client : PokeAPI.PokeAPIClient :=
  {| PokeAPI.base_url := "https://pokeapi.co/api/v2"; PokeAPI.timeout := 30 |}.

(** The URL has a control character (below U+0020, or U+007F). *)
Definition has_control (url : string) : bool :=
  existsb (fun c => (N_of_ascii c <? 32)%N || (N_of_ascii c =? 127)%N)
    (list_ascii_of_string url).

(** A client that refuses a URL with a control character, and a source
    that knows Pikachu and Charizard, answers an empty object for
    "missingno", [null] for "unown", a server error for "mew", drops the
    connection for "ditto" and answers not-found for everything else. *)
Definition mock_remote (n : nat) (url : string) : World.HttpResult :=
  if has_control url
  then World.Malformed "Invalid non-printable ASCII character in URL"
  else if String.eqb url "https://pokeapi.co/api/v2/pokemon/pikachu"
  then World.Response 200 (Some mock_pikachu_data)
  else if String.eqb url "https://pokeapi.co/api/v2/pokemon/charizard"
  then World.Response 200 (Some mock_charizard_data)
  else if String.eqb url "https://pokeapi.co/api/v2/pokemon/missingno"
  then World.Response 200 (Some (Json.JDict []))
  else if String.eqb url "https://pokeapi.co/api/v2/pokemon/unown"
  then World.Response 200 (Some Json.JNull)
  else if String.eqb url "https://pokeapi.co/api/v2/pokemon/mew"
  then World.Response 503 None
  else if String.eqb url "https://pokeapi.co/api/v2/pokemon/ditto"
  then World.RequestError "connection reset"
  else World.Response 404 None.

(** A validation library that converts the booleans and the floats
    without a fractional part, and no string. *)
Definition mock_coerce_int (j : Json.json) : option Z :=
  match j with
  | Json.JBool b => Some (if b then 1 else 0)
  | Json.JFloat q => if Qeq_bool q (inject_Z (Qfloor q)) then Some (Qfloor q) else None
  | _ => None
  end.

(** A fresh process: empty cache with the given time-to-live, empty
    store, and a clock that advances by 1.1 seconds per reading. *)
Definition fresh_world (ttl : Z) : World.World :=
  {| World.cache := World.mkPokemonCache ∅ ttl;
     World.db := World.mkDatabase [] [] 1 1;
     World.events := [];
     World.clock := fun n => (inject_Z (Z.of_nat n) * 1.1)%Q;
     World.remote := mock_remote;
     World.coerce_int := mock_coerce_int |}.

End Fixtures.


(** ** Vocabulary of the further properties *)

Module ChartSpec.

Import Battle Spec.

(** The table entry for one (attacker, defender) label pair, 1 when the
    table has none. *)
Definition chart_entry (atk_type def_type : string) : Q :=
  type_mult (default ∅ (TYPE_CHART !! atk_type)) def_type.

(** The product of a list of numbers. *)
Definition product (l : list Q) : Q := fold_right Qmult 1%Q l.

(** The label is one of the 18 of the chart. *)
Definition known (t : string) : bool := existsb (String.eqb t) known_types.

(** The loops of [get_type_effectiveness], started from any multiplier. *)
Definition effectiveness_from (multiplier : Q) (attacker_types defender_types : list string)
  : Q :=
  fold_left
    (fun multiplier atk_type =>
       let atk_chart := default ∅ (TYPE_CHART !! atk_type) in
       fold_left
         (fun multiplier def_type => (multiplier * type_mult atk_chart def_type)%Q)
         defender_types multiplier)
    attacker_types multiplier.

End ChartSpec.

Module TextSpec.

(** The string contains the character. *)
Fixpoint has_char (c : ascii) (s : string) : bool :=
  match s with
  | EmptyString => false
  | String c' s' => Ascii.eqb c' c || has_char c s'
  end.

(** A label as the source lists it: non-empty, without surrounding
    whitespace and without a comma. *)
Definition clean_label (t : string) : Prop :=
  t <> EmptyString /\ Py.strip t = t /\ has_char "," t = false.

Definition clean_label_b (t : string) : bool :=
  Py.truthy t && String.eqb (Py.strip t) t && negb (has_char "," t).

End TextSpec.

Module CacheSpec.

Import Json World PokeAPI CacheOps.

(** The value of the latest [set] for [key] in a history of calls, none
    if a [clear] came after it or there was none. *)
Definition last_set (key : string) (ops : list cache_op) : option json :=
  fold_left
    (fun acc op =>
       match op with
       | OpSet k v => if String.eqb k key then Some v else acc
       | OpClear => None
       | OpGet _ => acc
       end)
    ops None.

(** [op] is a call for [key]. *)
Definition touches (key : string) (op : cache_op) : bool :=
  match op with
  | OpGet k => String.eqb k key
  | OpSet k _ => String.eqb k key
  | OpClear => true
  end.

End CacheSpec.

Module ParseSpec.

Import Json PokeAPI.

(** An item of the payload's [stats] list that gives [value] for the
    stat [name]: [item["stat"]["name"]] and [item["base_stat"]]. *)
Definition is_stat (item : json) (name : string) (value : Z) : Prop :=
  (getitem item "stat" ≫= fun s => getitem s "name") = inr (JStr name)
  /\ getitem item "base_stat" = inr (JInt value).

(** An item of the payload's [types] list that names [name]:
    [item["type"]["name"]]. *)
Definition is_type (item : json) (name : string) : Prop :=
  (getitem item "type" ≫= fun t => getitem t "name") = inr (JStr name).

(** What an object says about the sprite: a URL under
    [sprites.front_default], or none of it (no [sprites] member, a null or
    empty one, or one without a [front_default] or with a null one). *)
Definition has_sprite (d : list (string * json)) (sprite : option string) : Prop :=
  match sprite with
  | Some url =>
      exists s, assoc_last d "sprites" = Some (JDict s)
                /\ assoc_last s "front_default" = Some (JStr url)
  | None =>
      assoc_last d "sprites" = None
      \/ assoc_last d "sprites" = Some JNull
      \/ exists s, assoc_last d "sprites" = Some (JDict s)
                   /\ (assoc_last s "front_default" = None
                       \/ assoc_last s "front_default" = Some JNull)
  end.

(** The value a list of (name, value) pairs gives a stat: the last one
    of that name, and 0 when there is none. *)
Definition stat_value (stats : list (string * Z)) (name : string) : Z :=
  default 0 (assoc_last stats name).

(** A pure step raises only exceptions of an allowed kind. *)
Definition raises_only {A : Type} (allowed : Exceptions.exn -> bool) (r : R A) : Prop :=
  forall e, r = inl e -> allowed e = true.

(** The exceptions of the parser: a missing member of the payload or of
    one of its items, a value of the wrong shape, a field of the wrong
    type. *)
Definition parse_error (e : Exceptions.exn) : bool :=
  match e with
  | Exceptions.KeyError key =>
      bool_decide (key ∈ ["stats"; "types"; "id"; "name"; "stat"; "base_stat"; "type"])
  | Exceptions.TypeError | Exceptions.AttributeError | Exceptions.ValidationError => true
  | _ => false
  end.

End ParseSpec.

Module FetchSpec.

Import Json World PokeAPI Fetch.

(** The URLs requested in a trace of effects, in order. *)
Definition requests (trace : list Event) : list string :=
  flat_map (fun e => match e with HttpGet url => [url] | _ => [] end) trace.

(** The URL [get_pokemon] requests for a name. *)
Definition pokemon_url (self : PokeAPIClient) (name : string) : string :=
  base_url self ++ "/pokemon/" ++ normalize name.

(** The world in which [get_pokemon] stores a fetched payload: after the
    cache lookup and the request. *)
Definition world_at_store (self : PokeAPIClient) (name : string) (w : World) : World :=
  emit (HttpGet (pokemon_url self name)) (PokemonCache_get (normalize name) w).2.

End FetchSpec.

Module StoreSpec.

Import World.

(** The identifiers in use in the two tables. *)
Definition pokemon_ids (d : Database) : list Z := Battle.id <$> pokemon_rows d.

Definition battle_ids (d : Database) : list Z := battle_id <$> battle_rows d.

(** The foreign keys of a row of the [battles] table refer to rows of the
    [pokemon] table. *)
Definition linked (d : Database) (b : Battle) : Prop :=
  pokemon1_id b ∈ pokemon_ids d
  /\ pokemon2_id b ∈ pokemon_ids d
  /\ match winner_id b with
     | Some i => i ∈ pokemon_ids d
     | None => True
     end.

(** The constraints [models.py] declares on the two tables: [name] and
    [pokeapi_id] unique, the primary keys unique and below the next value
    of their sequence, the foreign keys of every battle resolved. *)
Definition store_ok (d : Database) : Prop :=
  NoDup (Battle.name <$> pokemon_rows d)
  /\ NoDup (Battle.pokeapi_id <$> pokemon_rows d)
  /\ NoDup (pokemon_ids d)
  /\ Forall (fun i => i < next_pokemon_id d) (pokemon_ids d)
  /\ NoDup (battle_ids d)
  /\ Forall (fun i => i < next_battle_id d) (battle_ids d)
  /\ Forall (linked d) (battle_rows d).

(** The store [d'] has the rows of [d] and, after them, the rows [new]
    in the [pokemon] table; the [battles] table is the same. *)
Definition adds_pokemon (d d' : Database) (new : list Battle.Pokemon) : Prop :=
  pokemon_rows d' = (pokemon_rows d ++ new)%list
  /\ battle_rows d' = battle_rows d
  /\ next_battle_id d' = next_battle_id d.

(** The exceptions of a lookup that goes to the external source: those
    of the parser, a URL the client refuses, a body that is not JSON, the
    two domain errors of the fetch, and the refusal of the store to take a
    second row of the same name or external identifier. *)
Definition lookup_error (e : Exceptions.exn) : bool :=
  ParseSpec.parse_error e
  || match e with
     | Exceptions.InvalidURL _
     | Exceptions.JSONDecodeError | Exceptions.IntegrityError
     | Exceptions.Domain (Exceptions.PokemonNotFoundError _)
     | Exceptions.Domain (Exceptions.PokeAPIError _) => true
     | _ => false
     end.

(** A store that holds the three records of the test suite. *)
Definition stocked_world (ttl : Z) : World :=
  with_db {| pokemon_rows := [Fixtures.pikachu; Fixtures.charizard; Fixtures.blastoise];
             battle_rows := [];
             next_pokemon_id := 4;
             next_battle_id := 1 |}
    (Fixtures.fresh_world ttl).

End StoreSpec.

(** ** Vocabulary of the binary64 scoring *)

Module RoundedSpec.

Import Battle F64 Rounded.
Local Open Scope Q_scope.

(** The draw policy, in the words of the specification, for
    diff = |score_a - score_b| and avg = (score_a + score_b) / 2, each
    operation the binary64 one. *)
Definition draw_declared_fl (score_a score_b : Q) : Prop :=
  let diff := Qabs (fl_sub score_a score_b) in
  let avg := fl_div (fl_add score_a score_b) (fl_of_int 2) in
  (0 < avg /\ diff < fl_mul avg (fl 0.01)) \/ (~ 0 < avg /\ score_a == score_b).

(** The binary64 score of [attacker] against [defender] as the code
    computes it, whatever the log. *)
Definition scored_fl (attacker defender : Pokemon) (score : Q) : Prop :=
  exists log_entries,
    calculate_battle_score_fl attacker defender (parse_types (types attacker))
      (parse_types (types defender)) = Some (score, log_entries).

(** A float as the rational it is, in lowest terms; [None] for an
    infinity or a NaN. *)
Definition to_Q (x : PrimFloat.float) : option Q :=
  match Prim2SF x with
  | S754_zero _ => Some 0
  | S754_finite s m e => Some (Qred ((if s then -1 else 1) * inject_Z (Z.pos m) * pow2 e))
  | _ => None
  end.

(** Two records whose scores are 0.9985 percent of their mean apart. *)
Definition close_pair : Pokemon * Pokemon :=
  (mkPokemon 1 1 "a" 54 58 58 58 58 58 "normal" None,
   mkPokemon 2 2 "b" 50 58 58 58 58 58 "ghost" None).

(** A record whose score against the second is 8.075 in exact
    arithmetic. *)
Definition tie_record : Pokemon * Pokemon :=
  (mkPokemon 1 1 "c" 18 17 16 8 7 5 "normal" None,
   mkPokemon 2 2 "o" 1 1 1 1 1 5 "rock" None).

End RoundedSpec.
(** ** Properties of the type chart and of the combined effectiveness *)

Module TypeChart.

Import Battle Spec.
Local Open Scope Q_scope.

Lemma chart_entries :
  map_Forall (fun _ (m : gmap string Q) => map_Forall (fun _ q => is_entry q = true) m)
    TYPE_CHART.
Proof. compute_done. Qed.

(** The chart has exactly the 18 known attacking labels. *)
Lemma chart_domain : dom TYPE_CHART = list_to_set known_types.
Proof. compute_done. Qed.

Lemma is_entry_cases q :
  is_entry q = true -> q == 0 \/ q == / 2 \/ q == 1 \/ q == 2.
Proof.
  unfold is_entry. rewrite !orb_true_iff.
  intros [[[H | H] | H] | H]; apply Qeq_bool_iff in H;
    [left | right; left | right; right; left | right; right; right];
    rewrite H; reflexivity.
Qed.

(** Every lookup, with its default, is 0, 0.5, 1 or 2: for known and
    unknown labels alike. *)
Lemma type_mult_entry (atk_type def_type : string) :
  is_entry (type_mult (default ∅ (TYPE_CHART !! atk_type)) def_type) = true.
Proof.
  unfold type_mult.
  destruct (TYPE_CHART !! atk_type) as [m |] eqn:Ha; simpl.
  - destruct (m !! def_type) as [q |] eqn:Hd; simpl; [| reflexivity].
    exact (chart_entries _ _ Ha _ _ Hd).
  - rewrite lookup_empty. reflexivity.
Qed.

(** The table's multipliers are in {0, 0.5, 1, 2}, the default included. *)
Lemma type_mult_one_of (atk_type def_type : string) :
  one_of (type_mult (default ∅ (TYPE_CHART !! atk_type)) def_type) entry_values.
Proof.
  pose proof (type_mult_entry atk_type def_type) as H.
  apply is_entry_cases in H. unfold one_of, entry_values.
  rewrite !List.Exists_cons.
  destruct H as [H | [H | [H | H]]]; rewrite H; auto 6 using Qeq_refl.
  right; left. reflexivity.
Qed.

Lemma pow2_within_mono n m q : (n <= m)%nat -> pow2_within n q -> pow2_within m q.
Proof.
  intros Hnm [H0 | (k & Hk & Hq)]; [left; exact H0 |].
  right. exists k. split; [lia | exact Hq].
Qed.

Lemma pow2_within_step n q f :
  pow2_within n q -> is_entry f = true -> pow2_within (S n) (q * f).
Proof.
  intros Hq Hf. apply is_entry_cases in Hf.
  destruct Hq as [H0 | (k & Hk & Hq)].
  { left. rewrite H0. ring. }
  assert (H2 : ~ 2 == 0) by (intros H; discriminate H).
  destruct Hf as [Hf | [Hf | [Hf | Hf]]].
  - left. rewrite Hf. ring.
  - right. exists (k - 1)%Z. split; [lia |].
    rewrite Hf, Hq, Qpower_minus by exact H2. reflexivity.
  - right. exists k. split; [lia |]. rewrite Hf, Hq. ring.
  - right. exists (k + 1)%Z. split; [lia |].
    rewrite Hf, Hq, Qpower_plus by exact H2. reflexivity.
Qed.

(** The inner loop over the defender's labels. *)
Lemma inner_loop_pow2 (atk_chart : gmap string Q) defender_types :
  (forall d, is_entry (type_mult atk_chart d) = true) ->
  forall n multiplier,
    pow2_within n multiplier ->
    pow2_within (n + length defender_types)
      (fold_left (fun multiplier def_type => multiplier * type_mult atk_chart def_type)
         defender_types multiplier).
Proof.
  intros Hentry. induction defender_types as [| d ds IH]; intros n multiplier Hm;
    cbn [fold_left length].
  - rewrite Nat.add_0_r. exact Hm.
  - replace (n + S (length ds))%nat with (S n + length ds)%nat by lia.
    apply IH. apply pow2_within_step; [exact Hm | apply Hentry].
Qed.

(** The outer loop over the attacker's labels. *)
Lemma outer_loop_pow2 attacker_types defender_types :
  forall n multiplier,
    pow2_within n multiplier ->
    pow2_within (n + length attacker_types * length defender_types)
      (fold_left
         (fun multiplier atk_type =>
            let atk_chart := default ∅ (TYPE_CHART !! atk_type) in
            fold_left
              (fun multiplier def_type => multiplier * type_mult atk_chart def_type)
              defender_types multiplier)
         attacker_types multiplier).
Proof.
  induction attacker_types as [| a l IH]; intros n multiplier Hm;
    cbn [fold_left length Nat.mul].
  - rewrite Nat.add_0_r. exact Hm.
  - replace (n + (length defender_types + length l * length defender_types))%nat
      with ((n + length defender_types) + length l * length defender_types)%nat by lia.
    apply IH. apply inner_loop_pow2; [apply type_mult_entry | exact Hm].
Qed.

(** The combined effectiveness is zero or a power of two whose exponent is
    bounded by the number of (attacker, defender) label pairs. *)
Lemma effectiveness_pow2 attacker_types defender_types :
  pow2_within (length attacker_types * length defender_types)
    (get_type_effectiveness attacker_types defender_types).
Proof.
  unfold get_type_effectiveness.
  apply (outer_loop_pow2 attacker_types defender_types 0 1).
  right. exists 0%Z. split; [lia | reflexivity].
Qed.

Lemma one_of_eq q v values : q == v -> one_of v values -> one_of q values.
Proof.
  unfold one_of. intros Hqv H. apply List.Exists_exists in H as (x & Hin & Hx).
  apply List.Exists_exists. exists x. split; [exact Hin | rewrite Hqv; exact Hx].
Qed.

Lemma one_of_mem q values : existsb (Qeq_bool q) values = true -> one_of q values.
Proof.
  intros H. apply existsb_exists in H as (x & Hin & Hx).
  apply List.Exists_exists. exists x. split; [exact Hin | apply Qeq_bool_iff; exact Hx].
Qed.

Lemma pow2_within_2 q : pow2_within 2 q -> 0 <= q <= 4 /\ one_of q stacked_twice.
Proof.
  intros [H0 | (k & Hk & Hq)].
  { split; [rewrite H0; split; discriminate |].
    apply (one_of_eq _ _ _ H0), one_of_mem. reflexivity. }
  assert (Hc : (k = -2 \/ k = -1 \/ k = 0 \/ k = 1 \/ k = 2)%Z) by lia.
  destruct Hc as [-> | [-> | [-> | [-> | ->]]]];
    (split; [rewrite Hq; split; discriminate |]);
    apply (one_of_eq _ _ _ Hq), one_of_mem; reflexivity.
Qed.

Lemma pow2_within_4 q : pow2_within 4 q -> 0 <= q <= 16 /\ one_of q stacked_four_times.
Proof.
  intros [H0 | (k & Hk & Hq)].
  { split; [rewrite H0; split; discriminate |].
    apply (one_of_eq _ _ _ H0), one_of_mem. reflexivity. }
  assert (Hc : (k = -4 \/ k = -3 \/ k = -2 \/ k = -1 \/ k = 0 \/ k = 1 \/ k = 2 \/ k = 3
                \/ k = 4)%Z) by lia.
  destruct Hc as [-> | [-> | [-> | [-> | [-> | [-> | [-> | [-> | ->]]]]]]]];
    (split; [rewrite Hq; split; discriminate |]);
    apply (one_of_eq _ _ _ Hq), one_of_mem; reflexivity.
Qed.

Lemma valid_categories_check l : valid_categories_b l = true -> valid_categories l.
Proof.
  unfold valid_categories_b, valid_categories.
  rewrite andb_true_iff, orb_true_iff, !Nat.eqb_eq.
  intros [Hlen Hk]. split; [exact Hlen |].
  apply List.Forall_forall. intros t Ht.
  rewrite List.forallb_forall in Hk. specialize (Hk t Ht).
  apply List.existsb_exists in Hk as (x & Hx & Heq).
  apply String.eqb_eq in Heq. subst x. exact Hx.
Qed.

Lemma valid_categories_length l : valid_categories l -> (1 <= length l <= 2)%nat.
Proof. intros [[H | H] _]; lia. Qed.

(** The documented literal values and the two stacking examples. *)
Lemma documented_values :
  get_type_effectiveness ["fire"] ["grass"] == 2 /\
  get_type_effectiveness ["fire"] ["water"] == 0.5 /\
  get_type_effectiveness ["normal"] ["fighting"] == 1 /\
  get_type_effectiveness ["normal"] ["ghost"] == 0 /\
  get_type_effectiveness ["electric"] ["water"; "flying"] == 4 /\
  get_type_effectiveness ["fire"; "flying"] ["grass"] == 4.
Proof. repeat split; vm_compute; reflexivity. Qed.

(** Each of the ten values is the effectiveness of some matchup of known
    labels, so the range below cannot be narrowed. *)
Lemma stacked_values_reached :
  get_type_effectiveness ["normal"] ["ghost"] == 0 /\
  get_type_effectiveness ["grass"; "fire"] ["fire"; "dragon"] == 1 # 16 /\
  get_type_effectiveness ["fire"; "normal"] ["rock"; "dragon"] == 1 # 8 /\
  get_type_effectiveness ["fire"] ["water"; "rock"] == 0.25 /\
  get_type_effectiveness ["fire"] ["water"] == 0.5 /\
  get_type_effectiveness ["normal"] ["fighting"] == 1 /\
  get_type_effectiveness ["fire"] ["grass"] == 2 /\
  get_type_effectiveness ["electric"] ["water"; "flying"] == 4 /\
  get_type_effectiveness ["ground"; "rock"] ["fire"; "ice"] == 8 /\
  get_type_effectiveness ["ground"; "fighting"] ["steel"; "rock"] == 16.
Proof. repeat split; vm_compute; reflexivity. Qed.

(** C1: the code at a dual/dual matchup.  Ground/fighting against
    steel/rock are two sequences of two known labels, and their combined
    effectiveness is 2 * 2 * 2 * 2 = 16, which is above 4 and outside
    {0, 0.25, 0.5, 1, 2, 4}: the loops multiply four chart entries, where
    the docstring of [battle.py] has the multiplier range from 0.25x to
    4x. *)
Lemma effectiveness_dual_dual_sixteen :
  valid_categories ["ground"; "fighting"] /\
  valid_categories ["steel"; "rock"] /\
  get_type_effectiveness ["ground"; "fighting"] ["steel"; "rock"] == 16 /\
  ~ get_type_effectiveness ["ground"; "fighting"] ["steel"; "rock"] <= 4 /\
  ~ one_of (get_type_effectiveness ["ground"; "fighting"] ["steel"; "rock"]) stacked_twice.
Proof.
  assert (He : get_type_effectiveness ["ground"; "fighting"] ["steel"; "rock"] == 16)
    by (vm_compute; reflexivity).
  split; [apply valid_categories_check; reflexivity |].
  split; [apply valid_categories_check; reflexivity |].
  split; [exact He |].
  split.
  - rewrite He. intros H. apply H. reflexivity.
  - intros H. apply List.Exists_exists in H as (v & Hin & Hv').
    rewrite He in Hv'. unfold stacked_twice in Hin. simpl in Hin.
    repeat (destruct Hin as [<- | Hin]; [discriminate Hv' |]). exact Hin.
Qed.

(** What the loops do give: for category sequences of one or two known
    labels, the combined effectiveness lies between 0 and 16 and is one of
    0, 1/16, 1/8, 1/4, 1/2, 1, 2, 4, 8, 16; when the attacker or the
    defender has a single label it is at most 4 and one of
    0, 0.25, 0.5, 1, 2, 4. *)
Theorem effectiveness_range (attacker_types defender_types : list string) :
  valid_categories attacker_types ->
  valid_categories defender_types ->
  (0 <= get_type_effectiveness attacker_types defender_types <= 16 /\
   one_of (get_type_effectiveness attacker_types defender_types) stacked_four_times) /\
  ((length attacker_types = 1 \/ length defender_types = 1)%nat ->
   0 <= get_type_effectiveness attacker_types defender_types <= 4 /\
   one_of (get_type_effectiveness attacker_types defender_types) stacked_twice).
Proof.
  intros Ha Hd.
  apply valid_categories_length in Ha, Hd.
  pose proof (effectiveness_pow2 attacker_types defender_types) as Hp.
  split.
  - apply pow2_within_4. revert Hp. apply pow2_within_mono. nia.
  - intros H1. apply pow2_within_2. revert Hp. apply pow2_within_mono. nia.
Qed.

Lemma effectiveness_range_witness :
  valid_categories ["electric"] /\ valid_categories ["water"; "flying"] /\
  (0 <= get_type_effectiveness ["electric"] ["water"; "flying"] <= 16 /\
   one_of (get_type_effectiveness ["electric"] ["water"; "flying"]) stacked_four_times) /\
  ((length ["electric"] = 1 \/ length ["water"; "flying"] = 1)%nat ->
   0 <= get_type_effectiveness ["electric"] ["water"; "flying"] <= 4 /\
   one_of (get_type_effectiveness ["electric"] ["water"; "flying"]) stacked_twice).
Proof.
  assert (Ha : valid_categories ["electric"])
    by (apply valid_categories_check; reflexivity).
  assert (Hd : valid_categories ["water"; "flying"])
    by (apply valid_categories_check; reflexivity).
  split; [exact Ha |]. split; [exact Hd |].
  exact (effectiveness_range ["electric"] ["water"; "flying"] Ha Hd).
Defined.

End TypeChart.

(** ** Properties of the scoring formula and of the contest resolution *)

Module Scoring.

Import Battle Spec.
Local Open Scope Q_scope.

(** *** The comparisons of the code against the order of the rationals *)

Lemma Qltb_lt a b : Py.Qltb a b = true <-> a < b.
Proof.
  unfold Py.Qltb. rewrite negb_true_iff. split.
  - intros H. apply Qnot_le_lt. intros Hle. apply Qle_bool_iff in Hle. congruence.
  - intros H. destruct (Qle_bool b a) eqn:E; [| reflexivity].
    apply Qle_bool_iff in E. exfalso. exact (Qlt_not_le _ _ H E).
Qed.

Lemma Qltb_ge a b : Py.Qltb a b = false <-> b <= a.
Proof.
  unfold Py.Qltb. rewrite negb_false_iff. apply Qle_bool_iff.
Qed.

Lemma Qgtb_gt a b : Py.Qgtb a b = true <-> b < a.
Proof. apply Qltb_lt. Qed.

Lemma Qgtb_le a b : Py.Qgtb a b = false <-> a <= b.
Proof. apply Qltb_ge. Qed.

#[global] Instance Qltb_proper : Proper (Qeq ==> Qeq ==> eq) Py.Qltb.
Proof. intros a a' Ha b b' Hb. unfold Py.Qltb. rewrite Ha, Hb. reflexivity. Qed.

Lemma min_Qmin a b : Py.min a b == Qmin a b.
Proof.
  unfold Py.min. destruct (Py.Qltb b a) eqn:E.
  - apply Qltb_lt in E. symmetry. apply Q.min_r. apply Qlt_le_weak. exact E.
  - apply Qltb_ge in E. symmetry. apply Q.min_l. exact E.
Qed.

Lemma max_Zmax a b : Py.max a b = Z.max a b.
Proof. unfold Py.max. destruct (a <? b)%Z eqn:E; lia. Qed.

(** The floor of 1 keeps the divisor of the speed ratio away from zero. *)
Lemma speed_ratio_defined (attacker_speed defender_speed : Z) :
  Py.truediv attacker_speed (Py.max defender_speed 1)
  = Some (inject_Z attacker_speed / inject_Z (Z.max defender_speed 1)).
Proof.
  unfold Py.truediv, Py.float. rewrite max_Zmax.
  destruct (Z.max defender_speed 1 =? 0)%Z eqn:E; [lia | reflexivity].
Qed.

Lemma calculate_base_power_formula (p : Pokemon) : calculate_base_power p = base_power_of p.
Proof. reflexivity. Qed.

(** The per-side score always exists and is the formula's value. *)
Lemma calculate_battle_score_total attacker defender attacker_types defender_types :
  exists score log_entries,
    calculate_battle_score attacker defender attacker_types defender_types
    = Some (score, log_entries)
    /\ score == side_score (base_power_of attacker)
                  (get_type_effectiveness attacker_types defender_types)
                  (speed attacker) (speed defender).
Proof.
  unfold calculate_battle_score.
  rewrite speed_ratio_defined. cbn [mbind option_bind].
  eexists _, _. split; [reflexivity |].
  unfold side_score. rewrite min_Qmin.
  rewrite calculate_base_power_formula. ring.
Qed.

Lemma scored_total attacker defender : exists score, scored attacker defender score.
Proof.
  destruct (calculate_battle_score_total attacker defender (parse_types (types attacker))
              (parse_types (types defender))) as (score & log & H & _).
  exists score, log. exact H.
Qed.

Lemma scored_functional attacker defender s s' :
  scored attacker defender s -> scored attacker defender s' -> s = s'.
Proof. intros [l H] [l' H']. congruence. Qed.

(** C2: the per-side score is
    base x 0.5 + effectiveness x base x 0.3 + min(speed ratio, 2.0) x base x 0.2
    with the documented base power; the attributes 35, 55, 40, 50, 50, 90
    give base power 51.25; and the speed ratio never divides by zero, also
    for a defender of speed 0. *)
Theorem battle_score_formula (attacker defender : Pokemon)
    (attacker_types defender_types : list string) :
  (exists score log_entries,
      calculate_battle_score attacker defender attacker_types defender_types
      = Some (score, log_entries)
      /\ score == side_score (base_power_of attacker)
                    (get_type_effectiveness attacker_types defender_types)
                    (speed attacker) (speed defender))
  /\ calculate_base_power attacker == base_power_of attacker
  /\ (forall id pokeapi_id name types sprite_url,
        calculate_base_power
          (mkPokemon id pokeapi_id name 35 55 40 50 50 90 types sprite_url) == 51.25)
  /\ Py.truediv (speed attacker) (Py.max (speed defender) 1)
     = Some (inject_Z (speed attacker) / inject_Z (Z.max (speed defender) 1))
  /\ (forall attacker_speed : Z,
        Py.truediv attacker_speed (Py.max 0 1) = Some (inject_Z attacker_speed / 1)).
Proof.
  split; [apply calculate_battle_score_total |].
  split; [rewrite calculate_base_power_formula; reflexivity |].
  split; [intros; vm_compute; reflexivity |].
  split; [apply speed_ratio_defined |].
  intros attacker_speed. apply speed_ratio_defined.
Qed.

(** *** Contest resolution *)

(** What [execute_battle] returns, in terms of the two scores. *)
Lemma execute_battle_result p1 p2 s1 s2 :
  scored p1 p2 s1 -> scored p2 p1 s2 ->
  exists r,
    execute_battle p1 p2 = Some r
    /\ is_draw r = draw_policy s1 s2
    /\ winner r = (if draw_policy s1 s2 then None
                   else if Py.Qgtb s1 s2 then Some p1 else Some p2)
    /\ pokemon1_score r = Py.round2 s1
    /\ pokemon2_score r = Py.round2 s2.
Proof.
  intros [l1 H1] [l2 H2]. unfold execute_battle.
  rewrite H1. cbn [mbind option_bind]. rewrite H2. cbn [mbind option_bind].
  destruct (draw_policy s1 s2); [| destruct (Py.Qgtb s1 s2)];
    eexists; (split; [reflexivity |]); repeat split.
Qed.

(** Contest resolution never fails. *)
Lemma execute_battle_total p1 p2 : exists r, execute_battle p1 p2 = Some r.
Proof.
  destruct (scored_total p1 p2) as [s1 H1], (scored_total p2 p1) as [s2 H2].
  destruct (execute_battle_result p1 p2 s1 s2 H1 H2) as (r & Hr & _).
  exists r. exact Hr.
Qed.

Lemma draw_policy_declared s1 s2 : draw_policy s1 s2 = true <-> draw_declared s1 s2.
Proof.
  unfold draw_policy, draw_declared. cbv zeta.
  destruct (Py.Qgtb ((s1 + s2) / 2) 0) eqn:E.
  - apply Qgtb_gt in E. rewrite Qltb_lt. split.
    + intros H. left. split; assumption.
    + intros [[_ H] | [H _]]; [exact H | contradiction].
  - apply Qgtb_le in E. rewrite Qeq_bool_iff. split.
    + intros H. right. split; [| exact H]. apply Qle_not_lt. exact E.
    + intros [[H _] | [_ H]]; [| exact H].
      exfalso. exact (Qlt_not_le _ _ H E).
Qed.

(** Equal scores are always a draw. *)
Lemma draw_policy_equal s1 s2 : s1 == s2 -> draw_policy s1 s2 = true.
Proof.
  intros Heq. unfold draw_policy. cbv zeta.
  destruct (Py.Qgtb ((s1 + s2) / 2) 0) eqn:E.
  - apply Qgtb_gt in E. apply Qltb_lt.
    assert (Hz : s1 - s2 == 0) by (rewrite Heq; ring).
    rewrite Hz. change (Qabs 0) with 0. lra.
  - apply Qeq_bool_iff. exact Heq.
Qed.

Lemma not_draw_distinct s1 s2 : draw_policy s1 s2 = false -> ~ s1 == s2.
Proof.
  intros Hd Heq. rewrite (draw_policy_equal _ _ Heq) in Hd. discriminate.
Qed.

Lemma draw_policy_sym s1 s2 : draw_policy s2 s1 = draw_policy s1 s2.
Proof.
  unfold draw_policy, Py.Qgtb. cbv zeta.
  rewrite (Qabs_Qminus s2 s1), (Qeq_bool_comm s2 s1).
  assert (Havg : (s2 + s1) / 2 == (s1 + s2) / 2) by (unfold Qdiv; ring).
  assert (H1 : Py.Qltb 0 ((s2 + s1) / 2) = Py.Qltb 0 ((s1 + s2) / 2))
    by (rewrite Havg; reflexivity).
  assert (H2 : Py.Qltb (Qabs (s1 - s2)) ((s2 + s1) / 2 * 0.01)
               = Py.Qltb (Qabs (s1 - s2)) ((s1 + s2) / 2 * 0.01))
    by (rewrite Havg; reflexivity).
  rewrite H1, H2. reflexivity.
Qed.

(** When the scores differ, exactly one of the two strict comparisons holds. *)
Lemma Qgtb_antisym s1 s2 : ~ s1 == s2 -> Py.Qgtb s2 s1 = negb (Py.Qgtb s1 s2).
Proof.
  intros Hne. destruct (Py.Qgtb s1 s2) eqn:E1, (Py.Qgtb s2 s1) eqn:E2; try reflexivity.
  - apply Qgtb_gt in E1, E2. exfalso. lra.
  - apply Qgtb_le in E1, E2. exfalso. apply Hne. lra.
Qed.

(** The resolution in exact arithmetic: with s1 and s2 the two per-side
    scores of the rational model, the contest is a draw exactly when the
    draw policy, read over the rationals, declares one; a draw has no
    winner; otherwise the two scores differ and the winner is the
    participant whose score is strictly higher.  The resolution of the
    program, whose scores and whose policy are binary64 floats, is the
    subject of [RoundedProps]. *)
Theorem draw_policy_resolution (pokemon1 pokemon2 : Pokemon) :
  exists s1 s2 r,
    scored pokemon1 pokemon2 s1 /\ scored pokemon2 pokemon1 s2
    /\ execute_battle pokemon1 pokemon2 = Some r
    /\ (is_draw r = true <-> draw_declared s1 s2)
    /\ ((is_draw r = true /\ winner r = None)
        \/ (is_draw r = false /\ ~ s1 == s2
            /\ ((s2 < s1 /\ winner r = Some pokemon1)
                \/ (s1 < s2 /\ winner r = Some pokemon2)))).
Proof.
  destruct (scored_total pokemon1 pokemon2) as [s1 H1].
  destruct (scored_total pokemon2 pokemon1) as [s2 H2].
  destruct (execute_battle_result _ _ _ _ H1 H2) as (r & Hr & Hd & Hw & _).
  exists s1, s2, r. repeat (split; [assumption |]).
  split; [rewrite Hd; apply draw_policy_declared |].
  rewrite Hd, Hw. destruct (draw_policy s1 s2) eqn:Ed; [left; split; reflexivity |].
  right. pose proof (not_draw_distinct _ _ Ed) as Hne.
  split; [reflexivity |]. split; [exact Hne |].
  destruct (Py.Qgtb s1 s2) eqn:Eg.
  - left. split; [apply Qgtb_gt; exact Eg | reflexivity].
  - right. split; [| reflexivity].
    apply Qgtb_le in Eg. apply Qle_lt_or_eq in Eg as [Hlt | Heq]; [exact Hlt |].
    contradiction.
Qed.

(** C5: resolving (b, a) mirrors resolving (a, b): the two returned scores
    swap places, the draw flag is the same and so is the winner. *)
Theorem execute_battle_mirror (a b : Pokemon) :
  exists r r',
    execute_battle a b = Some r /\ execute_battle b a = Some r'
    /\ pokemon1_score r' = pokemon2_score r
    /\ pokemon2_score r' = pokemon1_score r
    /\ is_draw r' = is_draw r
    /\ winner r' = winner r.
Proof.
  destruct (scored_total a b) as [s1 H1], (scored_total b a) as [s2 H2].
  destruct (execute_battle_result _ _ _ _ H1 H2) as (r & Hr & Hd & Hw & Hp1 & Hp2).
  destruct (execute_battle_result _ _ _ _ H2 H1) as (r' & Hr' & Hd' & Hw' & Hp1' & Hp2').
  exists r, r'. repeat (split; [congruence |]).
  rewrite draw_policy_sym in Hd', Hw'.
  split; [congruence |].
  rewrite Hw, Hw'. destruct (draw_policy s1 s2) eqn:Ed; [reflexivity |].
  rewrite (Qgtb_antisym _ _ (not_draw_distinct _ _ Ed)).
  destruct (Py.Qgtb s1 s2); reflexivity.
Qed.

(** Two participants with the same attributes and the same categories:
    names, identifiers and images may differ. *)
Lemma identical_scores a b s1 s2 :
  hp a = hp b -> attack a = attack b -> defense a = defense b ->
  special_attack a = special_attack b -> special_defense a = special_defense b ->
  speed a = speed b -> parse_types (types a) = parse_types (types b) ->
  scored a b s1 -> scored b a s2 -> s1 == s2.
Proof.
  intros Hhp Hat Hde Hsa Hsd Hsp Hty [l1 H1] [l2 H2].
  destruct (calculate_battle_score_total a b (parse_types (types a)) (parse_types (types b)))
    as (x1 & k1 & E1 & F1).
  destruct (calculate_battle_score_total b a (parse_types (types b)) (parse_types (types a)))
    as (x2 & k2 & E2 & F2).
  assert (x1 = s1) by congruence. assert (x2 = s2) by congruence. subst x1 x2.
  rewrite F1, F2. unfold base_power_of.
  rewrite Hhp, Hat, Hde, Hsa, Hsd, Hsp, Hty. reflexivity.
Qed.

(** C6: participants with equal values of all six attributes and equal
    category lists resolve to a draw with no winner. *)
Theorem identical_participants_draw (a b : Pokemon) :
  hp a = hp b -> attack a = attack b -> defense a = defense b ->
  special_attack a = special_attack b -> special_defense a = special_defense b ->
  speed a = speed b -> parse_types (types a) = parse_types (types b) ->
  exists r, execute_battle a b = Some r /\ is_draw r = true /\ winner r = None.
Proof.
  intros Hhp Hat Hde Hsa Hsd Hsp Hty.
  destruct (scored_total a b) as [s1 H1], (scored_total b a) as [s2 H2].
  destruct (execute_battle_result _ _ _ _ H1 H2) as (r & Hr & Hd & Hw & _).
  exists r. split; [exact Hr |].
  rewrite Hd, Hw.
  rewrite (draw_policy_equal s1 s2)
    by (eapply identical_scores; eassumption).
  split; reflexivity.
Qed.

Lemma identical_participants_draw_witness :
  parse_types (types Fixtures.pikachu) = parse_types (types Fixtures.pikachu2)
  /\ exists r, execute_battle Fixtures.pikachu Fixtures.pikachu2 = Some r
               /\ is_draw r = true /\ winner r = None.
Proof.
  split; [reflexivity |].
  apply (identical_participants_draw Fixtures.pikachu Fixtures.pikachu2); reflexivity.
Defined.

(** The end-to-end example of the specification: the stronger record
    (78/84/78/109/85/100) beats the weaker one (35/55/40/50/50/90). *)
Example strong_beats_weak :
  exists r, execute_battle Fixtures.charizard Fixtures.pikachu = Some r
            /\ is_draw r = false /\ winner r = Some Fixtures.charizard
            /\ pokemon2_score r < pokemon1_score r.
Proof. eexists. split; [vm_compute; reflexivity |]. repeat split. Qed.

(** *** Empty category lists *)

Lemma lstrip_all_space s : all_space s = true -> Py.lstrip s = EmptyString.
Proof.
  induction s as [| c s IH]; simpl; [reflexivity |].
  intros H. apply andb_true_iff in H as [Hc Hs]. rewrite Hc. exact (IH Hs).
Qed.

Lemma strip_all_space s : all_space s = true -> Py.strip s = EmptyString.
Proof. intros H. unfold Py.strip. rewrite (lstrip_all_space s H). reflexivity. Qed.

Lemma split_blank s :
  blank s = true -> Forall (fun field => all_space field = true) (Py.split "," s).
Proof.
  induction s as [| c s IH]; simpl.
  - intros _. repeat constructor.
  - intros H. apply andb_true_iff in H as [Hc Hs]. specialize (IH Hs).
    destruct (Ascii.eqb c ",") eqn:Ec.
    + constructor; [reflexivity | exact IH].
    + simpl in Hc. destruct (Py.split "," s) as [| h t] eqn:Es.
      * repeat constructor. simpl. rewrite Hc. reflexivity.
      * inversion IH as [| ? ? Hh Ht]; subst. constructor; [| exact Ht].
        simpl. rewrite Hc. exact Hh.
Qed.

Lemma parse_fields_blank (fields : list string) :
  Forall (fun field => all_space field = true) fields ->
  map Py.strip (filter (fun t => Py.truthy (Py.strip t) = true) fields) = [].
Proof.
  induction 1 as [| f fs Hf _ IH]; [reflexivity |].
  rewrite filter_cons_False; [exact IH |].
  rewrite (strip_all_space f Hf). simpl. discriminate.
Qed.

Lemma effectiveness_no_attacker defender_types :
  get_type_effectiveness [] defender_types = 1.
Proof. reflexivity. Qed.

Lemma effectiveness_no_defender attacker_types :
  get_type_effectiveness attacker_types [] = 1.
Proof.
  unfold get_type_effectiveness. generalize 1 as multiplier.
  induction attacker_types as [| a l IH]; intros multiplier; [reflexivity |].
  cbn [fold_left]. apply IH.
Qed.

(** C10: with an empty attacker or defender category list the combined
    effectiveness is exactly 1.0; a category string that is empty or made
    of delimiters and whitespace only parses to no labels; and contest
    resolution returns a result for every pair of records. *)
Theorem empty_categories_neutral :
  (forall defender_types, get_type_effectiveness [] defender_types = 1)
  /\ (forall attacker_types, get_type_effectiveness attacker_types [] = 1)
  /\ parse_types "" = []
  /\ (forall s, blank s = true -> parse_types s = [])
  /\ (forall pokemon1 pokemon2, exists r, execute_battle pokemon1 pokemon2 = Some r).
Proof.
  split; [exact effectiveness_no_attacker |].
  split; [exact effectiveness_no_defender |].
  split; [reflexivity |].
  split; [| exact execute_battle_total].
  intros s Hs. unfold parse_types. apply parse_fields_blank, split_blank, Hs.
Qed.

Lemma empty_categories_neutral_witness :
  blank " , ," = true /\ parse_types " , ," = []
  /\ get_type_effectiveness (parse_types " , ,") ["ghost"] = 1
  /\ get_type_effectiveness ["normal"] (parse_types " , ,") = 1.
Proof.
  destruct empty_categories_neutral as (Hatk & Hdef & _ & Hblank & _).
  split; [reflexivity |].
  split; [apply Hblank; reflexivity |].
  split; [rewrite (Hblank " , ,") by reflexivity; apply Hatk |].
  rewrite (Hblank " , ,") by reflexivity. apply Hdef.
Defined.

End Scoring.

(** ** The rational model against binary64 arithmetic *)

Module Binary64Props.

Import Battle Spec Binary64.

Lemma valid_in_all_categories l : valid_categories l -> In l all_categories.
Proof.
  intros [Hlen Hknown]. unfold all_categories. apply in_or_app.
  destruct l as [| a [| b [| c l]]]; cbn in Hlen; try lia.
  - left. apply (in_map (fun a => [a]) known_types a). inversion Hknown; assumption.
  - right. apply in_flat_map. exists a.
    inversion Hknown as [| ? ? Ha Hb]; subst. split; [exact Ha |].
    apply (in_map (fun b => [a; b]) known_types b). inversion Hb; assumption.
Qed.

(** On category sequences of one or two known labels the loops give the
    same float in binary64 arithmetic as in the rationals: no product of
    chart entries is rounded. *)
Lemma effectiveness_exact attacker_types defender_types :
  valid_categories attacker_types -> valid_categories defender_types ->
  PrimFloat.eqb (get_type_effectiveness64 attacker_types defender_types)
    (of_entry (Qred (get_type_effectiveness attacker_types defender_types))) = true.
Proof.
  intros Ha Hd. apply valid_in_all_categories in Ha, Hd.
  assert (Hall : forallb (fun a => forallb (fun d =>
            PrimFloat.eqb (get_type_effectiveness64 a d)
              (of_entry (Qred (get_type_effectiveness a d))))
            all_categories) all_categories = true) by (vm_compute; reflexivity).
  rewrite List.forallb_forall in Hall. specialize (Hall _ Ha).
  rewrite List.forallb_forall in Hall. exact (Hall _ Hd).
Qed.

(** The matchup that exceeds 4, in binary64 arithmetic. *)
Example sixteen_in_binary64 :
  get_type_effectiveness64 ["ground"; "fighting"] ["steel"; "rock"] = 16%float.
Proof. vm_compute. reflexivity. Qed.

(** The base power of the example record, in binary64 arithmetic. *)
Example base_power_in_binary64 :
  calculate_base_power64 Fixtures.pikachu = 51.25%float.
Proof. vm_compute. reflexivity. Qed.

(** On the records of the test suite the outcome in binary64 arithmetic is
    the outcome of the rational model. *)
Example fixtures_agree :
  Forall (fun '(a, b) =>
            exists r, execute_battle a b = Some r
                      /\ (execute_battle64 a b).1.2 = is_draw r
                      /\ (execute_battle64 a b).2 = winner r)
    [(Fixtures.pikachu, Fixtures.charizard); (Fixtures.charizard, Fixtures.pikachu);
     (Fixtures.charizard, Fixtures.blastoise); (Fixtures.blastoise, Fixtures.pikachu);
     (Fixtures.pikachu, Fixtures.pikachu2)].
Proof.
  repeat constructor; (eexists; split; [vm_compute; reflexivity |]);
    split; vm_compute; reflexivity.
Qed.

End Binary64Props.

(** ** Properties of the cache *)

Module CacheProps.

Import Json Exceptions World PokeAPI CacheOps.
Local Open Scope Q_scope.

(** Unfolding of the effect monad. *)
Ltac run_M :=
  unfold mbind, M_bind, bind, mret, M_ret, ret, lift, raise,
    get_cache, put_cache, time_time, http_get in *.

(** A lookup of an absent key returns nothing and leaves the world as it is. *)
Lemma get_absent key w :
  _cache (cache w) !! key = None -> PokemonCache_get key w = (inr None, w).
Proof. intros H. unfold PokemonCache_get. run_M. rewrite H. reflexivity. Qed.

(** A lookup past the expiry instant returns nothing and evicts the entry. *)
Lemma get_expired key w entry :
  _cache (cache w) !! key = Some entry ->
  expires_at entry < now w ->
  PokemonCache_get key w
  = (inr None,
     with_cache {| _cache := delete key (_cache (cache w)); ttl := ttl (cache w) |}
       (emit ClockRead w)).
Proof.
  intros H Hexp. unfold PokemonCache_get. run_M. rewrite H.
  apply Scoring.Qgtb_gt in Hexp. unfold now in Hexp. cbn [cache emit]. rewrite Hexp.
  reflexivity.
Qed.

(** A lookup up to the expiry instant returns the stored payload. *)
Lemma get_live key w entry :
  _cache (cache w) !! key = Some entry ->
  now w <= expires_at entry ->
  PokemonCache_get key w = (inr (Some (data entry)), emit ClockRead w).
Proof.
  intros H Hlive. unfold PokemonCache_get. run_M. rewrite H.
  apply Scoring.Qgtb_le in Hlive. unfold now in Hlive. cbn [cache emit]. rewrite Hlive.
  reflexivity.
Qed.

(** [set] stores the payload with the expiry instant "now + ttl". *)
Lemma set_entry key value w :
  _cache (cache (PokemonCache_set key value w).2) !! key
  = Some {| data := value; expires_at := now w + inject_Z (ttl (cache w)) |}.
Proof. unfold PokemonCache_set. run_M. cbn. apply lookup_insert_eq. Qed.

Lemma clear_empty key w : _cache (cache (PokemonCache_clear w).2) !! key = None.
Proof. unfold PokemonCache_clear. run_M. cbn. apply lookup_empty. Qed.

(** A call that is not a [set] for [key] cannot make [key] readable. *)
Lemma run_op_absent key op w :
  sets_key key op = false ->
  _cache (cache w) !! key = None ->
  _cache (cache (run_op op w)) !! key = None.
Proof.
  intros Hop Habs. destruct op as [k | k v |]; cbn [run_op].
  - unfold PokemonCache_get. run_M.
    destruct (_cache (cache w) !! k) as [entry |] eqn:Ek; [| exact Habs].
    cbn [cache emit].
    destruct (Py.Qgtb _ _); cbn; [| exact Habs].
    rewrite lookup_delete. case_decide; [reflexivity | exact Habs].
  - cbn in Hop. apply String.eqb_neq in Hop.
    unfold PokemonCache_set. run_M. cbn.
    rewrite lookup_insert_ne by exact Hop. exact Habs.
  - apply clear_empty.
Qed.

Lemma run_ops_absent key ops :
  forallb (fun op => negb (sets_key key op)) ops = true ->
  forall w, _cache (cache w) !! key = None ->
            _cache (cache (run_ops ops w)) !! key = None.
Proof.
  induction ops as [| op ops IH]; intros Hops w Habs; [exact Habs |].
  cbn [forallb] in Hops. apply andb_true_iff in Hops as [Hop Hops].
  apply negb_true_iff in Hop.
  unfold run_ops. cbn [fold_left]. apply (IH Hops).
  apply run_op_absent; assumption.
Qed.

(** C9: a lookup performed after the entry's time-to-live has elapsed
    returns no data and evicts the entry; and after [clear], whatever calls
    follow, a lookup of a key returns nothing as long as no [set] for that
    key has been made. *)
Theorem cache_expiry_and_clear :
  (forall key value w w',
      _cache (cache w') !! key = _cache (cache (PokemonCache_set key value w).2) !! key ->
      inject_Z (ttl (cache w)) < now w' - now w ->
      (PokemonCache_get key w').1 = inr None
      /\ _cache (cache (PokemonCache_get key w').2) !! key = None)
  /\ (forall key w entry,
        _cache (cache w) !! key = Some entry ->
        expires_at entry < now w ->
        (PokemonCache_get key w).1 = inr None
        /\ _cache (cache (PokemonCache_get key w).2) !! key = None)
  /\ (forall key ops w,
        forallb (fun op => negb (sets_key key op)) ops = true ->
        (PokemonCache_get key (run_ops ops (PokemonCache_clear w).2)).1 = inr None).
Proof.
  assert (Hexp : forall key w entry,
             _cache (cache w) !! key = Some entry ->
             expires_at entry < now w ->
             (PokemonCache_get key w).1 = inr None
             /\ _cache (cache (PokemonCache_get key w).2) !! key = None).
  { intros key w entry H Hlt. rewrite (get_expired key w entry H Hlt).
    split; [reflexivity |]. cbn. apply lookup_delete_eq. }
  split; [| split; [exact Hexp |]].
  - intros key value w w' Hsame Hlt. rewrite set_entry in Hsame.
    apply (Hexp key w' _ Hsame). cbn [expires_at]. lra.
  - intros key ops w Hops.
    rewrite get_absent; [reflexivity |].
    apply run_ops_absent; [exact Hops | apply clear_empty].
Qed.

(** The expiry test of the suite: time-to-live 1, read 1.1 seconds later;
    and a cleared cache that is then used for another key. *)
Lemma cache_expiry_and_clear_witness :
  let w := Fixtures.fresh_world 1 in
  let w' := (PokemonCache_set "pikachu" (JDict [("name", JStr "pikachu")]) w).2 in
  inject_Z (ttl (cache w)) < now w' - now w
  /\ (PokemonCache_get "pikachu" w').1 = inr None
  /\ _cache (cache (PokemonCache_get "pikachu" w').2) !! "pikachu" = None
  /\ (PokemonCache_get "pikachu"
        (run_ops [OpGet "pikachu"; OpSet "charizard" JNull; OpGet "charizard"]
           (PokemonCache_clear w').2)).1 = inr None.
Proof.
  intros w w'. destruct cache_expiry_and_clear as (Httl & _ & Hclear).
  assert (Hlt : inject_Z (ttl (cache w)) < now w' - now w) by reflexivity.
  split; [exact Hlt |].
  destruct (Httl "pikachu" (JDict [("name", JStr "pikachu")]) w w' eq_refl Hlt) as [H1 H2].
  split; [exact H1 |]. split; [exact H2 |].
  apply Hclear. reflexivity.
Defined.

End CacheProps.

(** ** Properties of the external fetch *)

Module FetchProps.

Import Json Exceptions World PokeAPI Fetch.
Import CacheProps.

(** *** Parsing raises no domain error *)

Lemma not_domain_ret {A : Type} (a : A) : not_domain (mret a : R A).
Proof. intros e H. discriminate H. Qed.

Lemma not_domain_bind {A B : Type} (m : R A) (k : A -> R B) :
  not_domain m -> (forall a, not_domain (k a)) -> not_domain (m ≫= k).
Proof.
  intros Hm Hk e. destruct m as [x | a]; cbn.
  - intros H. apply (Hm e). congruence.
  - apply Hk.
Qed.

Lemma getitem_not_domain j k : not_domain (getitem j k).
Proof.
  intros e. unfold getitem. destruct j; try discriminate.
  destruct (assoc_last d k); discriminate.
Qed.

Lemma iter_not_domain j : not_domain (iter j).
Proof. intros e. destruct j; discriminate. Qed.

Lemma dict_get_not_domain j k : not_domain (dict_get j k).
Proof. intros e. destruct j; discriminate. Qed.

Lemma validate_int_not_domain lax j : not_domain (validate_int lax j).
Proof. intros e. destruct j; cbn; try destruct (lax _); discriminate. Qed.

Lemma validate_str_not_domain j : not_domain (validate_str j).
Proof. intros e. destruct j; discriminate. Qed.

Lemma validate_opt_str_not_domain j : not_domain (validate_opt_str j).
Proof. intros e. destruct j; discriminate. Qed.

Lemma stat_item_not_domain stat : not_domain (stat_item stat).
Proof.
  unfold stat_item.
  repeat (apply not_domain_bind; [apply getitem_not_domain | intros ?]).
  intros e. destruct a0; discriminate.
Qed.

Lemma stats_of_not_domain items : not_domain (stats_of items).
Proof.
  induction items as [| stat rest IH]; cbn [stats_of]; [apply not_domain_ret |].
  apply not_domain_bind; [apply stat_item_not_domain | intros kv].
  apply not_domain_bind; [exact IH | intros kvs]. apply not_domain_ret.
Qed.

Lemma types_of_not_domain items : not_domain (types_of items).
Proof.
  induction items as [| t rest IH]; cbn [types_of]; [apply not_domain_ret |].
  apply not_domain_bind.
  { unfold type_item. apply not_domain_bind; [apply getitem_not_domain |].
    intros ?. apply getitem_not_domain. }
  intros n. apply not_domain_bind; [exact IH | intros ns]. apply not_domain_ret.
Qed.

Lemma strings_of_not_domain items : not_domain (strings_of items).
Proof.
  induction items as [| j rest IH]; cbn [strings_of]; [apply not_domain_ret |].
  destruct j; try (intros e; discriminate).
  apply not_domain_bind; [exact IH | intros ss]. apply not_domain_ret.
Qed.

Lemma sprite_of_not_domain data : not_domain (sprite_of data).
Proof.
  unfold sprite_of. apply not_domain_bind; [apply dict_get_not_domain | intros sprites].
  destruct (json_truthy sprites); [apply dict_get_not_domain | apply not_domain_ret].
Qed.

(** Whatever the payload, parsing raises none of the domain errors. *)
Lemma parse_not_domain lax data : not_domain (_parse_pokemon_data lax data).
Proof.
  unfold _parse_pokemon_data.
  repeat first
    [ apply not_domain_ret
    | apply not_domain_bind;
      [ first [ apply getitem_not_domain | apply iter_not_domain
              | apply not_domain_bind;
                [apply getitem_not_domain | intros ?; apply iter_not_domain]
              | apply stats_of_not_domain | apply types_of_not_domain
              | apply strings_of_not_domain | apply sprite_of_not_domain
              | apply validate_int_not_domain | apply validate_str_not_domain
              | apply validate_opt_str_not_domain ]
      | intros ? ] ].
Qed.

(** *** The outcomes of [get_pokemon] *)

Lemma cache_get_returns key w : exists o w', PokemonCache_get key w = (inr o, w').
Proof.
  unfold PokemonCache_get. run_M.
  destruct (_cache (cache w) !! key) as [entry |]; [| eauto].
  cbn [cache emit]. destruct (Py.Qgtb _ _); eauto.
Qed.

(** The cache lookup leaves the environment alone. *)
Lemma cache_get_coerce key w : coerce_int (PokemonCache_get key w).2 = coerce_int w.
Proof.
  unfold PokemonCache_get. run_M.
  destruct (_cache (cache w) !! key) as [entry |]; [| reflexivity].
  cbn [cache emit]. destruct (Py.Qgtb _ _); reflexivity.
Qed.

(** [get_pokemon], step by step. *)
Lemma get_pokemon_run self name w :
  get_pokemon self name w
  = match PokemonCache_get (normalize name) w with
    | (inl e, w1) => (inl e, w1)
    | (inr cached_data, w1) =>
        match not_none cached_data with
        | Some cached => (_parse_pokemon_data (coerce_int w) cached, w1)
        | None =>
            let url := base_url self ++ "/pokemon/" ++ normalize name in
            let w2 := emit (HttpGet url) w1 in
            match remote w1 (length (events w1)) url with
            | Response status_code body =>
                if status_code =? 404 then (inl (Domain (PokemonNotFoundError name)), w2)
                else if is_success status_code then
                  match body with
                  | None => (inl JSONDecodeError, w2)
                  | Some data =>
                      (_parse_pokemon_data (coerce_int w) data,
                       (PokemonCache_set (normalize name) data w2).2)
                  end
                else (inl (Domain (PokeAPIError ("HTTP error " ++ Py.str_int status_code))),
                      w2)
            | RequestError text => (inl (Domain (PokeAPIError text)), w2)
            | Malformed text => (inl (InvalidURL text), w1)
            end
        end
    end.
Proof.
  unfold get_pokemon. fold (normalize name).
  unfold mbind at 1. unfold M_bind, bind.
  pose proof (cache_get_coerce (normalize name) w) as Hc.
  destruct (PokemonCache_get (normalize name) w) as [[e | cached_data] w1]; [reflexivity |].
  cbn [snd] in Hc.
  destruct (not_none cached_data) as [cached |].
  { unfold parse, get_coerce_int. run_M. rewrite Hc. reflexivity. }
  unfold mbind at 1. unfold M_bind, bind, http_get. cbv zeta.
  destruct (remote w1 (length (events w1)) _) as [status_code body | text | text];
    [| reflexivity | reflexivity].
  destruct (status_code =? 404) eqn:E404; [reflexivity |].
  destruct (is_success status_code); [| reflexivity].
  destruct body as [data |]; [| reflexivity].
  unfold parse, get_coerce_int, PokemonCache_set. run_M. cbn. rewrite Hc. reflexivity.
Qed.

(** With a live cache entry that is not [null] nothing is requested: the
    entry is parsed. *)
Lemma get_pokemon_cached self name w cached_data cached w1 :
  PokemonCache_get (normalize name) w = (inr cached_data, w1) ->
  not_none cached_data = Some cached ->
  get_pokemon self name w = (_parse_pokemon_data (coerce_int w) cached, w1).
Proof. intros H Hnn. rewrite get_pokemon_run, H, Hnn. reflexivity. Qed.

(** Without one, the client's answer decides. *)
Lemma get_pokemon_fetched self name w cached_data w1 :
  PokemonCache_get (normalize name) w = (inr cached_data, w1) ->
  not_none cached_data = None ->
  get_pokemon self name w
  = let url := base_url self ++ "/pokemon/" ++ normalize name in
    let w2 := emit (HttpGet url) w1 in
    match remote w1 (length (events w1)) url with
    | Response status_code body =>
        if status_code =? 404 then (inl (Domain (PokemonNotFoundError name)), w2)
        else if is_success status_code then
          match body with
          | None => (inl JSONDecodeError, w2)
          | Some data =>
              (_parse_pokemon_data (coerce_int w) data,
               (PokemonCache_set (normalize name) data w2).2)
          end
        else (inl (Domain (PokeAPIError ("HTTP error " ++ Py.str_int status_code))), w2)
    | RequestError text => (inl (Domain (PokeAPIError text)), w2)
    | Malformed text => (inl (InvalidURL text), w1)
    end.
Proof. intros H Hnn. rewrite get_pokemon_run, H, Hnn. reflexivity. Qed.

(** The request goes to [{base_url}/pokemon/{normalized name}]; the world
    of the fixtures answers an empty object for "missingno". *)
Lemma missingno_answer :
  source_answer Fixtures.client "missingno" (Fixtures.fresh_world 3600)
  = Some (Response 200 (Some (JDict []))).
Proof. reflexivity. Qed.

(** C7, as stated, fails: when the source answers success (200) with the
    empty object, [get_pokemon] raises [KeyError], which is neither of the
    two domain errors. *)
Lemma get_pokemon_raises_key_error :
  source_answer Fixtures.client "missingno" (Fixtures.fresh_world 3600)
  = Some (Response 200 (Some (JDict [])))
  /\ (get_pokemon Fixtures.client "missingno" (Fixtures.fresh_world 3600)).1
     = inl (KeyError "stats")
  /\ (forall e, (get_pokemon Fixtures.client "missingno" (Fixtures.fresh_world 3600)).1
                <> inl (Domain e)).
Proof.
  split; [reflexivity |]. split; [reflexivity |]. intros e H. discriminate H.
Qed.

Lemma message_nonempty e : message e <> "".
Proof. destruct e; discriminate. Qed.

(** Leaves of the case analysis below. *)
Ltac fetch_leaf :=
  repeat match goal with
    | |- _ /\ _ => split
    | |- _ <-> _ => split
    | |- forall _, _ => intro
    | H : exists _, _ |- _ => destruct H
    | H : _ /\ _ |- _ => destruct H
    | H : _ \/ _ |- _ => destruct H
    | H : inl _ = inl _ |- _ => injection H as H; try subst
    | H : Domain _ = Domain _ |- _ => injection H as H; try subst
    | H : Some _ = Some _ |- _ => injection H as H; try subst
    | H : match ?b with Some _ => _ | None => _ end = Some _ |- _ => destruct b
    | H : (_ =? _) = true |- _ => apply Z.eqb_eq in H; try subst
    | H : (_ =? _) = false |- _ => apply Z.eqb_neq in H
    end;
  try congruence; try discriminate.

(** C7 (amended): [get_pokemon] raises the not-found error, carrying the
    requested name, exactly when the source answers 404; it raises the
    source-unavailable error exactly when the source gives another
    non-success response or the transport fails; each domain error it
    raises is one of these two and carries a non-empty message and the
    fixed code of its kind; it raises no other error kind unless the HTTP
    client refuses the URL (then it raises the client's [InvalidURL]), the
    body of a success response is not JSON, or the payload (that body, or
    the live cache entry) does not parse into a record; and a payload that
    parses is returned.  A request is made whenever the cache has no live
    entry for the normalized name or the live entry holds [null]. *)
Theorem get_pokemon_errors (self : PokeAPIClient) (name : string) (w : World) :
  ((exists n, (get_pokemon self name w).1 = inl (Domain (PokemonNotFoundError n)))
   <-> (exists body, source_answer self name w = Some (Response 404 body)))
  /\ (forall n, (get_pokemon self name w).1 = inl (Domain (PokemonNotFoundError n)) ->
                n = name)
  /\ ((exists m, (get_pokemon self name w).1 = inl (Domain (PokeAPIError m)))
      <-> ((exists status_code body,
               source_answer self name w = Some (Response status_code body)
               /\ status_code <> 404 /\ is_success status_code = false)
           \/ (exists text, source_answer self name w = Some (RequestError text))))
  /\ (forall e, (get_pokemon self name w).1 = inl (Domain e) ->
                ((exists n, e = PokemonNotFoundError n) \/ (exists m, e = PokeAPIError m))
                /\ (error_code e = Some "POKEMON_NOT_FOUND"
                    \/ error_code e = Some "POKEAPI_ERROR")
                /\ message e <> "")
  /\ (forall text, source_answer self name w = Some (Malformed text) ->
                   (get_pokemon self name w).1 = inl (InvalidURL text))
  /\ (forall x, (get_pokemon self name w).1 = inl x ->
                (exists e, x = Domain e)
                \/ (exists text, x = InvalidURL text
                                 /\ source_answer self name w = Some (Malformed text))
                \/ (x = JSONDecodeError
                    /\ exists status_code,
                         source_answer self name w = Some (Response status_code None)
                         /\ is_success status_code = true)
                \/ (exists data, payload self name w = Some data
                                 /\ _parse_pokemon_data (coerce_int w) data = inl x))
  /\ (forall data record,
        payload self name w = Some data ->
        _parse_pokemon_data (coerce_int w) data = inr record ->
        (get_pokemon self name w).1 = inr record).
Proof.
  unfold source_answer, payload. rewrite get_pokemon_run.
  destruct (cache_get_returns (normalize name) w) as (o & w1 & Hget). rewrite Hget.
  destruct (not_none o) as [cached |].
  - cbn [fst].
    pose proof (parse_not_domain (coerce_int w) cached) as Hnd.
    repeat split; intros; fetch_leaf;
      try (exfalso; eapply Hnd; eassumption).
    right; right; right. eauto.
  - cbv zeta.
    destruct (remote w1 (length (events w1)) _) as [status_code body | text | text].
    + destruct (status_code =? 404) eqn:E404.
      * cbn [fst negb andb]. apply Z.eqb_eq in E404. subst status_code.
        repeat split; intros; fetch_leaf; eauto using message_nonempty.
      * destruct (is_success status_code) eqn:Esucc; [destruct body as [data |] |];
          cbn [fst negb andb].
        -- pose proof (parse_not_domain (coerce_int w) data) as Hnd.
           repeat split; intros; fetch_leaf;
             try (exfalso; eapply Hnd; eassumption).
           right; right; right. eauto.
        -- repeat split; intros; fetch_leaf. right; right; left. eauto.
        -- repeat split; intros; fetch_leaf; eauto 8 using message_nonempty.
    + cbn [fst]. repeat split; intros; fetch_leaf; eauto 8 using message_nonempty.
    + cbn [fst]. repeat split; intros; fetch_leaf. right; left. eauto.
Qed.

(** An unknown name: the source answers 404 and the error carries the
    name as requested; a name with a control character: the client
    refuses the URL. *)
Lemma get_pokemon_errors_witness :
  (get_pokemon Fixtures.client " Fakemon" (Fixtures.fresh_world 3600)).1
  = inl (Domain (PokemonNotFoundError " Fakemon"))
  /\ (exists body,
        source_answer Fixtures.client " Fakemon" (Fixtures.fresh_world 3600)
        = Some (Response 404 body))
  /\ (error_code (PokemonNotFoundError " Fakemon") = Some "POKEMON_NOT_FOUND"
      \/ error_code (PokemonNotFoundError " Fakemon") = Some "POKEAPI_ERROR")
  /\ message (PokemonNotFoundError " Fakemon") <> ""
  /\ (get_pokemon Fixtures.client (String "007" "pikachu") (Fixtures.fresh_world 3600)).1
     = inl (InvalidURL "Invalid non-printable ASCII character in URL").
Proof.
  destruct (get_pokemon_errors Fixtures.client " Fakemon" (Fixtures.fresh_world 3600))
    as (Hnf & _ & _ & Hdom & _).
  assert (Hr : (get_pokemon Fixtures.client " Fakemon" (Fixtures.fresh_world 3600)).1
               = inl (Domain (PokemonNotFoundError " Fakemon"))) by reflexivity.
  split; [exact Hr |].
  split; [apply Hnf; exists " Fakemon"; exact Hr |].
  destruct (Hdom _ Hr) as (_ & Hcode & Hmsg).
  split; [exact Hcode |]. split; [exact Hmsg |].
  apply (get_pokemon_errors Fixtures.client (String "007" "pikachu")
           (Fixtures.fresh_world 3600)).
  reflexivity.
Defined.

End FetchProps.

(** ** Properties of the orchestration *)

Module ServicesProps.

Import Json Exceptions World PokeAPI Fetch.
Import CacheProps.

Lemma never_same_bind {A B : Type} (m : M A) (k : A -> M B) :
  never_same m -> (forall a, never_same (k a)) -> never_same (m ≫= k).
Proof.
  intros Hm Hk w n. unfold mbind, M_bind, bind.
  destruct (m w) as [[e | a] w1] eqn:E.
  - specialize (Hm w n). rewrite E in Hm. cbn [fst] in *.
    intros H. apply Hm. congruence.
  - apply Hk.
Qed.

Lemma never_same_ret {A : Type} (a : A) : never_same (mret a : M A).
Proof. intros w n H. discriminate H. Qed.

Lemma select_never_same name : never_same (Services.select_pokemon_by_name name).
Proof.
  intros w n. unfold Services.select_pokemon_by_name, Services.scalar_one_or_none. cbn [fst].
  destruct (filter _ _) as [| row [| row' rows]]; discriminate.
Qed.

Lemma get_pokemon_never_same self name : never_same (get_pokemon self name).
Proof.
  intros w n. rewrite FetchProps.get_pokemon_run.
  destruct (FetchProps.cache_get_returns (normalize name) w) as (o & w1 & Hget).
  rewrite Hget.
  destruct (not_none o) as [cached |].
  - exact (FetchProps.parse_not_domain _ cached _).
  - cbv zeta.
    destruct (remote w1 _ _) as [status_code body | text | text]; [| discriminate ..].
    destruct (status_code =? 404); [discriminate |].
    destruct (is_success status_code); [| discriminate].
    destruct body as [data |]; [| discriminate].
    exact (FetchProps.parse_not_domain _ data _).
Qed.

Lemma create_never_same data : never_same (Services._create_pokemon data).
Proof.
  intros w n. unfold Services._create_pokemon. cbv zeta.
  destruct (existsb _ _); discriminate.
Qed.

Lemma get_or_fetch_never_same self name :
  never_same (Services.get_or_fetch_pokemon self name).
Proof.
  unfold Services.get_or_fetch_pokemon.
  apply never_same_bind; [apply select_never_same | intros [pokemon |]].
  - apply never_same_ret.
  - apply never_same_bind; [apply get_pokemon_never_same | intros pokemon_data].
    apply never_same_bind; [apply create_never_same | intros pokemon].
    apply never_same_ret.
Qed.

(** C8: with two names that are equal after normalization the
    orchestration raises the identical-participants error and the world is
    exactly as before (no store query, no request, no clock reading, same
    store and cache); with two names that differ after normalization it
    never raises that error. *)
Theorem identical_names_rejected_first (self : PokeAPIClient)
    (pokemon1_name pokemon2_name : string) (w : World) :
  (normalize pokemon1_name = normalize pokemon2_name ->
   Services.BattleService_execute_battle self pokemon1_name pokemon2_name w
   = (inl (Domain (SamePokemonError (normalize pokemon1_name))), w))
  /\ (normalize pokemon1_name <> normalize pokemon2_name ->
      forall n, (Services.BattleService_execute_battle self pokemon1_name pokemon2_name w).1
                <> inl (Domain (SamePokemonError n))).
Proof.
  unfold Services.BattleService_execute_battle. fold (normalize pokemon1_name) (normalize pokemon2_name).
  split.
  - intros Heq. apply String.eqb_eq in Heq. rewrite Heq. reflexivity.
  - intros Hne n. apply String.eqb_neq in Hne. rewrite Hne.
    revert w n. change (never_same
      (pokemon1 ← Services.get_or_fetch_pokemon self (normalize pokemon1_name);
       pokemon2 ← Services.get_or_fetch_pokemon self (normalize pokemon2_name);
       result ← lift (match Battle.execute_battle pokemon1 pokemon2 with
                      | Some result => inr result
                      | None => inl ZeroDivisionError
                      end);
       Services.save_battle pokemon1 pokemon2 result)).
    apply never_same_bind; [apply get_or_fetch_never_same | intros pokemon1].
    apply never_same_bind; [apply get_or_fetch_never_same | intros pokemon2].
    apply never_same_bind.
    + intros w n. unfold lift. cbn [fst].
      destruct (Battle.execute_battle pokemon1 pokemon2); discriminate.
    + intros result w n. unfold Services.save_battle. discriminate.
Qed.

Lemma identical_names_rejected_first_witness :
  normalize " PikaChu" = normalize "pikachu  "
  /\ Services.BattleService_execute_battle Fixtures.client " PikaChu" "pikachu  "
       (Fixtures.fresh_world 3600)
     = (inl (Domain (SamePokemonError "pikachu")), Fixtures.fresh_world 3600)
  /\ normalize "pikachu" <> normalize "charizard"
  /\ (Services.BattleService_execute_battle Fixtures.client "pikachu" "charizard"
        (Fixtures.fresh_world 3600)).1
     <> inl (Domain (SamePokemonError "pikachu")).
Proof.
  split; [reflexivity |].
  split.
  - apply (identical_names_rejected_first Fixtures.client " PikaChu" "pikachu  "
             (Fixtures.fresh_world 3600)).
    reflexivity.
  - assert (Hne : normalize "pikachu" <> normalize "charizard") by discriminate.
    split; [exact Hne |].
    apply (identical_names_rejected_first Fixtures.client "pikachu" "charizard"
             (Fixtures.fresh_world 3600)).
    exact Hne.
Defined.

(** *** The outcome invariant *)

Lemma bind_returns {A B : Type} (m : M A) (k : A -> M B) w b w' :
  (m ≫= k) w = (inr b, w') ->
  exists a w1, m w = (inr a, w1) /\ k a w1 = (inr b, w').
Proof.
  unfold mbind, M_bind, bind. destruct (m w) as [[e | a] w1]; [discriminate |].
  intros H. exists a, w1. split; [reflexivity | exact H].
Qed.

(** The invariant on the result of the resolution. *)
Lemma result_invariant pokemon1 pokemon2 :
  exists r,
    Battle.execute_battle pokemon1 pokemon2 = Some r
    /\ (Battle.winner r = None <-> Battle.is_draw r = true)
    /\ (Battle.winner r = None \/ Battle.winner r = Some pokemon1
        \/ Battle.winner r = Some pokemon2).
Proof.
  destruct (Scoring.scored_total pokemon1 pokemon2) as [s1 H1].
  destruct (Scoring.scored_total pokemon2 pokemon1) as [s2 H2].
  destruct (Scoring.execute_battle_result _ _ _ _ H1 H2) as (r & Hr & Hd & Hw & _).
  exists r. split; [exact Hr |]. rewrite Hd, Hw.
  destruct (Battle.draw_policy s1 s2); [| destruct (Py.Qgtb s1 s2)];
    (split; [split; intros H; (reflexivity || discriminate H) | auto]).
Qed.

(** The invariant carried over to the outcome record. *)
Lemma make_battle_invariant battle_id pokemon1 pokemon2 r :
  (Battle.winner r = None <-> Battle.is_draw r = true) ->
  (winner_id (Services.make_battle battle_id pokemon1 pokemon2 r) = None
   <-> Battle.is_draw r = true)
  /\ winner (Services.make_battle battle_id pokemon1 pokemon2 r) = Battle.winner r.
Proof.
  intros Hinv. split; [| reflexivity].
  rewrite <- Hinv. unfold Services.make_battle. cbn [winner_id].
  destruct (Battle.winner r); split; intros H; (reflexivity || discriminate H).
Qed.

(** C4: the result of a resolution has no winner exactly when it is a
    draw, and a winner is one of the two participants; the outcome record
    built from it has no winner reference exactly when it is a draw; and
    every outcome that the orchestration returns is such a record, stored
    as the newest row of the outcomes table. *)
Theorem outcome_invariant :
  (forall pokemon1 pokemon2,
      exists r,
        Battle.execute_battle pokemon1 pokemon2 = Some r
        /\ (Battle.winner r = None <-> Battle.is_draw r = true)
        /\ (Battle.winner r = None \/ Battle.winner r = Some pokemon1
            \/ Battle.winner r = Some pokemon2)
        /\ forall battle_id,
             (winner_id (Services.make_battle battle_id pokemon1 pokemon2 r) = None
              <-> Battle.is_draw r = true)
             /\ winner (Services.make_battle battle_id pokemon1 pokemon2 r)
                = Battle.winner r)
  /\ (forall self pokemon1_name pokemon2_name w b w',
        Services.BattleService_execute_battle self pokemon1_name pokemon2_name w = (inr b, w') ->
        exists r,
          Battle.execute_battle (pokemon1 b) (pokemon2 b) = Some r
          /\ b = Services.make_battle (battle_id b) (pokemon1 b) (pokemon2 b) r
          /\ (winner_id b = None <-> Battle.is_draw r = true)
          /\ (winner b = None <-> Battle.is_draw r = true)
          /\ (winner b = None \/ winner b = Some (pokemon1 b)
              \/ winner b = Some (pokemon2 b))
          /\ last (battle_rows (db w')) = Some b).
Proof.
  split.
  - intros pokemon1 pokemon2.
    destruct (result_invariant pokemon1 pokemon2) as (r & Hr & Hinv & Hwin).
    exists r. repeat (split; [assumption |]).
    intros battle_id. apply make_battle_invariant. exact Hinv.
  - intros self pokemon1_name pokemon2_name w b w' Hrun.
    unfold Services.BattleService_execute_battle in Hrun.
    destruct (String.eqb _ _); [discriminate Hrun |].
    apply bind_returns in Hrun as (p1 & w1 & _ & Hrun).
    apply bind_returns in Hrun as (p2 & w2 & _ & Hrun).
    apply bind_returns in Hrun as (r & w3 & Hres & Hsave).
    unfold lift in Hres.
    destruct (result_invariant p1 p2) as (r' & Hr & Hinv & Hwin).
    rewrite Hr in Hres. injection Hres as -> ->.
    unfold Services.save_battle in Hsave. injection Hsave as <- <-.
    exists r. cbn [pokemon1 pokemon2 battle_id Services.make_battle winner winner_id].
    split; [exact Hr |]. split; [reflexivity |].
    split; [apply (make_battle_invariant 0 p1 p2 r Hinv) |].
    split; [exact Hinv |]. split; [exact Hwin |].
    cbn [db with_db battle_rows]. apply last_snoc.
Qed.

(** Pikachu against Charizard in a fresh process: both are fetched, the
    contest has a winner, and the stored outcome refers to it. *)
Lemma outcome_invariant_witness :
  exists b w',
    Services.BattleService_execute_battle Fixtures.client "Pikachu" "charizard "
      (Fixtures.fresh_world 3600) = (inr b, w')
    /\ Battle.name (pokemon1 b) = "pikachu" /\ Battle.name (pokemon2 b) = "charizard"
    /\ winner_id b = Some (Battle.id (pokemon2 b))
    /\ (winner b = None \/ winner b = Some (pokemon1 b) \/ winner b = Some (pokemon2 b))
    /\ last (battle_rows (db w')) = Some b.
Proof.
  destruct outcome_invariant as [_ Hservice].
  destruct (Services.BattleService_execute_battle Fixtures.client "Pikachu" "charizard "
              (Fixtures.fresh_world 3600)) as [[e | b] w'] eqn:Hrun;
    [vm_compute in Hrun; discriminate Hrun |].
  destruct (Hservice _ _ _ _ _ _ Hrun) as (r & _ & _ & _ & _ & Hwin & Hlast).
  exists b, w'. split; [reflexivity |].
  assert (Hb : (inr b : exn + Battle) = inr b) by reflexivity.
  revert Hb Hwin Hlast.
  vm_compute in Hrun. injection Hrun as <- <-.
  intros _ Hwin Hlast.
  split; [reflexivity |]. split; [reflexivity |]. split; [reflexivity |].
  split; [exact Hwin | exact Hlast].
Defined.

End ServicesProps.

(** ** Further properties of the combined effectiveness *)

Module TypeChartMore.

Import Battle Spec ChartSpec.
Local Open Scope Q_scope.

Lemma product_app l1 l2 : product (l1 ++ l2) == product l1 * product l2.
Proof.
  induction l1 as [| x l1 IH]; cbn [app product fold_right].
  - fold (product l2). ring.
  - fold (product (l1 ++ l2)) (product l1). rewrite IH. ring.
Qed.

Lemma inner_loop_scale (f : string -> Q) defender_types multiplier :
  fold_left (fun multiplier def_type => multiplier * f def_type) defender_types multiplier
  == multiplier * product (map f defender_types).
Proof.
  revert multiplier. induction defender_types as [| d ds IH]; intros multiplier;
    cbn [fold_left map product fold_right].
  - ring.
  - fold (product (map f ds)). rewrite IH. ring.
Qed.

Lemma effectiveness_from_scale multiplier attacker_types defender_types :
  effectiveness_from multiplier attacker_types defender_types
  == multiplier
     * product (map (fun a => product (map (chart_entry a) defender_types)) attacker_types).
Proof.
  unfold effectiveness_from. revert multiplier.
  induction attacker_types as [| a l IH]; intros multiplier;
    cbn [fold_left map product fold_right].
  - ring.
  - rewrite IH. cbv zeta. rewrite inner_loop_scale.
    change (type_mult (default ∅ (TYPE_CHART !! a))) with (chart_entry a).
    fold (product (map (fun a => product (map (chart_entry a) defender_types)) l)).
    ring.
Qed.

(** Row by row, the combined effectiveness is the product of the table's
    entries. *)
Lemma effectiveness_rows attacker_types defender_types :
  get_type_effectiveness attacker_types defender_types
  == product (map (fun a => product (map (chart_entry a) defender_types)) attacker_types).
Proof.
  change (get_type_effectiveness attacker_types defender_types)
    with (effectiveness_from 1 attacker_types defender_types).
  rewrite effectiveness_from_scale. ring.
Qed.

Lemma rows_cross_product attacker_types defender_types :
  product (map (fun a => product (map (chart_entry a) defender_types)) attacker_types)
  == product (map (fun p => chart_entry p.1 p.2) (list_prod attacker_types defender_types)).
Proof.
  induction attacker_types as [| a l IH]; cbn [map product fold_right list_prod].
  - reflexivity.
  - rewrite map_app, product_app, map_map. cbn [fst snd].
    fold (product (map (fun a => product (map (chart_entry a) defender_types)) l)).
    rewrite IH. reflexivity.
Qed.

Lemma effectiveness_single a d : get_type_effectiveness [a] [d] == chart_entry a d.
Proof. rewrite effectiveness_rows. cbn [map product fold_right]. ring. Qed.

Lemma effectiveness_app_attackers a1 a2 d :
  get_type_effectiveness (a1 ++ a2) d
  == get_type_effectiveness a1 d * get_type_effectiveness a2 d.
Proof. rewrite !effectiveness_rows, map_app, product_app. reflexivity. Qed.

Lemma product_pointwise {A : Type} (f g : A -> Q) l :
  product (map (fun x => f x * g x) l) == product (map f l) * product (map g l).
Proof.
  induction l as [| x l IH]; cbn [map product fold_right].
  - ring.
  - fold (product (map (fun x => f x * g x) l)) (product (map f l)) (product (map g l)).
    rewrite IH. ring.
Qed.

Lemma product_ext {A : Type} (f g : A -> Q) l :
  (forall x, f x == g x) -> product (map f l) == product (map g l).
Proof.
  intros H. induction l as [| x l IH]; cbn [map product fold_right]; [reflexivity |].
  fold (product (map f l)) (product (map g l)). rewrite IH, H. reflexivity.
Qed.

Lemma effectiveness_app_defenders a d1 d2 :
  get_type_effectiveness a (d1 ++ d2)
  == get_type_effectiveness a d1 * get_type_effectiveness a d2.
Proof.
  rewrite !effectiveness_rows.
  rewrite <- product_pointwise. apply product_ext. intros x.
  rewrite map_app, product_app. reflexivity.
Qed.

(** X1: the combined effectiveness is the product of the table entries
    (1 where the table has none) over the full cross product of the two
    label lists; it is therefore multiplicative in the attacker's list
    and in the defender's list. *)
Theorem effectiveness_cross_product (attacker_types defender_types more : list string) :
  get_type_effectiveness attacker_types defender_types
  == product (map (fun p => chart_entry p.1 p.2) (list_prod attacker_types defender_types))
  /\ get_type_effectiveness (attacker_types ++ more) defender_types
     == get_type_effectiveness attacker_types defender_types
        * get_type_effectiveness more defender_types
  /\ get_type_effectiveness attacker_types (defender_types ++ more)
     == get_type_effectiveness attacker_types defender_types
        * get_type_effectiveness attacker_types more.
Proof.
  split; [rewrite effectiveness_rows; apply rows_cross_product |].
  split; [apply effectiveness_app_attackers | apply effectiveness_app_defenders].
Qed.

Lemma effectiveness_cons_attacker a l d :
  get_type_effectiveness (a :: l) d
  == get_type_effectiveness [a] d * get_type_effectiveness l d.
Proof. apply (effectiveness_app_attackers [a] l d). Qed.

Lemma effectiveness_cons_defender a x d :
  get_type_effectiveness a (x :: d)
  == get_type_effectiveness a [x] * get_type_effectiveness a d.
Proof. apply (effectiveness_app_defenders a [x] d). Qed.

(** X2: the order of the labels does not matter: reordering the
    attacker's list or the defender's list gives the same effectiveness. *)
Theorem effectiveness_order_independent (a a' d d' : list string) :
  a ≡ₚ a' -> d ≡ₚ d' -> get_type_effectiveness a d == get_type_effectiveness a' d'.
Proof.
  intros Ha Hd. transitivity (get_type_effectiveness a' d).
  - clear Hd. induction Ha as [| x l l' _ IH | x y l | l l' l'' _ IH1 _ IH2].
    + reflexivity.
    + rewrite (effectiveness_cons_attacker x l), (effectiveness_cons_attacker x l'), IH.
      reflexivity.
    + rewrite (effectiveness_cons_attacker y (x :: l) d),
        (effectiveness_cons_attacker x l d),
        (effectiveness_cons_attacker x (y :: l) d),
        (effectiveness_cons_attacker y l d). ring.
    + rewrite IH1. exact IH2.
  - clear Ha. induction Hd as [| x l l' _ IH | x y l | l l' l'' _ IH1 _ IH2].
    + reflexivity.
    + rewrite (effectiveness_cons_defender a' x l), (effectiveness_cons_defender a' x l'), IH.
      reflexivity.
    + rewrite (effectiveness_cons_defender a' y (x :: l)),
        (effectiveness_cons_defender a' x l),
        (effectiveness_cons_defender a' x (y :: l)),
        (effectiveness_cons_defender a' y l). ring.
    + rewrite IH1. exact IH2.
Qed.

Lemma effectiveness_order_independent_witness :
  ["fire"; "flying"] ≡ₚ ["flying"; "fire"] /\ ["rock"; "steel"] ≡ₚ ["steel"; "rock"]
  /\ get_type_effectiveness ["fire"; "flying"] ["rock"; "steel"]
     == get_type_effectiveness ["flying"; "fire"] ["steel"; "rock"].
Proof.
  assert (H1 : ["fire"; "flying"] ≡ₚ ["flying"; "fire"]) by apply perm_swap.
  assert (H2 : ["rock"; "steel"] ≡ₚ ["steel"; "rock"]) by apply perm_swap.
  split; [exact H1 |]. split; [exact H2 |].
  exact (effectiveness_order_independent _ _ _ _ H1 H2).
Defined.

(** *** Labels outside the chart *)

Lemma known_In t : known t = true <-> In t known_types.
Proof.
  unfold known. rewrite List.existsb_exists. split.
  - intros (x & Hx & Heq). apply String.eqb_eq in Heq. subst x. exact Hx.
  - intros H. exists t. split; [exact H | apply String.eqb_refl].
Qed.

(** Every defending label of the table is one of the 18. *)
Lemma chart_defenders_known :
  map_Forall (fun _ (m : gmap string Q) => map_Forall (fun d _ => known d = true) m)
    TYPE_CHART.
Proof. compute_done. Qed.

Lemma chart_entry_unknown_attacker a d : known a = false -> chart_entry a d = 1.
Proof.
  intros Hk. unfold chart_entry, type_mult.
  assert (Hnone : TYPE_CHART !! a = None).
  { apply not_elem_of_dom. rewrite TypeChart.chart_domain, elem_of_list_to_set.
    rewrite list_elem_of_In, <- known_In. congruence. }
  rewrite Hnone. simpl. rewrite lookup_empty. reflexivity.
Qed.

Lemma chart_entry_unknown_defender a d : known d = false -> chart_entry a d = 1.
Proof.
  intros Hk. unfold chart_entry, type_mult.
  destruct (TYPE_CHART !! a) as [m |] eqn:Ha; simpl.
  - destruct (m !! d) as [q |] eqn:Hd; [| reflexivity].
    pose proof (chart_defenders_known _ _ Ha _ _ Hd) as Hknown. cbv beta in Hknown.
    congruence.
  - rewrite lookup_empty. reflexivity.
Qed.

Lemma product_ones {A : Type} (f : A -> Q) l :
  (forall x, f x == 1) -> product (map f l) == 1.
Proof.
  intros H. induction l as [| x l IH]; cbn [map product fold_right]; [reflexivity |].
  fold (product (map f l)). rewrite IH, H. reflexivity.
Qed.

Lemma effectiveness_unknown_attacker a d :
  known a = false -> get_type_effectiveness [a] d == 1.
Proof.
  intros Hk. rewrite effectiveness_rows. cbn [map product fold_right].
  fold (product (map (chart_entry a) d)).
  rewrite product_ones; [reflexivity |].
  intros x. rewrite (chart_entry_unknown_attacker a x Hk). reflexivity.
Qed.

Lemma effectiveness_unknown_defender a d :
  known d = false -> get_type_effectiveness a [d] == 1.
Proof.
  intros Hk. rewrite effectiveness_rows. apply product_ones.
  intros x. cbn [map product fold_right].
  rewrite (chart_entry_unknown_defender x d Hk). reflexivity.
Qed.

Lemma effectiveness_filter_defenders a d :
  get_type_effectiveness a d == get_type_effectiveness a (List.filter known d).
Proof.
  induction d as [| x d IH]; cbn [List.filter]; [reflexivity |].
  rewrite effectiveness_cons_defender, IH.
  destruct (known x) eqn:Hk.
  - rewrite (effectiveness_cons_defender a x (List.filter known d)). reflexivity.
  - rewrite (effectiveness_unknown_defender a x Hk). ring.
Qed.

(** X3: labels outside the 18 of the chart contribute nothing, as
    attacker's or as defender's labels: dropping them from both lists
    leaves the effectiveness as it is. *)
Theorem unknown_labels_ignored (attacker_types defender_types : list string) :
  get_type_effectiveness attacker_types defender_types
  == get_type_effectiveness (List.filter known attacker_types)
       (List.filter known defender_types).
Proof.
  induction attacker_types as [| a l IH]; cbn [List.filter].
  - reflexivity.
  - rewrite effectiveness_cons_attacker, IH.
    destruct (known a) eqn:Hk.
    + rewrite (effectiveness_cons_attacker a (List.filter known l)).
      rewrite (effectiveness_filter_defenders [a] defender_types). reflexivity.
    + rewrite (effectiveness_unknown_attacker a defender_types Hk). ring.
Qed.

(** *** Immunity *)

Lemma product_zero_iff l : product l == 0 <-> exists x, In x l /\ x == 0.
Proof.
  induction l as [| x l IH]; cbn [product fold_right].
  - split; [intros H; discriminate H | intros (x & [] & _)].
  - fold (product l). split.
    + intros H. apply Qmult_integral in H as [H | H].
      * exists x. split; [left; reflexivity | exact H].
      * apply IH in H as (y & Hy & H0). exists y. split; [right; exact Hy | exact H0].
    + intros (y & [<- | Hy] & H0).
      * rewrite H0. ring.
      * assert (Hl : product l == 0) by (apply IH; eauto). rewrite Hl. ring.
Qed.

(** X4: the combined effectiveness is 0 exactly when some attacker's
    label meets a defender's label against which the table gives 0. *)
Theorem effectiveness_zero_iff_immune (attacker_types defender_types : list string) :
  get_type_effectiveness attacker_types defender_types == 0
  <-> exists a d, In a attacker_types /\ In d defender_types /\ chart_entry a d == 0.
Proof.
  rewrite effectiveness_rows, rows_cross_product, product_zero_iff. split.
  - intros (x & Hin & H0). apply List.in_map_iff in Hin as ([a d] & <- & Hin).
    apply in_prod_iff in Hin as [Ha Hd]. exists a, d. auto.
  - intros (a & d & Ha & Hd & H0). exists (chart_entry a d). split; [| exact H0].
    apply List.in_map_iff. exists (a, d). split; [reflexivity |].
    apply in_prod_iff. auto.
Qed.

End TypeChartMore.

(** ** Properties of the text helpers: normalization and category lists *)

Module TextProps.

Import Battle Spec TextSpec Fetch.

Lemma lstrip_fixed c s : Py.is_space c = false -> Py.lstrip (String c s) = String c s.
Proof. intros H. cbn [Py.lstrip]. rewrite H. reflexivity. Qed.

(** [lstrip] gives the empty string or a string that starts with a
    character that is not whitespace. *)
Lemma lstrip_head s :
  Py.lstrip s = EmptyString
  \/ exists c s', Py.lstrip s = String c s' /\ Py.is_space c = false.
Proof.
  induction s as [| c s IH]; cbn [Py.lstrip]; [left; reflexivity |].
  destruct (Py.is_space c) eqn:E; [exact IH |]. right. eauto.
Qed.

Lemma rstrip_idempotent s : Py.rstrip (Py.rstrip s) = Py.rstrip s.
Proof.
  induction s as [| c s IH]; [reflexivity |]. cbn [Py.rstrip].
  destruct (Py.rstrip s) as [| c' r] eqn:Er.
  - destruct (Py.is_space c) eqn:E; [reflexivity |].
    cbn [Py.rstrip]. rewrite E. reflexivity.
  - cbn [Py.rstrip] in *. rewrite IH. reflexivity.
Qed.

Lemma rstrip_head c s :
  Py.is_space c = false -> exists r, Py.rstrip (String c s) = String c r.
Proof.
  intros E. cbn [Py.rstrip]. destruct (Py.rstrip s); [rewrite E |]; eauto.
Qed.

Lemma strip_idempotent s : Py.strip (Py.strip s) = Py.strip s.
Proof.
  unfold Py.strip.
  destruct (lstrip_head s) as [H | (c & s' & H & E)]; rewrite H.
  - reflexivity.
  - destruct (rstrip_head c s' E) as [r Hr].
    rewrite Hr, (lstrip_fixed c r E), <- Hr. apply rstrip_idempotent.
Qed.

Lemma lower_char_idempotent c : Py.lower_char (Py.lower_char c) = Py.lower_char c.
Proof. destruct c as [[] [] [] [] [] [] [] []]; reflexivity. Qed.

Lemma lower_char_space c : Py.is_space (Py.lower_char c) = Py.is_space c.
Proof. destruct c as [[] [] [] [] [] [] [] []]; reflexivity. Qed.

Lemma lower_idempotent s : Py.lower (Py.lower s) = Py.lower s.
Proof.
  unfold Py.lower. induction s as [| c s IH]; cbn [Py.map_chars]; [reflexivity |].
  rewrite lower_char_idempotent, IH. reflexivity.
Qed.

Lemma lower_lstrip s : Py.lower (Py.lstrip s) = Py.lstrip (Py.lower s).
Proof.
  unfold Py.lower. induction s as [| c s IH]; [reflexivity |].
  cbn [Py.lstrip Py.map_chars]. rewrite lower_char_space.
  destruct (Py.is_space c); [exact IH | reflexivity].
Qed.

Lemma lower_rstrip s : Py.lower (Py.rstrip s) = Py.rstrip (Py.lower s).
Proof.
  unfold Py.lower. induction s as [| c s IH]; [reflexivity |].
  cbn [Py.rstrip Py.map_chars]. rewrite <- IH, lower_char_space.
  destruct (Py.rstrip s); cbn [Py.map_chars]; [destruct (Py.is_space c) |]; reflexivity.
Qed.

Lemma lower_strip s : Py.lower (Py.strip s) = Py.strip (Py.lower s).
Proof. unfold Py.strip. rewrite lower_rstrip, lower_lstrip. reflexivity. Qed.

Lemma normalize_idempotent name : normalize (normalize name) = normalize name.
Proof.
  unfold normalize. rewrite lower_strip, lower_idempotent. apply strip_idempotent.
Qed.

(** X5: a lookup does not depend on the case of the name or on
    whitespace around it: names with the same normalized form give the
    same result and the same world, in the store-backed lookup and in the
    orchestration of a contest. *)
Theorem lookup_ignores_case_and_spaces (self : PokeAPI.PokeAPIClient)
    (name name' other other' : string) (w : World.World) :
  normalize name = normalize name' ->
  normalize other = normalize other' ->
  Services.get_or_fetch_pokemon self name w = Services.get_or_fetch_pokemon self name' w
  /\ Services.BattleService_execute_battle self name other w
     = Services.BattleService_execute_battle self name' other' w
  /\ Services.get_or_fetch_pokemon self (normalize name) w
     = Services.get_or_fetch_pokemon self name w.
Proof.
  intros Hn Ho. unfold Services.get_or_fetch_pokemon, Services.BattleService_execute_battle.
  fold (normalize name) (normalize name') (normalize other) (normalize other').
  fold (normalize (normalize name)).
  rewrite Hn, Ho, normalize_idempotent. repeat split; reflexivity.
Qed.

Lemma lookup_ignores_case_and_spaces_witness :
  normalize "PIKACHU" = normalize " pikachu" /\ normalize "Charizard " = normalize "charizard"
  /\ Services.BattleService_execute_battle Fixtures.client "PIKACHU" "Charizard "
       (Fixtures.fresh_world 3600)
     = Services.BattleService_execute_battle Fixtures.client " pikachu" "charizard"
         (Fixtures.fresh_world 3600).
Proof.
  assert (H1 : normalize "PIKACHU" = normalize " pikachu") by reflexivity.
  assert (H2 : normalize "Charizard " = normalize "charizard") by reflexivity.
  split; [exact H1 |]. split; [exact H2 |].
  exact (proj1 (proj2 (lookup_ignores_case_and_spaces Fixtures.client _ _ _ _
                         (Fixtures.fresh_world 3600) H1 H2))).
Defined.

(** *** Category lists *)

Lemma has_char_lstrip c s : has_char c s = false -> has_char c (Py.lstrip s) = false.
Proof.
  induction s as [| c' s IH]; [reflexivity |]. cbn [Py.lstrip has_char].
  intros H. apply orb_false_iff in H as [H1 H2].
  destruct (Py.is_space c'); [exact (IH H2) |]. cbn [has_char]. rewrite H1. exact H2.
Qed.

Lemma has_char_rstrip c s : has_char c s = false -> has_char c (Py.rstrip s) = false.
Proof.
  induction s as [| c' s IH]; [reflexivity |]. cbn [Py.rstrip has_char].
  intros H. apply orb_false_iff in H as [H1 H2]. specialize (IH H2).
  destruct (Py.rstrip s) as [| c'' r].
  - destruct (Py.is_space c'); [reflexivity |]. cbn [has_char]. rewrite H1. reflexivity.
  - cbn [has_char] in *. rewrite H1. exact IH.
Qed.

Lemma has_char_strip c s : has_char c s = false -> has_char c (Py.strip s) = false.
Proof. intros H. apply has_char_rstrip, has_char_lstrip, H. Qed.

Lemma split_fields_no_sep sep s :
  Forall (fun field => has_char sep field = false) (Py.split sep s).
Proof.
  induction s as [| c s IH]; cbn [Py.split]; [repeat constructor |].
  destruct (Ascii.eqb c sep) eqn:E; [constructor; [reflexivity | exact IH] |].
  destruct (Py.split sep s) as [| h t]; [repeat constructor; cbn; rewrite E; reflexivity |].
  inversion IH as [| ? ? Hh Ht]; subst. constructor; [| exact Ht].
  cbn [has_char]. rewrite E. exact Hh.
Qed.

Lemma truthy_nonempty s : Py.truthy s = true <-> s <> EmptyString.
Proof. destruct s; cbn; split; congruence. Qed.

(** X6: every label that [execute_battle] parses out of a stored category
    string is non-empty, has no whitespace around it and contains no
    comma. *)
Theorem parsed_labels_clean (types : string) : Forall clean_label (parse_types types).
Proof.
  unfold parse_types. apply Forall_forall. intros t Ht.
  apply list_elem_of_fmap in Ht as (field & -> & Hfield).
  apply list_elem_of_filter in Hfield as [Htruthy Hin].
  pose proof (split_fields_no_sep "," types) as Hsep.
  rewrite Forall_forall in Hsep. specialize (Hsep _ Hin).
  split; [apply truthy_nonempty; exact Htruthy |].
  split; [apply strip_idempotent | apply has_char_strip; exact Hsep].
Qed.

Lemma split_no_sep sep s : has_char sep s = false -> Py.split sep s = [s].
Proof.
  induction s as [| c s IH]; [reflexivity |]. cbn [has_char Py.split].
  intros H. apply orb_false_iff in H as [H1 H2]. rewrite H1, (IH H2). reflexivity.
Qed.

Lemma split_app_sep sep x rest :
  has_char sep x = false ->
  Py.split sep (x ++ String sep rest) = x :: Py.split sep rest.
Proof.
  induction x as [| c x IH]; simpl.
  - intros _. rewrite Ascii.eqb_refl. reflexivity.
  - intros H. apply orb_false_iff in H as [H1 H2]. rewrite H1, (IH H2). reflexivity.
Qed.

Lemma split_join labels :
  labels <> [] -> Forall (fun t => has_char "," t = false) labels ->
  Py.split "," (Py.join "," labels) = labels.
Proof.
  unfold Py.join. induction labels as [| x l IH]; [congruence |].
  intros _ Hall. inversion Hall as [| ? ? Hx Hl]; subst.
  destruct l as [| y l].
  - apply split_no_sep, Hx.
  - change (String.concat "," (x :: y :: l))
      with (x ++ String "," (String.concat "," (y :: l))).
    rewrite (split_app_sep "," x _ Hx), IH; [reflexivity | discriminate | exact Hl].
Qed.

Lemma parse_clean_fields labels :
  Forall clean_label labels ->
  map Py.strip (filter (fun t => Py.truthy (Py.strip t) = true) labels) = labels.
Proof.
  induction 1 as [| t l (Hne & Hstrip & _) _ IH]; [reflexivity |].
  rewrite filter_cons_True by (rewrite Hstrip; apply truthy_nonempty, Hne).
  cbn [map]. rewrite Hstrip. f_equal. exact IH.
Qed.

(** X7: the category string that the parser of the payload stores (the
    labels joined by commas) is read back by [execute_battle] as the same
    list of labels, whenever the labels are non-empty, have no whitespace
    around them and contain no comma. *)
Theorem categories_round_trip (labels : list string) :
  Forall clean_label labels -> parse_types (Py.join "," labels) = labels.
Proof.
  intros Hclean. unfold parse_types.
  destruct labels as [| x l]; [reflexivity |].
  rewrite split_join; [apply parse_clean_fields, Hclean | discriminate |].
  eapply Forall_impl; [exact Hclean |]. intros t (_ & _ & H). exact H.
Qed.

Lemma categories_round_trip_witness :
  Forall clean_label ["fire"; "flying"]
  /\ parse_types (Py.join "," ["fire"; "flying"]) = ["fire"; "flying"].
Proof.
  assert (H : Forall clean_label ["fire"; "flying"]).
  { repeat constructor; discriminate. }
  split; [exact H | exact (categories_round_trip _ H)].
Defined.

End TextProps.

(** ** Further properties of the scoring formula *)

Module ScoringMore.

Import Battle Spec.
Local Open Scope Q_scope.

Lemma round_half_even_close q : Qabs (inject_Z (Py.round_half_even q) - q) <= 1 # 2.
Proof.
  unfold Py.round_half_even. cbv zeta.
  pose proof (Qfloor_le q) as Hlo. pose proof (Qlt_floor q) as Hhi.
  rewrite inject_Z_plus in Hhi. change (inject_Z 1) with 1 in Hhi.
  destruct (Py.Qltb (q - inject_Z (Qfloor q)) (1 # 2)) eqn:E1.
  - apply Scoring.Qltb_lt in E1. apply Qabs_Qle_condition. split; lra.
  - apply Scoring.Qltb_ge in E1.
    destruct (Py.Qltb (1 # 2) (q - inject_Z (Qfloor q))) eqn:E2.
    + apply Scoring.Qltb_lt in E2. rewrite inject_Z_plus. change (inject_Z 1) with 1.
      apply Qabs_Qle_condition. split; lra.
    + apply Scoring.Qltb_ge in E2.
      destruct (Z.even (Qfloor q)); [| rewrite inject_Z_plus; change (inject_Z 1) with 1];
        apply Qabs_Qle_condition; split; lra.
Qed.

Lemma round2_close x : Qabs (Py.round2 x - x) <= 0.005.
Proof.
  unfold Py.round2. pose proof (round_half_even_close (x * 100)) as H.
  apply Qabs_Qle_condition in H. apply Qabs_Qle_condition.
  set (n := inject_Z (Py.round_half_even (x * 100))) in *.
  unfold Qdiv. change (/ 100) with (1 # 100). split; lra.
Qed.

Lemma round_half_even_monotone x y :
  x <= y -> (Py.round_half_even x <= Py.round_half_even y)%Z.
Proof.
  intros Hxy. pose proof (Qfloor_resp_le x y Hxy) as Hfl.
  assert (Hx : (Qfloor x <= Py.round_half_even x <= Qfloor x + 1)%Z).
  { unfold Py.round_half_even. cbv zeta.
    repeat match goal with |- context [if ?b then _ else _] => destruct b end; lia. }
  assert (Hy : (Qfloor y <= Py.round_half_even y <= Qfloor y + 1)%Z).
  { unfold Py.round_half_even. cbv zeta.
    repeat match goal with |- context [if ?b then _ else _] => destruct b end; lia. }
  destruct (Z.eq_dec (Qfloor x) (Qfloor y)) as [Heq | Hne]; [| lia].
  unfold Py.round_half_even. cbv zeta. rewrite <- Heq.
  destruct (Py.Qltb (x - inject_Z (Qfloor x)) (1 # 2)) eqn:X1.
  - repeat match goal with |- context [if ?b then _ else _] => destruct b end; lia.
  - apply Scoring.Qltb_ge in X1.
    destruct (Py.Qltb (y - inject_Z (Qfloor x)) (1 # 2)) eqn:Y1.
    { apply Scoring.Qltb_lt in Y1. exfalso. lra. }
    destruct (Py.Qltb (1 # 2) (x - inject_Z (Qfloor x))) eqn:X2.
    + apply Scoring.Qltb_lt in X2.
      destruct (Py.Qltb (1 # 2) (y - inject_Z (Qfloor x))) eqn:Y2; [lia |].
      apply Scoring.Qltb_ge in Y2. exfalso. lra.
    + repeat match goal with |- context [if ?b then _ else _] => destruct b end; lia.
Qed.

Lemma round2_monotone x y : x <= y -> Py.round2 x <= Py.round2 y.
Proof.
  intros Hxy. unfold Py.round2, Qdiv. change (/ 100) with (1 # 100).
  assert (H : inject_Z (Py.round_half_even (x * 100))
              <= inject_Z (Py.round_half_even (y * 100))).
  { rewrite <- Zle_Qle. apply round_half_even_monotone. lra. }
  lra.
Qed.

Lemma round2_cents x : Py.round2 x == Py.round_half_even (x * 100) # 100.
Proof.
  unfold Py.round2, Qdiv. change (/ 100) with (1 # 100).
  unfold Qeq, Qmult, inject_Z. cbn [Qnum Qden]. lia.
Qed.

(** *** Base power and score bounds *)

Lemma base_power_as_sum (p : Pokemon) :
  calculate_base_power p
  == (1 # 8) * inject_Z (hp p) + (1 # 8) * inject_Z (attack p)
     + (1 # 8) * inject_Z (special_attack p) + (1 # 8) * inject_Z (defense p)
     + (1 # 8) * inject_Z (special_defense p) + (1 # 4) * inject_Z (speed p).
Proof.
  unfold calculate_base_power, Py.float. cbv zeta. rewrite !inject_Z_plus.
  unfold Qdiv. change (/ 2) with (1 # 2). change (/ 4) with (1 # 4).
  ring.
Qed.

(** X9: base power grows with the attributes: a record that is at least
    as high in each of the six attributes has at least the base power,
    and a strictly higher one if some attribute is strictly higher; with
    non-negative attributes base power is non-negative. *)
Theorem base_power_monotone (a b : Pokemon) :
  (hp a <= hp b)%Z -> (attack a <= attack b)%Z -> (defense a <= defense b)%Z ->
  (special_attack a <= special_attack b)%Z -> (special_defense a <= special_defense b)%Z ->
  (speed a <= speed b)%Z ->
  calculate_base_power a <= calculate_base_power b
  /\ ((hp a + attack a + defense a + special_attack a + special_defense a + speed a
       < hp b + attack b + defense b + special_attack b + special_defense b + speed b)%Z ->
      calculate_base_power a < calculate_base_power b)
  /\ ((0 <= hp a)%Z -> (0 <= attack a)%Z -> (0 <= defense a)%Z ->
      (0 <= special_attack a)%Z -> (0 <= special_defense a)%Z -> (0 <= speed a)%Z ->
      0 <= calculate_base_power a).
Proof.
  intros Hhp Hat Hde Hsa Hsd Hsp. rewrite !base_power_as_sum.
  rewrite Zle_Qle in Hhp, Hat, Hde, Hsa, Hsd, Hsp.
  split; [lra |]. split.
  - intros Hlt. rewrite Zlt_Qlt, !inject_Z_plus in Hlt.
    destruct (Qlt_le_dec (inject_Z (hp a)) (inject_Z (hp b)));
    destruct (Qlt_le_dec (inject_Z (attack a)) (inject_Z (attack b)));
    destruct (Qlt_le_dec (inject_Z (defense a)) (inject_Z (defense b)));
    destruct (Qlt_le_dec (inject_Z (special_attack a)) (inject_Z (special_attack b)));
    destruct (Qlt_le_dec (inject_Z (special_defense a)) (inject_Z (special_defense b)));
    destruct (Qlt_le_dec (inject_Z (speed a)) (inject_Z (speed b))); lra.
  - intros P1 P2 P3 P4 P5 P6. rewrite Zle_Qle in P1, P2, P3, P4, P5, P6.
    change (inject_Z 0) with 0 in *. lra.
Qed.

Lemma base_power_monotone_witness :
  (hp Fixtures.pikachu <= hp Fixtures.charizard)%Z
  /\ calculate_base_power Fixtures.pikachu < calculate_base_power Fixtures.charizard
  /\ 0 <= calculate_base_power Fixtures.pikachu.
Proof.
  destruct (base_power_monotone Fixtures.pikachu Fixtures.charizard) as (_ & Hlt & Hpos);
    try (cbn; lia).
  split; [cbn; lia |]. split; [apply Hlt; cbn; lia | apply Hpos; cbn; lia].
Defined.

Lemma effectiveness_nonneg attacker_types defender_types :
  0 <= get_type_effectiveness attacker_types defender_types.
Proof.
  destruct (TypeChart.effectiveness_pow2 attacker_types defender_types)
    as [H0 | (k & _ & Hk)].
  - rewrite H0. discriminate.
  - rewrite Hk. apply Qpower_0_le. discriminate.
Qed.

Lemma capped_speed_ratio (attacker_speed defender_speed : Z) :
  (0 <= attacker_speed)%Z ->
  0 <= Qmin (inject_Z attacker_speed / inject_Z (Z.max defender_speed 1)) 2.0 <= 2.
Proof.
  intros Hs. split.
  - apply Q.min_glb; [| discriminate].
    apply Qle_shift_div_l.
    + change 0 with (inject_Z 0). rewrite <- Zlt_Qlt. lia.
    + rewrite Qmult_0_l. change 0 with (inject_Z 0). rewrite <- Zle_Qle. exact Hs.
  - apply (Qle_trans _ 2.0); [apply Q.le_min_r | discriminate].
Qed.

(** X10: for an attacker with non-negative attributes, whatever the
    defender, the per-side score is at least half the base power (so it is
    non-negative), and the speed part adds between nothing and 0.4 times
    the base power on top of the base and type parts: the speed ratio is
    capped at 2. *)
Theorem score_bounds (attacker defender : Pokemon)
    (attacker_types defender_types : list string) :
  (0 <= hp attacker)%Z -> (0 <= attack attacker)%Z -> (0 <= defense attacker)%Z ->
  (0 <= special_attack attacker)%Z -> (0 <= special_defense attacker)%Z ->
  (0 <= speed attacker)%Z ->
  exists score log_entries,
    calculate_battle_score attacker defender attacker_types defender_types
    = Some (score, log_entries)
    /\ 0 <= calculate_base_power attacker * 0.5 <= score
    /\ calculate_base_power attacker * 0.5
       + get_type_effectiveness attacker_types defender_types
         * calculate_base_power attacker * 0.3 <= score
    /\ score <= calculate_base_power attacker * 0.5
                + get_type_effectiveness attacker_types defender_types
                  * calculate_base_power attacker * 0.3
                + calculate_base_power attacker * 0.4.
Proof.
  intros P1 P2 P3 P4 P5 P6.
  destruct (Scoring.calculate_battle_score_total attacker defender attacker_types
              defender_types) as (score & log_entries & Hs & Hf).
  exists score, log_entries. split; [exact Hs |].
  rewrite Hf. unfold side_score.
  change (base_power_of attacker) with (calculate_base_power attacker).
  assert (Hb : 0 <= calculate_base_power attacker).
  { rewrite base_power_as_sum. rewrite Zle_Qle in P1, P2, P3, P4, P5, P6.
    change (inject_Z 0) with 0 in *. lra. }
  pose proof (effectiveness_nonneg attacker_types defender_types) as He.
  pose proof (capped_speed_ratio (speed attacker) (speed defender) P6) as [Hm0 Hm2].
  set (b := calculate_base_power attacker) in *.
  set (e := get_type_effectiveness attacker_types defender_types) in *.
  set (m := Qmin _ _) in *.
  assert (Heb : 0 <= e * b) by (apply Qmult_le_0_compat; assumption).
  assert (Hmb0 : 0 <= m * b) by (apply Qmult_le_0_compat; assumption).
  assert (Hmb2 : m * b <= 2 * b) by (apply Qmult_le_compat_r; assumption).
  repeat split; lra.
Qed.

Lemma score_bounds_witness :
  (0 <= speed Fixtures.pikachu)%Z
  /\ exists score log_entries,
       calculate_battle_score Fixtures.pikachu Fixtures.charizard ["electric"]
         ["fire"; "flying"] = Some (score, log_entries)
       /\ 0 <= calculate_base_power Fixtures.pikachu * 0.5 <= score.
Proof.
  split; [cbn; lia |].
  destruct (score_bounds Fixtures.pikachu Fixtures.charizard ["electric"] ["fire"; "flying"])
    as (score & log_entries & Hs & Hlo & _); try (cbn; lia).
  exists score, log_entries. split; [exact Hs | exact Hlo].
Defined.

End ScoringMore.

(** ** The contest in binary64 arithmetic *)

Module RoundedProps.

Import Battle F64 Rounded RoundedSpec.
Local Open Scope Q_scope.

(** *** Rounding *)

Lemma pow2_pos e : 0 < pow2 e.
Proof. unfold pow2. apply Qpower_0_lt. reflexivity. Qed.

Lemma pow2_plus a b : pow2 (a + b) == pow2 a * pow2 b.
Proof. unfold pow2. apply Qpower_plus. discriminate. Qed.

Lemma pow2_inject k : (0 <= k)%Z -> inject_Z (2 ^ k) == pow2 k.
Proof. intros Hk. unfold pow2. apply (Zpower_Qpower 2 k Hk). Qed.

(** The absolute value, as a fraction. *)
Lemma Qabs_frac q : Qabs q == inject_Z (Z.abs (Qnum q)) / inject_Z (Z.pos (Qden q)).
Proof.
  destruct q as [n d]. unfold Qabs. cbn [Qnum Qden].
  unfold Qeq, Qdiv, Qmult, Qinv, inject_Z. cbn. lia.
Qed.

Lemma Qinv_le_antitone a b : 0 < a -> a <= b -> / b <= / a.
Proof.
  intros Ha Hab. apply Qle_shift_inv_l; [exact Ha |].
  rewrite Qmult_comm. change (a * / b) with (a / b).
  apply Qle_shift_div_r; lra.
Qed.

(** The binade is at most the logarithm of the number. *)
Lemma binade_lower q : ~ q == 0 -> pow2 (binade q) <= Qabs q.
Proof.
  intros Hq. unfold binade. cbv zeta.
  destruct (Qle_bool _ _) eqn:E; [apply Qle_bool_iff; exact E |].
  clear E. rewrite Qabs_frac.
  set (n := Z.abs (Qnum q)). set (d := Z.pos (Qden q)).
  assert (Hn : (0 < n)%Z).
  { subst n. destruct q as [[| p | p] den]; cbn; try lia.
    exfalso. apply Hq. reflexivity. }
  assert (Hd : (0 < d)%Z) by (subst d; lia).
  pose proof (Z.log2_spec n Hn) as [Hn1 _].
  pose proof (Z.log2_spec d Hd) as [_ Hd2].
  pose proof (Z.log2_nonneg n) as Hln. pose proof (Z.log2_nonneg d) as Hld.
  replace (Z.log2 n - Z.log2 d - 1)%Z with (Z.log2 n + - Z.succ (Z.log2 d))%Z by lia.
  rewrite pow2_plus. unfold pow2 at 2. rewrite Qpower_opp. fold (pow2 (Z.succ (Z.log2 d))).
  rewrite <- !pow2_inject by lia.
  assert (H1 : inject_Z (2 ^ Z.log2 n) <= inject_Z n) by (rewrite <- Zle_Qle; exact Hn1).
  assert (H2 : inject_Z d <= inject_Z (2 ^ Z.succ (Z.log2 d)))
    by (rewrite <- Zle_Qle; lia).
  assert (H0 : 0 < inject_Z d) by (rewrite <- (Zlt_Qlt 0); exact Hd).
  assert (H3 : 0 <= inject_Z (2 ^ Z.log2 n)) by (rewrite <- (Zle_Qle 0); lia).
  unfold Qdiv. apply Qmult_le_compat_nonneg.
  - split; [exact H3 | exact H1].
  - split; [apply Qinv_le_0_compat; lra | apply Qinv_le_antitone; assumption].
Qed.

(** Rounding keeps zero and the sign of a positive number. *)
Lemma fl_zero q : q == 0 -> fl q = 0.
Proof. intros H. unfold fl. apply Qeq_bool_iff in H. rewrite H. reflexivity. Qed.

Lemma fl_pos q : 0 < q -> 0 < fl q.
Proof.
  intros Hq. unfold fl.
  destruct (Qeq_bool q 0) eqn:E; [apply Qeq_bool_iff in E; lra |]. cbv zeta.
  assert (Hne : ~ q == 0) by lra.
  pose proof (binade_lower q Hne) as Hlow. rewrite (Qabs_pos q) in Hlow by lra.
  set (e := binade q) in *.
  pose proof (pow2_pos (e - 52)) as Hulp.
  assert (Hscale : pow2 52 <= q / pow2 (e - 52)).
  { apply Qle_shift_div_l; [exact Hulp |].
    rewrite <- pow2_plus. replace (52 + (e - 52))%Z with e by lia. exact Hlow. }
  pose proof (ScoringMore.round_half_even_close (q / pow2 (e - 52))) as Hclose.
  apply Qabs_Qle_condition in Hclose as [Hclose _].
  assert (H52 : 1 <= pow2 52) by (vm_compute; discriminate).
  apply Qmult_lt_0_compat; [| exact Hulp]. lra.
Qed.

(** The number lies below the next binade. *)
Lemma binade_upper q : ~ q == 0 -> Qabs q < pow2 (binade q + 1).
Proof.
  intros Hq. unfold binade. cbv zeta.
  destruct (Qle_bool _ _) eqn:E.
  - clear E. rewrite Qabs_frac.
    set (n := Z.abs (Qnum q)). set (d := Z.pos (Qden q)).
    assert (Hn : (0 < n)%Z).
    { subst n. destruct q as [[| p | p] den]; cbn; try lia.
      exfalso. apply Hq. reflexivity. }
    assert (Hd : (0 < d)%Z) by (subst d; lia).
    pose proof (Z.log2_spec n Hn) as [_ Hn2].
    pose proof (Z.log2_spec d Hd) as [Hd1 _].
    pose proof (Z.log2_nonneg n) as Hln. pose proof (Z.log2_nonneg d) as Hld.
    replace (Z.log2 n - Z.log2 d + 1)%Z with (Z.succ (Z.log2 n) + - Z.log2 d)%Z by lia.
    rewrite pow2_plus. unfold pow2 at 2. rewrite Qpower_opp. fold (pow2 (Z.log2 d)).
    rewrite <- !pow2_inject by lia.
    assert (H1 : inject_Z n < inject_Z (2 ^ Z.succ (Z.log2 n)))
      by (rewrite <- Zlt_Qlt; exact Hn2).
    assert (H2 : inject_Z (2 ^ Z.log2 d) <= inject_Z d) by (rewrite <- Zle_Qle; exact Hd1).
    assert (H0 : 0 < inject_Z (2 ^ Z.log2 d)).
    { rewrite <- (Zlt_Qlt 0). apply Z.pow_pos_nonneg; lia. }
    assert (H3 : 0 < inject_Z n) by (rewrite <- (Zlt_Qlt 0); exact Hn).
    pose proof (Qinv_le_antitone _ _ H0 H2) as H4.
    assert (H5 : 0 < / inject_Z d) by (apply Qinv_lt_0_compat; lra).
    unfold Qdiv.
    apply Qlt_le_trans with (inject_Z (2 ^ Z.succ (Z.log2 n)) * / inject_Z d).
    + apply Qmult_lt_compat_r; assumption.
    + apply Qmult_le_l; [lra | exact H4].
  - replace (Z.log2 (Z.abs (Qnum q)) - Z.log2 (Z.pos (Qden q)) - 1 + 1)%Z
      with (Z.log2 (Z.abs (Qnum q)) - Z.log2 (Z.pos (Qden q)))%Z by lia.
    apply Qnot_le_lt. intros H. apply Qle_bool_iff in H. rewrite H in E. discriminate E.
Qed.

Lemma round_half_even_inject n : Py.round_half_even (inject_Z n) = n.
Proof.
  unfold Py.round_half_even. cbv zeta. rewrite Qfloor_Z.
  assert (H : Py.Qltb (inject_Z n - inject_Z n) (1 # 2) = true)
    by (apply Scoring.Qltb_lt; lra).
  rewrite H. reflexivity.
Qed.

(** A number and its float are in the same binade, the upper end
    included. *)
Lemma fl_binade_pos q :
  0 < q -> pow2 (binade q) <= fl q <= pow2 (binade q + 1).
Proof.
  intros Hq. assert (Hne : ~ q == 0) by lra.
  pose proof (binade_lower q Hne) as Hlow. pose proof (binade_upper q Hne) as Hup.
  rewrite (Qabs_pos q) in Hlow, Hup by lra.
  unfold fl. destruct (Qeq_bool q 0) eqn:E; [apply Qeq_bool_iff in E; lra |]. cbv zeta.
  set (e := binade q) in *.
  pose proof (pow2_pos (e - 52)) as Hulp.
  assert (H52 : pow2 52 == inject_Z (2 ^ 52)) by (symmetry; apply pow2_inject; lia).
  assert (H53 : pow2 53 == inject_Z (2 ^ 53)) by (symmetry; apply pow2_inject; lia).
  assert (Hscale : inject_Z (2 ^ 52) <= q / pow2 (e - 52) <= inject_Z (2 ^ 53)).
  { rewrite <- H52, <- H53. split.
    - apply Qle_shift_div_l; [exact Hulp |].
      rewrite <- pow2_plus. replace (52 + (e - 52))%Z with e by lia. exact Hlow.
    - apply Qle_shift_div_r; [exact Hulp |].
      rewrite <- pow2_plus. replace (53 + (e - 52))%Z with (e + 1)%Z by lia. lra. }
  destruct Hscale as [Hs1 Hs2].
  apply ScoringMore.round_half_even_monotone in Hs1, Hs2.
  rewrite round_half_even_inject in Hs1, Hs2.
  rewrite Zle_Qle in Hs1, Hs2. rewrite <- H52 in Hs1. rewrite <- H53 in Hs2.
  set (m := inject_Z (Py.round_half_even (q / pow2 (e - 52)))) in *.
  split.
  - replace e with (52 + (e - 52))%Z at 1 by lia. rewrite pow2_plus.
    apply Qmult_le_compat_r; [exact Hs1 | lra].
  - replace (e + 1)%Z with (53 + (e - 52))%Z by lia. rewrite pow2_plus.
    apply Qmult_le_compat_r; [exact Hs2 | lra].
Qed.

Lemma fl_binade_neg q :
  q < 0 -> - pow2 (binade q + 1) <= fl q <= - pow2 (binade q).
Proof.
  intros Hq. assert (Hne : ~ q == 0) by lra.
  pose proof (binade_lower q Hne) as Hlow. pose proof (binade_upper q Hne) as Hup.
  rewrite (Qabs_neg q) in Hlow, Hup by lra.
  unfold fl. destruct (Qeq_bool q 0) eqn:E; [apply Qeq_bool_iff in E; lra |]. cbv zeta.
  set (e := binade q) in *.
  pose proof (pow2_pos (e - 52)) as Hulp.
  assert (H52 : pow2 52 == inject_Z (2 ^ 52)) by (symmetry; apply pow2_inject; lia).
  assert (H53 : pow2 53 == inject_Z (2 ^ 53)) by (symmetry; apply pow2_inject; lia).
  assert (Hscale : inject_Z (- 2 ^ 53) <= q / pow2 (e - 52) <= inject_Z (- 2 ^ 52)).
  { rewrite !inject_Z_opp, <- H52, <- H53. split.
    - apply Qle_shift_div_l; [exact Hulp |].
      assert (H : pow2 53 * pow2 (e - 52) == pow2 (e + 1)).
      { rewrite <- pow2_plus. replace (53 + (e - 52))%Z with (e + 1)%Z by lia. reflexivity. }
      lra.
    - apply Qle_shift_div_r; [exact Hulp |].
      assert (H : pow2 52 * pow2 (e - 52) == pow2 e).
      { rewrite <- pow2_plus. replace (52 + (e - 52))%Z with e by lia. reflexivity. }
      lra. }
  destruct Hscale as [Hs1 Hs2].
  apply ScoringMore.round_half_even_monotone in Hs1, Hs2.
  rewrite round_half_even_inject in Hs1, Hs2.
  rewrite Zle_Qle in Hs1, Hs2. rewrite inject_Z_opp in Hs1, Hs2.
  rewrite <- H53 in Hs1. rewrite <- H52 in Hs2.
  set (m := inject_Z (Py.round_half_even (q / pow2 (e - 52)))) in *.
  assert (Ha : pow2 53 * pow2 (e - 52) == pow2 (e + 1)).
  { rewrite <- pow2_plus. replace (53 + (e - 52))%Z with (e + 1)%Z by lia. reflexivity. }
  assert (Hb : pow2 52 * pow2 (e - 52) == pow2 e).
  { rewrite <- pow2_plus. replace (52 + (e - 52))%Z with e by lia. reflexivity. }
  assert (Hc : (- pow2 53) * pow2 (e - 52) <= m * pow2 (e - 52))
    by (apply Qmult_le_compat_r; [exact Hs1 | lra]).
  assert (Hd : m * pow2 (e - 52) <= (- pow2 52) * pow2 (e - 52))
    by (apply Qmult_le_compat_r; [exact Hs2 | lra]).
  split; lra.
Qed.

(** Magnitudes in order have binades in order. *)
Lemma binade_monotone x y :
  ~ x == 0 -> ~ y == 0 -> Qabs x <= Qabs y -> (binade x <= binade y)%Z.
Proof.
  intros Hx Hy Hxy.
  pose proof (binade_lower x Hx) as H1. pose proof (binade_upper y Hy) as H2.
  assert (H : pow2 (binade x) < pow2 (binade y + 1)) by lra.
  unfold pow2 in H. apply Qpower_lt_compat_l_inv in H; [lia | reflexivity].
Qed.

Lemma pow2_monotone a b : (a <= b)%Z -> pow2 a <= pow2 b.
Proof. intros H. apply Qpower_le_compat_l; [exact H | discriminate]. Qed.

Lemma fl_same_binade x y :
  ~ x == 0 -> ~ y == 0 -> binade x = binade y -> x <= y -> fl x <= fl y.
Proof.
  intros Hx Hy He Hxy. unfold fl.
  destruct (Qeq_bool x 0) eqn:Ex; [apply Qeq_bool_iff in Ex; contradiction |].
  destruct (Qeq_bool y 0) eqn:Ey; [apply Qeq_bool_iff in Ey; contradiction |].
  cbv zeta. rewrite He.
  pose proof (pow2_pos (binade y - 52)) as Hulp.
  apply Qmult_le_compat_r; [| lra].
  rewrite <- Zle_Qle. apply ScoringMore.round_half_even_monotone.
  apply Qmult_le_compat_r; [exact Hxy |].
  apply Qlt_le_weak, Qinv_lt_0_compat, Hulp.
Qed.

(** Rounding to the nearest float keeps the order. *)
Lemma fl_monotone x y : x <= y -> fl x <= fl y.
Proof.
  intros Hxy.
  destruct (Q_dec x 0) as [[Hx | Hx] | Hx]; destruct (Q_dec y 0) as [[Hy | Hy] | Hy];
    try lra.
  - (* both negative *)
    assert (Hnx : ~ x == 0) by lra. assert (Hny : ~ y == 0) by lra.
    assert (Habs : Qabs y <= Qabs x) by (rewrite !Qabs_neg by lra; lra).
    pose proof (binade_monotone y x Hny Hnx Habs) as Hb.
    destruct (Z.eq_dec (binade x) (binade y)) as [He | He].
    + apply fl_same_binade; assumption.
    + pose proof (fl_binade_neg x Hx) as [_ H1]. pose proof (fl_binade_neg y Hy) as [H2 _].
      pose proof (pow2_monotone (binade y + 1) (binade x) ltac:(lia)). lra.
  - pose proof (fl_binade_neg x Hx) as [_ H1]. pose proof (pow2_pos (binade x)).
    pose proof (fl_pos y Hy). lra.
  - pose proof (fl_binade_neg x Hx) as [_ H1]. pose proof (pow2_pos (binade x)).
    rewrite (fl_zero y Hy). lra.
  - (* both positive *)
    assert (Hnx : ~ x == 0) by lra. assert (Hny : ~ y == 0) by lra.
    assert (Habs : Qabs x <= Qabs y) by (rewrite !Qabs_pos by lra; lra).
    pose proof (binade_monotone x y Hnx Hny Habs) as Hb.
    destruct (Z.eq_dec (binade x) (binade y)) as [He | He].
    + apply fl_same_binade; assumption.
    + pose proof (fl_binade_pos x Hx) as [_ H1]. pose proof (fl_binade_pos y Hy) as [H2 _].
      pose proof (pow2_monotone (binade x + 1) (binade y) ltac:(lia)). lra.
  - rewrite (fl_zero x Hx). apply Qlt_le_weak, fl_pos, Hy.
  - rewrite (fl_zero x Hx), (fl_zero y Hy). lra.
Qed.

(** A float is within half a unit in the last place of the number it
    rounds: the relative error is at most [2 ^ -53]. *)
Lemma fl_close q : Qabs (fl q - q) <= Qabs q * pow2 (-53).
Proof.
  destruct (Qeq_dec q 0) as [Hz | Hne].
  - rewrite (fl_zero q Hz).
    assert (H : Qabs (0 - q) == 0) by (rewrite Hz; reflexivity).
    rewrite H. apply Qmult_le_0_compat; [apply Qabs_nonneg | apply Qlt_le_weak, pow2_pos].
  - pose proof (binade_lower q Hne) as Hlow.
    unfold fl. destruct (Qeq_bool q 0) eqn:E; [apply Qeq_bool_iff in E; contradiction |].
    cbv zeta. set (e := binade q) in *.
    pose proof (pow2_pos (e - 52)) as Hulp.
    pose proof (ScoringMore.round_half_even_close (q / pow2 (e - 52))) as Hr.
    set (m := inject_Z (Py.round_half_even (q / pow2 (e - 52)))) in *.
    assert (Heq : m * pow2 (e - 52) - q == (m - q / pow2 (e - 52)) * pow2 (e - 52))
      by (field; lra).
    rewrite Heq, Qabs_Qmult, (Qabs_pos (pow2 (e - 52))) by lra.
    assert (Hhalf : (1 # 2) * pow2 (e - 52) == pow2 e * pow2 (-53)).
    { rewrite <- pow2_plus. replace (e + -53)%Z with (-1 + (e - 52))%Z by lia.
      rewrite pow2_plus. reflexivity. }
    pose proof (pow2_pos (-53)) as H53.
    apply Qle_trans with ((1 # 2) * pow2 (e - 52)).
    + apply Qmult_le_compat_r; [exact Hr | lra].
    + rewrite Hhalf. apply Qmult_le_compat_r; [exact Hlow | lra].
Qed.

(** *** The scores and the result *)

Lemma speed_ratio_defined_fl a b : exists q, fl_truediv a (Py.max b 1) = Some q.
Proof.
  unfold fl_truediv, Py.max.
  destruct (b <? 1)%Z eqn:E; [eexists; reflexivity |].
  apply Z.ltb_ge in E. destruct (b =? 0)%Z eqn:E0; [| eexists; reflexivity].
  apply Z.eqb_eq in E0. lia.
Qed.

Lemma scored_fl_total attacker defender : exists score, scored_fl attacker defender score.
Proof.
  unfold scored_fl, calculate_battle_score_fl.
  destruct (speed_ratio_defined_fl (speed attacker) (speed defender)) as [q Hq].
  rewrite Hq. cbn [mbind option_bind]. eexists. eexists. reflexivity.
Qed.

Lemma execute_battle_fl_result p1 p2 s1 s2 :
  scored_fl p1 p2 s1 -> scored_fl p2 p1 s2 ->
  exists r,
    execute_battle_fl p1 p2 = Some r
    /\ is_draw r = draw_policy_fl s1 s2
    /\ winner r = (if draw_policy_fl s1 s2 then None
                   else if Py.Qgtb s1 s2 then Some p1 else Some p2)
    /\ pokemon1_score r = fl_round2 s1
    /\ pokemon2_score r = fl_round2 s2.
Proof.
  intros [l1 H1] [l2 H2]. unfold execute_battle_fl.
  rewrite H1. cbn [mbind option_bind]. rewrite H2. cbn [mbind option_bind].
  destruct (draw_policy_fl s1 s2); [| destruct (Py.Qgtb s1 s2)];
    eexists; (split; [reflexivity |]); repeat split.
Qed.

(** *** The draw policy *)

Lemma draw_policy_fl_declared s1 s2 : draw_policy_fl s1 s2 = true <-> draw_declared_fl s1 s2.
Proof.
  unfold draw_policy_fl, draw_declared_fl. cbv zeta.
  destruct (Py.Qgtb (fl_div (fl_add s1 s2) (fl_of_int 2)) 0) eqn:E.
  - apply Scoring.Qgtb_gt in E. rewrite Scoring.Qltb_lt. split.
    + intros H. left. split; assumption.
    + intros [[_ H] | [H _]]; [exact H | contradiction].
  - apply Scoring.Qgtb_le in E. rewrite Qeq_bool_iff. split.
    + intros H. right. split; [| exact H]. apply Qle_not_lt. exact E.
    + intros [[H _] | [_ H]]; [| exact H].
      exfalso. exact (Qlt_not_le _ _ H E).
Qed.

(** Equal scores are always a draw: their difference is the float zero,
    and one hundredth of a positive average is a positive float. *)
Lemma draw_policy_fl_equal s1 s2 : s1 == s2 -> draw_policy_fl s1 s2 = true.
Proof.
  intros Heq. unfold draw_policy_fl. cbv zeta.
  destruct (Py.Qgtb _ 0) eqn:E; [| apply Qeq_bool_iff; exact Heq].
  apply Scoring.Qgtb_gt in E. apply Scoring.Qltb_lt.
  unfold fl_sub. rewrite (fl_zero (s1 - s2)) by lra.
  change (Qabs 0) with 0. unfold fl_mul. apply fl_pos.
  apply Qmult_lt_0_compat; [exact E |]. apply fl_pos. reflexivity.
Qed.

Lemma not_draw_distinct_fl s1 s2 : draw_policy_fl s1 s2 = false -> ~ s1 == s2.
Proof. intros H Heq. rewrite (draw_policy_fl_equal s1 s2 Heq) in H. discriminate H. Qed.

(** C3: with s1 and s2 the two per-side scores as the program computes
    them in binary64, the contest is a draw exactly when the draw policy
    of the specification, computed in binary64 as well, declares one; a
    draw has no winner; otherwise the two scores differ and the winner is
    the participant whose score is strictly higher. *)
Theorem draw_resolution_binary64 (pokemon1 pokemon2 : Pokemon) :
  exists s1 s2 r,
    scored_fl pokemon1 pokemon2 s1 /\ scored_fl pokemon2 pokemon1 s2
    /\ execute_battle_fl pokemon1 pokemon2 = Some r
    /\ (is_draw r = true <-> draw_declared_fl s1 s2)
    /\ ((is_draw r = true /\ winner r = None)
        \/ (is_draw r = false /\ ~ s1 == s2
            /\ ((s2 < s1 /\ winner r = Some pokemon1)
                \/ (s1 < s2 /\ winner r = Some pokemon2)))).
Proof.
  destruct (scored_fl_total pokemon1 pokemon2) as [s1 H1].
  destruct (scored_fl_total pokemon2 pokemon1) as [s2 H2].
  destruct (execute_battle_fl_result _ _ _ _ H1 H2) as (r & Hr & Hd & Hw & _).
  exists s1, s2, r. repeat (split; [assumption |]).
  split; [rewrite Hd; apply draw_policy_fl_declared |].
  rewrite Hd, Hw. destruct (draw_policy_fl s1 s2) eqn:Ed; [left; split; reflexivity |].
  right. pose proof (not_draw_distinct_fl _ _ Ed) as Hne.
  split; [reflexivity |]. split; [exact Hne |].
  destruct (Py.Qgtb s1 s2) eqn:Eg.
  - left. split; [apply Scoring.Qgtb_gt; exact Eg | reflexivity].
  - right. split; [| reflexivity].
    apply Scoring.Qgtb_le in Eg. apply Qle_lt_or_eq in Eg as [Hlt | Heq]; [exact Hlt |].
    contradiction.
Qed.

(** *** The scores of the result *)

Lemma fl_round2_cents x :
  exists n : Z, fl_round2 x = fl (inject_Z n / 100) /\ Qabs (inject_Z n / 100 - x) <= 0.005.
Proof.
  exists (Py.round_half_even (x * 100)). split; [reflexivity |].
  exact (ScoringMore.round2_close x).
Qed.

Lemma fl_round2_monotone x y : x <= y -> fl_round2 x <= fl_round2 y.
Proof. intros H. apply fl_monotone, ScoringMore.round2_monotone, H. Qed.

(** X8: the two scores in the result are the per-side scores, as the
    program computes them in binary64, rounded to two decimals: each is
    the float nearest to a whole number of hundredths that is at most
    0.005 away from the score it rounds; and rounding keeps the order, so
    a winner's returned score is never below the other returned score. *)
Theorem returned_scores_rounded (pokemon1 pokemon2 : Pokemon) :
  exists s1 s2 r,
    scored_fl pokemon1 pokemon2 s1 /\ scored_fl pokemon2 pokemon1 s2
    /\ execute_battle_fl pokemon1 pokemon2 = Some r
    /\ (exists n1 : Z,
          pokemon1_score r = fl (inject_Z n1 / 100)
          /\ Qabs (inject_Z n1 / 100 - s1) <= 0.005)
    /\ (exists n2 : Z,
          pokemon2_score r = fl (inject_Z n2 / 100)
          /\ Qabs (inject_Z n2 / 100 - s2) <= 0.005)
    /\ (winner r = None
        \/ (winner r = Some pokemon1 /\ pokemon2_score r <= pokemon1_score r)
        \/ (winner r = Some pokemon2 /\ pokemon1_score r <= pokemon2_score r)).
Proof.
  destruct (scored_fl_total pokemon1 pokemon2) as [s1 H1].
  destruct (scored_fl_total pokemon2 pokemon1) as [s2 H2].
  destruct (execute_battle_fl_result _ _ _ _ H1 H2) as (r & Hr & Hd & Hw & Hp1 & Hp2).
  exists s1, s2, r. repeat (split; [assumption |]).
  rewrite Hp1, Hp2, Hw.
  split; [apply fl_round2_cents |]. split; [apply fl_round2_cents |].
  destruct (draw_policy_fl s1 s2); [left; reflexivity | right].
  destruct (Py.Qgtb s1 s2) eqn:Eg.
  - left. split; [reflexivity |].
    apply fl_round2_monotone, Qlt_le_weak, Scoring.Qgtb_gt, Eg.
  - right. split; [reflexivity |]. apply fl_round2_monotone, Scoring.Qgtb_le, Eg.
Qed.

(** *** The rounded rationals against the machine floats *)

(** The literals of [battle.py] are the floats the machine reads. *)
#[warnings="-inexact-float"]
Example literals_agree :
  to_Q 0.5%float = Some (Qred (fl 0.5)) /\ to_Q 0.3%float = Some (Qred (fl 0.3))
  /\ to_Q 0.2%float = Some (Qred (fl 0.2)) /\ to_Q 0.01%float = Some (Qred (fl 0.01))
  /\ to_Q 2%float = Some (Qred (fl 2.0)).
Proof. repeat split; vm_compute; reflexivity. Qed.

(** The scores of the rounded rationals are, bit for bit, the scores of
    the machine floats, and the draw flags are the same: on the records of
    the test suite and on two pairs where rounding decides. *)
Example scores_agree :
  Forall (fun '(a, b) =>
            exists s log_entries,
              calculate_battle_score_fl a b (parse_types (types a)) (parse_types (types b))
              = Some (s, log_entries)
              /\ to_Q (Binary64.battle_score64 a b (parse_types (types a))
                         (parse_types (types b))) = Some (Qred s))
    [(Fixtures.pikachu, Fixtures.charizard); (Fixtures.charizard, Fixtures.pikachu);
     (Fixtures.charizard, Fixtures.blastoise); (Fixtures.blastoise, Fixtures.pikachu);
     (Fixtures.pikachu, Fixtures.pikachu2); close_pair; (close_pair.2, close_pair.1);
     tie_record; (tie_record.2, tie_record.1)].
Proof.
  repeat constructor; (eexists; eexists; split; [vm_compute; reflexivity |]);
    vm_compute; reflexivity.
Qed.

Example outcomes_agree :
  Forall (fun '(a, b) =>
            exists r, execute_battle_fl a b = Some r
                      /\ (Binary64.execute_battle64 a b).1.2 = is_draw r
                      /\ (Binary64.execute_battle64 a b).2 = winner r)
    [(Fixtures.pikachu, Fixtures.charizard); (Fixtures.charizard, Fixtures.pikachu);
     (Fixtures.charizard, Fixtures.blastoise); (Fixtures.blastoise, Fixtures.pikachu);
     (Fixtures.pikachu, Fixtures.pikachu2); close_pair; tie_record].
Proof.
  repeat constructor; (eexists; split; [vm_compute; reflexivity |]);
    split; vm_compute; reflexivity.
Qed.

(** Two scores that are 35.175 and 34.825 in exact arithmetic, their
    difference one hundredth of their mean: in binary64 the difference is
    below the hundredth of the mean and the contest is a draw; in exact
    arithmetic it is not below, and the first record would win. *)
Example draw_decided_by_rounding :
  (exists r, execute_battle_fl close_pair.1 close_pair.2 = Some r
             /\ is_draw r = true /\ winner r = None)
  /\ (exists r, execute_battle close_pair.1 close_pair.2 = Some r
                /\ is_draw r = false /\ winner r = Some close_pair.1).
Proof. split; eexists; (split; [vm_compute; reflexivity |]); split; reflexivity. Qed.

(** A score that is 8.075 in exact arithmetic and just below it in
    binary64 is returned as 8.07; the rational model rounds the tie to
    8.08. *)
Example returned_score_below_tie :
  (exists r, execute_battle_fl tie_record.1 tie_record.2 = Some r
             /\ pokemon1_score r == fl 8.07 /\ ~ pokemon1_score r == fl 8.08)
  /\ (exists r, execute_battle tie_record.1 tie_record.2 = Some r
                /\ pokemon1_score r == 8.08).
Proof.
  split; eexists; (split; [vm_compute; reflexivity |]);
    [split; [reflexivity | discriminate] | reflexivity].
Qed.

End RoundedProps.

(** ** Further properties of the cache *)

Module CacheMore.

Import Json Exceptions World PokeAPI CacheOps CacheSpec.
Import CacheProps.
Local Open Scope Q_scope.

(** X11: a lookup made no later than the time-to-live after the [set]
    returns the stored payload, and leaves the cache as it is; the
    instant "set time + ttl" itself still counts. *)
Theorem cache_set_then_get (key : string) (value : json) (w w' : World) :
  _cache (cache w') !! key = _cache (cache (PokemonCache_set key value w).2) !! key ->
  now w' - now w <= inject_Z (ttl (cache w)) ->
  (PokemonCache_get key w').1 = inr (Some value)
  /\ cache (PokemonCache_get key w').2 = cache w'.
Proof.
  intros Hsame Hlive. rewrite set_entry in Hsame.
  rewrite (get_live key w' _ Hsame) by (cbn [expires_at]; lra).
  split; reflexivity.
Qed.

Lemma cache_set_then_get_witness :
  let w := Fixtures.fresh_world 60 in
  let w' := (PokemonCache_set "pikachu" (JDict [("name", JStr "pikachu")]) w).2 in
  now w' - now w <= inject_Z (ttl (cache w))
  /\ (PokemonCache_get "pikachu" w').1 = inr (Some (JDict [("name", JStr "pikachu")])).
Proof.
  intros w w'.
  assert (Hlive : now w' - now w <= inject_Z (ttl (cache w))) by (vm_compute; discriminate).
  split; [exact Hlive |].
  exact (proj1 (cache_set_then_get "pikachu" _ w w' eq_refl Hlive)).
Defined.

Lemma run_op_other key op w :
  touches key op = false ->
  _cache (cache (run_op op w)) !! key = _cache (cache w) !! key.
Proof.
  intros Hop. destruct op as [k | k v |]; cbn [run_op touches] in *; [| | discriminate].
  - apply String.eqb_neq in Hop. unfold PokemonCache_get. run_M.
    destruct (_cache (cache w) !! k) as [entry |]; [| reflexivity].
    cbn [cache emit]. destruct (Py.Qgtb _ _); cbn; [| reflexivity].
    apply lookup_delete_ne. exact Hop.
  - apply String.eqb_neq in Hop. unfold PokemonCache_set. run_M. cbn.
    apply lookup_insert_ne. exact Hop.
Qed.

Lemma run_op_ttl op w : ttl (cache (run_op op w)) = ttl (cache w).
Proof.
  destruct op as [k | k v |]; cbn [run_op].
  - unfold PokemonCache_get. run_M.
    destruct (_cache (cache w) !! k) as [entry |]; [| reflexivity].
    cbn [cache emit]. destruct (Py.Qgtb _ _); reflexivity.
  - reflexivity.
  - reflexivity.
Qed.

(** X12: calls for other keys do not touch a key's entry: through any
    history of [get] and [set] calls for other keys the entry of a key is
    what it was; and no call changes the time-to-live or the store. *)
Theorem cache_keys_independent (key : string) (ops : list cache_op) (w : World) :
  (forallb (fun op => negb (touches key op)) ops = true ->
   _cache (cache (run_ops ops w)) !! key = _cache (cache w) !! key)
  /\ ttl (cache (run_ops ops w)) = ttl (cache w)
  /\ db (run_ops ops w) = db w.
Proof.
  revert w. induction ops as [| op ops IH]; intros w; [repeat split |].
  unfold run_ops in *. cbn [fold_left forallb].
  destruct (IH (run_op op w)) as (IHk & IHt & IHd). split; [| split].
  - intros H. apply andb_true_iff in H as [Hop Hops]. apply negb_true_iff in Hop.
    rewrite (IHk Hops). apply run_op_other, Hop.
  - rewrite IHt. apply run_op_ttl.
  - rewrite IHd. destruct op as [k | k v |]; cbn [run_op]; [| reflexivity | reflexivity].
    unfold PokemonCache_get. run_M.
    destruct (_cache (cache w) !! k) as [entry |]; [| reflexivity].
    cbn [cache emit]. destruct (Py.Qgtb _ _); reflexivity.
Qed.

Lemma cache_keys_independent_witness :
  let w := (PokemonCache_set "pikachu" JNull (Fixtures.fresh_world 60)).2 in
  let ops := [OpSet "charizard" (JInt 6); OpGet "charizard"; OpGet "mew"] in
  _cache (cache (run_ops ops w)) !! "pikachu" = _cache (cache w) !! "pikachu".
Proof.
  intros w ops. apply (cache_keys_independent "pikachu" ops w). reflexivity.
Defined.

(** The entry of a key holds the latest value set for it. *)
Lemma last_set_invariant key ops :
  forall w acc,
    (forall entry, _cache (cache w) !! key = Some entry -> acc = Some (data entry)) ->
    forall entry,
      _cache (cache (run_ops ops w)) !! key = Some entry ->
      fold_left
        (fun acc op =>
           match op with
           | OpSet k v => if String.eqb k key then Some v else acc
           | OpClear => None
           | OpGet _ => acc
           end) ops acc = Some (data entry).
Proof.
  induction ops as [| op ops IH]; intros w acc Hinv entry Hentry; [exact (Hinv _ Hentry) |].
  unfold run_ops in Hentry. cbn [fold_left] in *.
  refine (IH (run_op op w) _ _ entry Hentry).
  intros e He. destruct op as [k | k v |]; cbn [run_op] in He.
  - apply Hinv. revert He. unfold PokemonCache_get. run_M.
    destruct (_cache (cache w) !! k) as [entry' |] eqn:Ek; [| exact id].
    cbn [cache emit]. destruct (Py.Qgtb _ _); cbn; [| exact id].
    rewrite lookup_delete. case_decide; [discriminate | exact id].
  - revert He. unfold PokemonCache_set. run_M. cbn.
    destruct (String.eqb k key) eqn:Ek.
    + apply String.eqb_eq in Ek. subst k. rewrite lookup_insert_eq.
      intros [= <-]. reflexivity.
    + apply String.eqb_neq in Ek. rewrite lookup_insert_ne by exact Ek. apply Hinv.
  - rewrite clear_empty in He. discriminate He.
Qed.

(** X13: a lookup returns the latest write: after [clear] and any history
    of calls, a payload that a lookup returns for a key is the value of
    the latest [set] for that key in the history. *)
Theorem cache_get_latest_set (key : string) (ops : list cache_op) (w : World) (value : json) :
  (PokemonCache_get key (run_ops ops (PokemonCache_clear w).2)).1 = inr (Some value) ->
  last_set key ops = Some value.
Proof.
  intros Hget. set (w' := run_ops ops (PokemonCache_clear w).2) in *.
  destruct (_cache (cache w') !! key) as [entry |] eqn:Hentry.
  - assert (Hv : data entry = value).
    { revert Hget. unfold PokemonCache_get. run_M. rewrite Hentry.
      cbn [cache emit]. destruct (Py.Qgtb _ _); cbn; congruence. }
    subst value. unfold last_set.
    apply (last_set_invariant key ops (PokemonCache_clear w).2 None); [| exact Hentry].
    intros e He. rewrite clear_empty in He. discriminate He.
  - rewrite (get_absent key w' Hentry) in Hget. discriminate Hget.
Qed.

Lemma cache_get_latest_set_witness :
  let ops := [OpSet "pikachu" (JInt 1); OpSet "mew" (JInt 7); OpSet "pikachu" (JInt 2)] in
  (PokemonCache_get "pikachu" (run_ops ops (PokemonCache_clear (Fixtures.fresh_world 60)).2)).1
  = inr (Some (JInt 2))
  /\ last_set "pikachu" ops = Some (JInt 2).
Proof.
  intros ops.
  assert (H : (PokemonCache_get "pikachu"
                 (run_ops ops (PokemonCache_clear (Fixtures.fresh_world 60)).2)).1
              = inr (Some (JInt 2))) by reflexivity.
  split; [exact H |]. exact (cache_get_latest_set "pikachu" ops _ _ H).
Defined.

End CacheMore.

(** ** The parser of the external payload *)

Module ParseProps.

Import Json Exceptions PokeAPI ParseSpec.

Lemma assoc_last_fmap {V W : Type} (f : V -> W) (d : list (string * V)) (k : string) :
  assoc_last (map (fun kv => (kv.1, f kv.2)) d) k = f <$> assoc_last d k.
Proof.
  induction d as [| [k' v] d IH]; [reflexivity |].
  cbn [map assoc_last fst snd]. rewrite IH.
  destruct (assoc_last d k); [reflexivity |].
  cbn. destruct (String.eqb k' k); reflexivity.
Qed.

Lemma assoc_last_nonempty {V : Type} (d : list (string * V)) (k : string) (v : V) :
  assoc_last d k = Some v -> d <> [].
Proof. intros H ->. discriminate H. Qed.

Lemma R_bind_inr {A B : Type} (r : R A) (k : A -> R B) (b : B) :
  r ≫= k = inr b -> exists a, r = inr a /\ k a = inr b.
Proof. destruct r as [e | a]; [discriminate | intros H; exists a; split; [reflexivity | exact H]]. Qed.

Lemma stats_of_well_formed (items : list json) (stats : list (string * Z)) :
  Forall2 (fun item kv => is_stat item kv.1 kv.2) items stats ->
  stats_of items = inr (map (fun kv => (kv.1, JInt kv.2)) stats).
Proof.
  induction 1 as [| item [name value] items stats [Hname Hvalue] _ IH]; [reflexivity |].
  cbn [stats_of map fst snd] in *. unfold stat_item.
  destruct (getitem item "stat") as [e | s]; [discriminate Hname |].
  cbn in Hname |- *. rewrite Hname. cbn. rewrite Hvalue. cbn.
  rewrite IH. reflexivity.
Qed.

Lemma types_of_well_formed (items : list json) (types : list string) :
  Forall2 is_type items types ->
  types_of items = inr (map JStr types).
Proof.
  induction 1 as [| item name items types Hname _ IH]; [reflexivity |].
  cbn [types_of map]. unfold type_item. unfold is_type in Hname.
  rewrite Hname. cbn. rewrite IH. reflexivity.
Qed.

Lemma strings_of_strings (types : list string) :
  strings_of (map JStr types) = inr types.
Proof.
  induction types as [| t types IH]; [reflexivity |].
  cbn [map strings_of]. rewrite IH. reflexivity.
Qed.

Lemma stats_get_well_formed lax (stats : list (string * Z)) (key : string) :
  validate_int lax (stats_get (map (fun kv => (kv.1, JInt kv.2)) stats) key)
  = inr (stat_value stats key).
Proof.
  unfold stats_get, stat_value. rewrite (assoc_last_fmap JInt).
  destruct (assoc_last stats key); reflexivity.
Qed.

Lemma sprite_of_well_formed (d : list (string * json)) (sprite : option string) :
  has_sprite d sprite ->
  sprite_of (JDict d) ≫= validate_opt_str = inr sprite.
Proof.
  unfold sprite_of, dict_get.
  destruct sprite as [url |]; cbn [has_sprite].
  - intros (s & -> & Hfront). cbn.
    destruct s as [| m s]; [discriminate Hfront |].
    cbn [json_truthy]. rewrite Hfront. reflexivity.
  - intros [-> | [-> | (s & -> & Hfront)]]; [reflexivity | reflexivity |].
    cbn. destruct s as [| m s]; [reflexivity |].
    cbn [json_truthy]. destruct Hfront as [-> | ->]; reflexivity.
Qed.

(** X14: a well-formed payload parses, whatever else it contains: the
    result copies the identifier and the name, takes each of the six
    stats from the last item of that name and 0 when there is none, joins
    the type names with commas in the payload's order, and takes the
    sprite from [sprites.front_default] when there is one. *)
Theorem parse_well_formed (lax : json -> option Z) (d : list (string * json))
    (stat_items type_items : list json)
    (stats : list (string * Z)) (types : list string)
    (pokeapi_id : Z) (name : string) (sprite : option string) :
  assoc_last d "stats" = Some (JList stat_items) ->
  Forall2 (fun item kv => is_stat item kv.1 kv.2) stat_items stats ->
  assoc_last d "types" = Some (JList type_items) ->
  Forall2 is_type type_items types ->
  assoc_last d "id" = Some (JInt pokeapi_id) ->
  assoc_last d "name" = Some (JStr name) ->
  has_sprite d sprite ->
  _parse_pokemon_data lax (JDict d)
  = inr {| Schemas.pokeapi_id := pokeapi_id;
           Schemas.name := name;
           Schemas.hp := stat_value stats "hp";
           Schemas.attack := stat_value stats "attack";
           Schemas.defense := stat_value stats "defense";
           Schemas.special_attack := stat_value stats "special-attack";
           Schemas.special_defense := stat_value stats "special-defense";
           Schemas.speed := stat_value stats "speed";
           Schemas.types := Py.join "," types;
           Schemas.sprite_url := sprite |}.
Proof.
  intros Hstats Hstat_items Htypes Htype_items Hid Hname Hsprite.
  apply sprite_of_well_formed in Hsprite.
  unfold _parse_pokemon_data.
  cbn [getitem]. rewrite Hstats, Htypes, Hid, Hname. cbn [mbind R_bind iter].
  rewrite (stats_of_well_formed _ _ Hstat_items).
  rewrite (types_of_well_formed _ _ Htype_items).
  destruct (sprite_of (JDict d)) as [e | j]; [discriminate Hsprite |].
  cbn in Hsprite. cbn [mbind R_bind].
  rewrite strings_of_strings. cbn [mbind R_bind validate_int validate_str].
  rewrite !stats_get_well_formed. cbn [mbind R_bind].
  rewrite Hsprite. reflexivity.
Qed.

Lemma parse_well_formed_witness :
  _parse_pokemon_data Fixtures.mock_coerce_int
    (JDict [("name", JStr "mew"); ("id", JInt 151); ("weight", JInt 40);
            ("stats", JList [JDict [("base_stat", JInt 100); ("effort", JInt 3);
                                    ("stat", JDict [("name", JStr "hp")])];
                             JDict [("base_stat", JInt 90);
                                    ("stat", JDict [("name", JStr "speed")])];
                             JDict [("base_stat", JInt 100);
                                    ("stat", JDict [("name", JStr "speed")])]]);
            ("types", JList [Fixtures.type_entry "psychic"]);
            ("sprites", JDict [("back_default", JStr "back.png")])])
  = inr (Schemas.mkPokemonCreate 151 "mew" 100 0 0 0 0 100 "psychic" None).
Proof.
  eapply (parse_well_formed _ _ _ _ [("hp", 100); ("speed", 90); ("speed", 100)] ["psychic"]
            151 "mew" None).
  - reflexivity.
  - repeat constructor.
  - reflexivity.
  - repeat constructor.
  - reflexivity.
  - reflexivity.
  - right. right. eexists. split; [reflexivity |]. left. reflexivity.
Defined.

(** X15: the parser succeeds only on an object that has the members
    [stats], [types], [id] and [name], the name a string; the result
    carries that name, and as identifier the [id] member when it is an
    integer and otherwise the integer the validation library converts it
    to. *)
Theorem parse_success_inversion (lax : json -> option Z) (data : json)
    (p : Schemas.PokemonCreate) :
  _parse_pokemon_data lax data = inr p ->
  exists d id_member,
    data = JDict d
    /\ is_Some (assoc_last d "stats")
    /\ is_Some (assoc_last d "types")
    /\ assoc_last d "name" = Some (JStr (Schemas.name p))
    /\ assoc_last d "id" = Some id_member
    /\ (id_member = JInt (Schemas.pokeapi_id p)
        \/ (forall n, id_member <> JInt n) /\ lax id_member = Some (Schemas.pokeapi_id p)).
Proof.
  unfold _parse_pokemon_data. intros H.
  destruct data as [| b | n | q | s | l | d]; try discriminate H.
  exists d.
  cbn [getitem] in H.
  apply R_bind_inr in H as (stat_items & Hstats & H).
  apply R_bind_inr in H as (stats & _ & H).
  apply R_bind_inr in H as (type_items & Htypes & H).
  apply R_bind_inr in H as (types & _ & H).
  apply R_bind_inr in H as (sprite & _ & H).
  apply R_bind_inr in H as (id_member & Hid & H).
  apply R_bind_inr in H as (name_member & Hname & H).
  apply R_bind_inr in H as (type_names & _ & H).
  apply R_bind_inr in H as (pokeapi_id & Hid' & H).
  apply R_bind_inr in H as (name & Hname' & H).
  do 7 (apply R_bind_inr in H as (? & _ & H)).
  injection H as <-. cbn [Schemas.pokeapi_id Schemas.name].
  exists id_member. split; [reflexivity |].
  destruct (assoc_last d "stats"); [| discriminate Hstats].
  destruct (assoc_last d "types"); [| discriminate Htypes].
  destruct (assoc_last d "id") as [id_member' |]; [| discriminate Hid].
  destruct (assoc_last d "name") as [name_member' |]; [| discriminate Hname].
  injection Hid as ->. injection Hname as ->.
  destruct name_member; try discriminate Hname'. injection Hname' as ->.
  split; [eexists; reflexivity |]. split; [eexists; reflexivity |].
  split; [reflexivity |]. split; [reflexivity |].
  destruct id_member; cbn in Hid'; try discriminate Hid';
    try (right; split; [discriminate |]; destruct (lax _); [| discriminate Hid'];
         injection Hid' as ->; reflexivity).
  left. injection Hid' as ->. reflexivity.
Qed.

Lemma parse_success_inversion_witness :
  _parse_pokemon_data Fixtures.mock_coerce_int
    (JDict [("id", JFloat 151); ("name", JStr "mew"); ("stats", JList []);
            ("types", JList [])])
  = inr (Schemas.mkPokemonCreate 151 "mew" 0 0 0 0 0 0 "" None)
  /\ exists d id_member,
       JDict [("id", JFloat 151); ("name", JStr "mew"); ("stats", JList []);
              ("types", JList [])] = JDict d
       /\ is_Some (assoc_last d "stats")
       /\ is_Some (assoc_last d "types")
       /\ assoc_last d "name" = Some (JStr "mew")
       /\ assoc_last d "id" = Some id_member
       /\ (id_member = JInt 151
           \/ (forall n, id_member <> JInt n)
              /\ Fixtures.mock_coerce_int id_member = Some 151).
Proof.
  assert (H : _parse_pokemon_data Fixtures.mock_coerce_int
                (JDict [("id", JFloat 151); ("name", JStr "mew"); ("stats", JList []);
                        ("types", JList [])])
              = inr (Schemas.mkPokemonCreate 151 "mew" 0 0 0 0 0 0 "" None))
    by reflexivity.
  split; [exact H |].
  exact (parse_success_inversion _ _ _ H).
Defined.

(** *** The exceptions of the parser *)

Lemma raises_only_ret {A : Type} allowed (a : A) : raises_only allowed (mret a : R A).
Proof. intros e H. discriminate H. Qed.

Lemma raises_only_bind {A B : Type} allowed (m : R A) (k : A -> R B) :
  raises_only allowed m -> (forall a, raises_only allowed (k a)) ->
  raises_only allowed (m ≫= k).
Proof.
  intros Hm Hk e. destruct m as [x | a]; cbn.
  - intros [= ->]. apply Hm. reflexivity.
  - apply Hk.
Qed.

Lemma getitem_raises j k :
  parse_error (KeyError k) = true -> raises_only parse_error (getitem j k).
Proof.
  intros Hk e. unfold getitem.
  destruct j; try (intros [= <-]; reflexivity).
  destruct (assoc_last d k); [discriminate |]. intros [= <-]. exact Hk.
Qed.

Lemma iter_raises j : raises_only parse_error (iter j).
Proof. intros e. destruct j; try discriminate; intros [= <-]; reflexivity. Qed.

Lemma dict_get_raises j k : raises_only parse_error (dict_get j k).
Proof. intros e. destruct j; try discriminate; intros [= <-]; reflexivity. Qed.

Lemma validate_int_raises lax j : raises_only parse_error (validate_int lax j).
Proof.
  intros e. destruct j; cbn; try destruct (lax _); try discriminate;
    intros [= <-]; reflexivity.
Qed.

Lemma validate_str_raises j : raises_only parse_error (validate_str j).
Proof. intros e. destruct j; try discriminate; intros [= <-]; reflexivity. Qed.

Lemma validate_opt_str_raises j : raises_only parse_error (validate_opt_str j).
Proof. intros e. destruct j; try discriminate; intros [= <-]; reflexivity. Qed.

Lemma stat_item_raises stat : raises_only parse_error (stat_item stat).
Proof.
  unfold stat_item.
  repeat (apply raises_only_bind; [apply getitem_raises; reflexivity | intros ?]).
  intros e. destruct a0; try discriminate; intros [= <-]; reflexivity.
Qed.

Lemma stats_of_raises items : raises_only parse_error (stats_of items).
Proof.
  induction items as [| stat rest IH]; cbn [stats_of]; [apply raises_only_ret |].
  apply raises_only_bind; [apply stat_item_raises | intros kv].
  apply raises_only_bind; [exact IH | intros kvs]. apply raises_only_ret.
Qed.

Lemma types_of_raises items : raises_only parse_error (types_of items).
Proof.
  induction items as [| t rest IH]; cbn [types_of]; [apply raises_only_ret |].
  apply raises_only_bind.
  { unfold type_item. apply raises_only_bind; [apply getitem_raises; reflexivity |].
    intros ?. apply getitem_raises. reflexivity. }
  intros n. apply raises_only_bind; [exact IH | intros ns]. apply raises_only_ret.
Qed.

Lemma strings_of_raises items : raises_only parse_error (strings_of items).
Proof.
  induction items as [| j rest IH]; cbn [strings_of]; [apply raises_only_ret |].
  destruct j; try (intros e [= <-]; reflexivity).
  apply raises_only_bind; [exact IH | intros ss]. apply raises_only_ret.
Qed.

Lemma sprite_of_raises data : raises_only parse_error (sprite_of data).
Proof.
  unfold sprite_of. apply raises_only_bind; [apply dict_get_raises | intros sprites].
  destruct (json_truthy sprites); [apply dict_get_raises | apply raises_only_ret].
Qed.

Lemma parse_raises lax data : raises_only parse_error (_parse_pokemon_data lax data).
Proof.
  unfold _parse_pokemon_data.
  repeat first
    [ apply raises_only_ret
    | apply raises_only_bind;
      [ first [ apply getitem_raises; reflexivity | apply iter_raises
              | apply raises_only_bind;
                [apply getitem_raises; reflexivity | intros ?; apply iter_raises]
              | apply stats_of_raises | apply types_of_raises
              | apply strings_of_raises | apply sprite_of_raises
              | apply validate_int_raises | apply validate_str_raises
              | apply validate_opt_str_raises ]
      | intros ? ] ].
Qed.

(** X16: when the parser fails, it raises a [KeyError] for one of the
    member names it reads ([stats], [types], [id], [name] of the payload,
    [stat], [base_stat], [type] of an item), a [TypeError], an
    [AttributeError] or a validation error, and nothing else; and each of
    these is raised for some payload. *)
Theorem parse_error_kinds (lax : json -> option Z) :
  (forall data e, _parse_pokemon_data lax data = inl e -> parse_error e = true)
  /\ Forall (fun e => exists data, _parse_pokemon_data lax data = inl e)
       [KeyError "stats"; KeyError "types"; KeyError "id"; KeyError "name";
        KeyError "stat"; KeyError "base_stat"; KeyError "type";
        TypeError; AttributeError; ValidationError].
Proof.
  split; [intros data; apply parse_raises |].
  repeat apply Forall_cons_2; [.. | apply Forall_nil_2].
  - exists (JDict []). reflexivity.
  - exists (JDict [("stats", JList [])]). reflexivity.
  - exists (JDict [("stats", JList []); ("types", JList [])]). reflexivity.
  - exists (JDict [("stats", JList []); ("types", JList []); ("id", JInt 1)]). reflexivity.
  - exists (JDict [("stats", JList [JDict [("base_stat", JInt 1)]])]). reflexivity.
  - exists (JDict [("stats", JList [JDict [("stat", JDict [("name", JStr "hp")])]])]).
    reflexivity.
  - exists (JDict [("stats", JList []); ("types", JList [JDict []])]). reflexivity.
  - exists JNull. reflexivity.
  - exists (JDict [("stats", JList []); ("types", JList []);
                   ("sprites", JList [JInt 1])]). reflexivity.
  - exists (JDict [("stats", JList []); ("types", JList []);
                   ("id", JNull); ("name", JStr "mew")]). reflexivity.
Qed.

Lemma parse_error_kinds_witness :
  _parse_pokemon_data Fixtures.mock_coerce_int
    (JDict [("stats", JList [JDict [("stat", JDict [])]])])
  = inl (KeyError "name")
  /\ parse_error (KeyError "name") = true.
Proof.
  assert (H : _parse_pokemon_data Fixtures.mock_coerce_int
                (JDict [("stats", JList [JDict [("stat", JDict [])]])])
              = inl (KeyError "name")) by reflexivity.
  split; [exact H | exact (proj1 (parse_error_kinds _) _ _ H)].
Defined.

End ParseProps.

(** ** Further properties of the external fetch *)

Module FetchMore.

Import Json Exceptions World PokeAPI CacheOps Fetch FetchSpec.
Import CacheProps.
Local Open Scope Q_scope.

Lemma requests_app l1 l2 : requests (l1 ++ l2) = (requests l1 ++ requests l2)%list.
Proof. unfold requests. apply flat_map_app. Qed.

(** The cache lookup reads the clock at most, and leaves the store alone. *)
Lemma cache_get_effects key w :
  db (PokemonCache_get key w).2 = db w
  /\ requests (events (PokemonCache_get key w).2) = requests (events w)
  /\ ttl (cache (PokemonCache_get key w).2) = ttl (cache w).
Proof.
  unfold PokemonCache_get. run_M.
  destruct (_cache (cache w) !! key) as [entry |]; [| repeat split].
  cbn [cache emit]. destruct (Py.Qgtb _ _); cbn; rewrite requests_app, app_nil_r;
    repeat split.
Qed.

Lemma cache_set_effects key value w :
  db (PokemonCache_set key value w).2 = db w
  /\ requests (events (PokemonCache_set key value w).2) = requests (events w).
Proof.
  unfold PokemonCache_set. run_M. cbn. rewrite requests_app, app_nil_r. split; reflexivity.
Qed.

(** The fetch leaves the store and the environment alone. *)
Lemma get_pokemon_db (self : PokeAPIClient) (name : string) (w : World) :
  db (get_pokemon self name w).2 = db w
  /\ coerce_int (get_pokemon self name w).2 = coerce_int w.
Proof.
  rewrite FetchProps.get_pokemon_run.
  destruct (FetchProps.cache_get_returns (normalize name) w) as (o & w1 & Hget).
  destruct (cache_get_effects (normalize name) w) as (Hdb & _).
  pose proof (FetchProps.cache_get_coerce (normalize name) w) as Hc.
  rewrite Hget in Hdb, Hc |- *. cbn [snd] in Hdb, Hc.
  assert (H1 : db w1 = db w /\ coerce_int w1 = coerce_int w) by (split; assumption).
  destruct (not_none o) as [cached |]; [exact H1 |]. cbv zeta.
  destruct (remote w1 _ _) as [status_code body | text | text]; [| exact H1 ..].
  destruct (status_code =? 404)%Z; [exact H1 |].
  destruct (is_success status_code); [| exact H1].
  destruct body as [data |]; [| exact H1]. cbn [snd].
  unfold PokemonCache_set. run_M. exact H1.
Qed.

(** X17: [get_pokemon] never touches the store and sends at most one
    request: none when the cache has a live entry for the name that is not
    [null], or when the client refuses the URL; otherwise exactly one, to
    [{base_url}/pokemon/{normalized name}]. *)
Theorem get_pokemon_effects (self : PokeAPIClient) (name : string) (w : World) :
  db (get_pokemon self name w).2 = db w
  /\ requests (events (get_pokemon self name w).2)
     = (requests (events w)
        ++ match source_answer self name w with
           | Some (Malformed _) | None => []
           | Some _ => [pokemon_url self name]
           end)%list.
Proof.
  split; [apply get_pokemon_db |].
  unfold source_answer. rewrite FetchProps.get_pokemon_run.
  destruct (FetchProps.cache_get_returns (normalize name) w) as (o & w1 & Hget).
  destruct (cache_get_effects (normalize name) w) as (_ & Hreq & _).
  rewrite Hget in Hreq |- *. cbn [snd] in Hreq.
  destruct (not_none o) as [cached |].
  - cbn [snd]. rewrite app_nil_r. exact Hreq.
  - cbv zeta. fold (pokemon_url self name).
    assert (Hemit : requests (events (emit (HttpGet (pokemon_url self name)) w1))
                    = (requests (events w) ++ [pokemon_url self name])%list).
    { cbn. rewrite requests_app, Hreq. reflexivity. }
    destruct (remote w1 _ _) as [status_code body | text | text];
      [| exact Hemit | cbn [snd]; rewrite app_nil_r; exact Hreq].
    destruct (status_code =? 404)%Z; [exact Hemit |].
    destruct (is_success status_code); [| exact Hemit].
    destruct body as [data |]; [| exact Hemit]. cbn [snd].
    rewrite (proj2 (cache_set_effects (normalize name) data
                      (emit (HttpGet (pokemon_url self name)) w1))).
    exact Hemit.
Qed.

(** The entry that a fetch stores for a success response. *)
Lemma fetched_entry (self : PokeAPIClient) (name : string) (w : World)
    (status_code : Z) (payload : json) :
  source_answer self name w = Some (Response status_code (Some payload)) ->
  is_success status_code = true ->
  _cache (cache (get_pokemon self name w).2) !! normalize name
  = Some {| data := payload;
            expires_at := now (world_at_store self name w) + inject_Z (ttl (cache w)) |}
  /\ (get_pokemon self name w).1 = _parse_pokemon_data (coerce_int w) payload.
Proof.
  unfold source_answer, world_at_store. rewrite FetchProps.get_pokemon_run.
  destruct (FetchProps.cache_get_returns (normalize name) w) as (o & w1 & Hget).
  destruct (cache_get_effects (normalize name) w) as (_ & _ & Httl).
  rewrite Hget in Httl |- *. cbn [snd] in Httl |- *.
  destruct (not_none o) as [cached |]; [discriminate |]. cbv zeta.
  fold (pokemon_url self name).
  intros [= Hanswer] Hsucc. rewrite Hanswer.
  assert (H404 : (status_code =? 404)%Z = false).
  { destruct (status_code =? 404)%Z eqn:E; [| reflexivity].
    apply Z.eqb_eq in E. subst. discriminate Hsucc. }
  rewrite H404, Hsucc. cbn [snd fst]. rewrite set_entry. cbn [cache emit].
  rewrite Httl. split; reflexivity.
Qed.

(** X18: the body of a success response is stored in the cache under the
    normalized name before it is parsed, with the expiry "time of storing
    + ttl", whether or not it then parses; after any other answer (404,
    another non-success status, a body that is not JSON, a transport
    failure) the cache is as the lookup left it: failures are not cached. *)
Theorem fetched_payload_cached (self : PokeAPIClient) (name : string) (w : World) :
  (forall status_code data,
      source_answer self name w = Some (Response status_code (Some data)) ->
      is_success status_code = true ->
      _cache (cache (get_pokemon self name w).2) !! normalize name
      = Some {| data := data;
                expires_at := now (world_at_store self name w)
                              + inject_Z (ttl (cache w)) |})
  /\ (forall answer,
        source_answer self name w = Some answer ->
        (forall status_code data,
            answer = Response status_code (Some data) -> is_success status_code = false) ->
        cache (get_pokemon self name w).2 = cache (PokemonCache_get (normalize name) w).2).
Proof.
  split.
  - intros status_code data Hanswer Hsucc.
    exact (proj1 (fetched_entry self name w status_code data Hanswer Hsucc)).
  - unfold source_answer. rewrite FetchProps.get_pokemon_run.
    destruct (FetchProps.cache_get_returns (normalize name) w) as (o & w1 & Hget).
    rewrite Hget. cbn [snd].
    destruct (not_none o) as [cached |]; [discriminate |]. cbv zeta.
    intros answer [= Hanswer] Hfail. rewrite Hanswer.
    destruct answer as [status_code body | text | text]; [| reflexivity ..].
    destruct (status_code =? 404)%Z; [reflexivity |].
    destruct (is_success status_code) eqn:Hsucc; [| reflexivity].
    destruct body as [data |]; [| reflexivity].
    rewrite (Hfail status_code data eq_refl) in Hsucc. discriminate Hsucc.
Qed.

Lemma fetched_payload_cached_witness :
  source_answer Fixtures.client "Pikachu" (Fixtures.fresh_world 3600)
  = Some (Response 200 (Some Fixtures.mock_pikachu_data))
  /\ data <$> _cache (cache (get_pokemon Fixtures.client "Pikachu"
                              (Fixtures.fresh_world 3600)).2) !! "pikachu"
     = Some Fixtures.mock_pikachu_data
  /\ cache (get_pokemon Fixtures.client "fakemon" (Fixtures.fresh_world 3600)).2
     = cache (Fixtures.fresh_world 3600).
Proof.
  assert (H1 : source_answer Fixtures.client "Pikachu" (Fixtures.fresh_world 3600)
               = Some (Response 200 (Some Fixtures.mock_pikachu_data))) by reflexivity.
  split; [exact H1 |]. split.
  - change "pikachu" with (normalize "Pikachu").
    rewrite (proj1 (fetched_payload_cached Fixtures.client "Pikachu"
                      (Fixtures.fresh_world 3600)) _ _ H1 eq_refl).
    reflexivity.
  - apply (proj2 (fetched_payload_cached Fixtures.client "fakemon"
                    (Fixtures.fresh_world 3600)) (Response 404 None) eq_refl).
    intros status_code data H. discriminate H.
Defined.

(** X19: after a fetch that stored a payload other than [null], a second
    [get_pokemon] for the name, made while the entry is live, gives the
    same result without any request: it only reads the clock. *)
Theorem repeated_fetch_from_cache (self : PokeAPIClient) (name : string) (w : World)
    (status_code : Z) (payload : json) :
  source_answer self name w = Some (Response status_code (Some payload)) ->
  is_success status_code = true ->
  payload <> JNull ->
  now (get_pokemon self name w).2 - now (world_at_store self name w)
  <= inject_Z (ttl (cache w)) ->
  get_pokemon self name (get_pokemon self name w).2
  = ((get_pokemon self name w).1, emit ClockRead (get_pokemon self name w).2).
Proof.
  intros Hanswer Hsucc Hnull Hlive.
  destruct (fetched_entry self name w status_code payload Hanswer Hsucc) as [Hentry Hfirst].
  pose proof (proj2 (get_pokemon_db self name w)) as Hc.
  set (w' := (get_pokemon self name w).2) in *.
  rewrite Hfirst, <- Hc.
  apply (FetchProps.get_pokemon_cached self name w' (Some payload)).
  - rewrite (get_live (normalize name) w' _ Hentry) by (cbn [expires_at]; lra).
    reflexivity.
  - destruct payload; try reflexivity. destruct (Hnull eq_refl).
Qed.

Lemma repeated_fetch_from_cache_witness :
  let w := Fixtures.fresh_world 3600 in
  let w' := (get_pokemon Fixtures.client "pikachu" w).2 in
  is_success 200 = true
  /\ (get_pokemon Fixtures.client "pikachu" w').1 = (get_pokemon Fixtures.client "pikachu" w).1
  /\ requests (events (get_pokemon Fixtures.client "pikachu" w').2) = requests (events w').
Proof.
  intros w w'. split; [reflexivity |].
  assert (H : get_pokemon Fixtures.client "pikachu" w'
              = ((get_pokemon Fixtures.client "pikachu" w).1, emit ClockRead w')).
  { apply (repeated_fetch_from_cache Fixtures.client "pikachu" w 200
             Fixtures.mock_pikachu_data); [reflexivity | reflexivity | discriminate |].
    vm_compute. discriminate. }
  rewrite H. split; [reflexivity |]. cbn [snd emit events].
  rewrite requests_app, app_nil_r. reflexivity.
Defined.

End FetchMore.

(** ** The store: constraints, persistence and lookups *)

Module StoreProps.

Import Json Exceptions World PokeAPI Services Queries Fetch FetchSpec StoreSpec.
Import CacheProps.

(** A query that no row matches finds nothing. *)
Lemma filter_none {A : Type} (P : A -> Prop) `{forall x, Decision (P x)} (l : list A) :
  (forall x, x ∈ l -> ~ P x) -> filter P l = [].
Proof.
  induction l as [| x l IH]; intros Hnone; [reflexivity |].
  rewrite filter_cons_False by (apply Hnone; left).
  apply IH. intros y Hy. apply Hnone. right. exact Hy.
Qed.

(** A query on a unique key finds the one row that has it. *)
Lemma filter_unique_key {A K : Type} (key : A -> K) (P : A -> Prop)
    `{forall x, Decision (P x)} (k : K) (l : list A) (p : A) :
  (forall x, P x <-> key x = k) ->
  NoDup (key <$> l) -> p ∈ l -> key p = k -> filter P l = [p].
Proof.
  intros HP. induction l as [| x l IH]; intros Hnodup Hin Hkey.
  - inversion Hin.
  - rewrite fmap_cons in Hnodup. apply NoDup_cons in Hnodup as [Hx Hnodup].
    apply elem_of_cons in Hin as [-> | Hin].
    + rewrite filter_cons_True by (apply HP; exact Hkey).
      f_equal. apply filter_none. intros y Hy HPy. apply Hx.
      apply HP in HPy. rewrite Hkey, <- HPy. apply list_elem_of_fmap. exists y. split; [reflexivity | exact Hy].
    + rewrite filter_cons_False.
      * apply IH; assumption.
      * intros HPx. apply Hx. apply HP in HPx. rewrite HPx, <- Hkey.
        apply list_elem_of_fmap. exists p. split; [reflexivity | exact Hin].
Qed.

Lemma adds_pokemon_refl d : adds_pokemon d d [].
Proof. unfold adds_pokemon. rewrite app_nil_r. repeat split. Qed.

(** *** Creating a row *)

Lemma create_pokemon_cases (data : Schemas.PokemonCreate) (w : World) :
  ((_create_pokemon data w).1 = inl IntegrityError
   /\ db (_create_pokemon data w).2 = db w)
  \/ exists p,
       (_create_pokemon data w).1 = inr p
       /\ Battle.id p = next_pokemon_id (db w)
       /\ (Battle.name p ∉ (Battle.name <$> pokemon_rows (db w)))
       /\ (Battle.pokeapi_id p ∉ (Battle.pokeapi_id <$> pokemon_rows (db w)))
       /\ adds_pokemon (db w) (db (_create_pokemon data w).2) [p]
       /\ next_pokemon_id (db (_create_pokemon data w).2) = next_pokemon_id (db w) + 1.
Proof.
  unfold _create_pokemon. cbv zeta.
  destruct (existsb _ _) eqn:E.
  - left. split; reflexivity.
  - right. eexists. split; [reflexivity |]. cbn.
    assert (Hnone : forall q, q ∈ pokemon_rows (db w) ->
                    Battle.name q <> Schemas.name data
                    /\ Battle.pokeapi_id q <> Schemas.pokeapi_id data).
    { intros q Hq. destruct (String.eqb (Battle.name q) (Schemas.name data)
                             || (Battle.pokeapi_id q =? Schemas.pokeapi_id data)) eqn:Eq.
      - assert (existsb (fun p => String.eqb (Battle.name p) (Schemas.name data)
                                  || (Battle.pokeapi_id p =? Schemas.pokeapi_id data))
                  (pokemon_rows (db w)) = true) as Hex.
        { apply List.existsb_exists. exists q. split; [apply list_elem_of_In, Hq | exact Eq]. }
        rewrite Hex in E. discriminate E.
      - apply orb_false_iff in Eq as [Hn Hi].
        apply String.eqb_neq in Hn. apply Z.eqb_neq in Hi. split; assumption. }
    split; [reflexivity |].
    split; [| split; [| split; [repeat split | reflexivity]]].
    + intros (q & Hq & Hin)%list_elem_of_fmap.
      apply (proj1 (Hnone q Hin)). symmetry. exact Hq.
    + intros (q & Hq & Hin)%list_elem_of_fmap.
      apply (proj2 (Hnone q Hin)). symmetry. exact Hq.
Qed.

(** *** The lookup by name *)

Lemma get_pokemon_raises (self : PokeAPIClient) (name : string) (w : World) (e : exn) :
  (get_pokemon self name w).1 = inl e -> lookup_error e = true.
Proof.
  assert (Hparse : forall data,
             _parse_pokemon_data (coerce_int w) data = inl e -> lookup_error e = true).
  { intros data H. unfold lookup_error. rewrite (ParseProps.parse_raises _ data e H).
    reflexivity. }
  rewrite FetchProps.get_pokemon_run.
  destruct (FetchProps.cache_get_returns (normalize name) w) as (o & w1 & Hget).
  rewrite Hget.
  destruct (not_none o) as [cached |]; [apply Hparse |]. cbv zeta.
  destruct (remote w1 _ _) as [status_code body | text | text];
    [| intros [= <-]; reflexivity ..].
  destruct (status_code =? 404); [intros [= <-]; reflexivity |].
  destruct (is_success status_code); [| intros [= <-]; reflexivity].
  destruct body as [data |]; [| intros [= <-]; reflexivity].
  apply Hparse.
Qed.

Lemma get_or_fetch_unfold (self : PokeAPIClient) (name : string) (w : World) :
  get_or_fetch_pokemon self name w
  = let w0 := emit (DbSelect (normalize name)) w in
    match scalar_one_or_none
            (filter (fun p => String.eqb (Battle.name p) (normalize name) = true)
               (pokemon_rows (db w))) with
    | inl e => (inl e, w0)
    | inr (Some p) => (inr p, w0)
    | inr None =>
        match get_pokemon self (normalize name) w0 with
        | (inl e, w1) => (inl e, w1)
        | (inr pokemon_data, w1) => _create_pokemon pokemon_data w1
        end
    end.
Proof.
  unfold get_or_fetch_pokemon, select_pokemon_by_name. fold (normalize name). run_M.
  destruct (scalar_one_or_none _) as [e | [p |]]; try reflexivity.
  cbv zeta. destruct (get_pokemon _ _ _) as [[e | pokemon_data] w1]; [reflexivity |].
  destruct (_create_pokemon pokemon_data w1) as [[e | p] w2]; reflexivity.
Qed.

Lemma get_or_fetch_cases (self : PokeAPIClient) (name : string) (w : World) :
  (exists p,
      get_or_fetch_pokemon self name w = (inr p, emit (DbSelect (normalize name)) w)
      /\ p ∈ pokemon_rows (db w) /\ Battle.name p = normalize name)
  \/ (exists e,
        (get_or_fetch_pokemon self name w).1 = inl e
        /\ db (get_or_fetch_pokemon self name w).2 = db w
        /\ (lookup_error e = true
            \/ e = MultipleResultsFound /\ ~ NoDup (Battle.name <$> pokemon_rows (db w))))
  \/ (exists p,
        (get_or_fetch_pokemon self name w).1 = inr p
        /\ Battle.id p = next_pokemon_id (db w)
        /\ (Battle.name p ∉ (Battle.name <$> pokemon_rows (db w)))
        /\ (Battle.pokeapi_id p ∉ (Battle.pokeapi_id <$> pokemon_rows (db w)))
        /\ adds_pokemon (db w) (db (get_or_fetch_pokemon self name w).2) [p]
        /\ next_pokemon_id (db (get_or_fetch_pokemon self name w).2)
           = next_pokemon_id (db w) + 1).
Proof.
  rewrite get_or_fetch_unfold. cbv zeta.
  set (found := filter (fun p => String.eqb (Battle.name p) (normalize name) = true)
                  (pokemon_rows (db w))).
  assert (Hfound : forall p, p ∈ found ->
                   p ∈ pokemon_rows (db w) /\ Battle.name p = normalize name).
  { intros p [Hname Hin]%list_elem_of_filter. split; [exact Hin |].
    apply String.eqb_eq, Hname. }
  destruct found as [| p [| q rest]] eqn:E; cbn [scalar_one_or_none].
  - (* no row: fetch, then create *)
    set (w0 := emit (DbSelect (normalize name)) w).
    pose proof (get_pokemon_raises self (normalize name) w0) as Hraises.
    pose proof (proj1 (FetchMore.get_pokemon_db self (normalize name) w0)) as Hdb.
    destruct (get_pokemon self (normalize name) w0) as [[e | pokemon_data] w1].
    + right. left. exists e. cbn [fst snd] in *.
      split; [reflexivity |]. split; [exact Hdb |]. left. apply Hraises. reflexivity.
    + cbn [snd] in Hdb.
      destruct (create_pokemon_cases pokemon_data w1) as [[Herr Hsame] | (p & Hp & Hrest)].
      * right. left. exists IntegrityError.
        destruct (_create_pokemon pokemon_data w1) as [[e | p] w2]; cbn [fst snd] in *;
          [| discriminate Herr].
        injection Herr as ->. split; [reflexivity |]. split; [rewrite Hsame, Hdb; reflexivity |].
        left. reflexivity.
      * right. right. exists p.
        destruct (_create_pokemon pokemon_data w1) as [[e | p'] w2]; cbn [fst snd] in *;
          [discriminate Hp |].
        injection Hp as ->.
        rewrite Hdb in Hrest. split; [reflexivity | exact Hrest].
  - left. exists p. split; [reflexivity |]. apply Hfound. left.
  - right. left. exists MultipleResultsFound. cbn [fst snd].
    split; [reflexivity |]. split; [reflexivity |]. right. split; [reflexivity |].
    intros Hnodup.
    destruct (Hfound p) as [Hp Hpname]; [left |].
    pose proof (filter_unique_key Battle.name
                  (fun p => String.eqb (Battle.name p) (normalize name) = true)
                  (normalize name) (pokemon_rows (db w)) p
                  (fun x => String.eqb_eq _ _) Hnodup Hp Hpname) as Hone.
    fold found in Hone. rewrite E in Hone. discriminate Hone.
Qed.

(** *** The constraints of the store *)

Lemma linked_mono (d d' : Database) (b : Battle) :
  (forall i, i ∈ pokemon_ids d -> i ∈ pokemon_ids d') -> linked d b -> linked d' b.
Proof.
  intros Hsub (H1 & H2 & H3). unfold linked.
  split; [apply Hsub, H1 |]. split; [apply Hsub, H2 |].
  destruct (winner_id b); [apply Hsub, H3 | exact I].
Qed.

Lemma store_ok_add_pokemon (d d' : Database) (p : Battle.Pokemon) :
  store_ok d -> adds_pokemon d d' [p] ->
  Battle.id p = next_pokemon_id d -> next_pokemon_id d' = next_pokemon_id d + 1 ->
  Battle.name p ∉ (Battle.name <$> pokemon_rows d) ->
  Battle.pokeapi_id p ∉ (Battle.pokeapi_id <$> pokemon_rows d) ->
  store_ok d'.
Proof.
  intros (Hnames & Hpokeapi & Hids & Hbelow & Hbids & Hbbelow & Hlinked)
         (Hrows & Hbattles & Hnext_battle) Hid Hnext Hname Hpokeapi_id.
  assert (Hfresh : Battle.id p ∉ pokemon_ids d).
  { intros Hin. rewrite Forall_forall in Hbelow. specialize (Hbelow _ Hin). lia. }
  unfold store_ok, pokemon_ids, battle_ids in *.
  rewrite Hrows, Hbattles, Hnext_battle, Hnext, !fmap_app. cbn [fmap list_fmap].
  assert (Hsnoc : forall (A : Type) (l : list A) (x : A),
             NoDup l -> x ∉ l -> NoDup (l ++ [x])).
  { intros A l x Hl Hx. apply NoDup_app. split; [exact Hl |].
    split; [| apply NoDup_singleton].
    intros y Hy ->%list_elem_of_singleton. exact (Hx Hy). }
  split; [apply Hsnoc; assumption |].
  split; [apply Hsnoc; assumption |].
  split; [apply Hsnoc; assumption |].
  split.
  { apply Forall_app. split.
    - eapply Forall_impl; [exact Hbelow |]. cbn. intros; lia.
    - apply Forall_singleton. lia. }
  split; [exact Hbids |]. split; [exact Hbbelow |].
  eapply Forall_impl; [exact Hlinked |]. intros b. apply linked_mono.
  intros i Hi. unfold pokemon_ids. rewrite Hrows, fmap_app. apply elem_of_app. left. exact Hi.
Qed.

Lemma store_ok_save_battle (pokemon1 pokemon2 : Battle.Pokemon)
    (result : Battle.BattleResult) (w : World) :
  store_ok (db w) ->
  pokemon1 ∈ pokemon_rows (db w) -> pokemon2 ∈ pokemon_rows (db w) ->
  (Battle.winner result = None \/ Battle.winner result = Some pokemon1
   \/ Battle.winner result = Some pokemon2) ->
  store_ok (db (save_battle pokemon1 pokemon2 result w).2).
Proof.
  intros (Hnames & Hpokeapi & Hids & Hbelow & Hbids & Hbbelow & Hlinked) H1 H2 Hwinner.
  assert (Hfresh : next_battle_id (db w) ∉ battle_ids (db w)).
  { intros Hin. rewrite Forall_forall in Hbbelow. specialize (Hbbelow _ Hin). lia. }
  assert (Hin : forall p, p ∈ pokemon_rows (db w) -> Battle.id p ∈ pokemon_ids (db w)).
  { intros p Hp. apply list_elem_of_fmap. exists p. split; [reflexivity | exact Hp]. }
  unfold save_battle, store_ok, pokemon_ids, battle_ids in *. cbn.
  rewrite !fmap_app. cbn [fmap list_fmap].
  split; [exact Hnames |]. split; [exact Hpokeapi |]. split; [exact Hids |].
  split; [exact Hbelow |].
  split.
  { apply NoDup_app. split; [exact Hbids |]. split; [| apply NoDup_singleton].
    intros y Hy ->%list_elem_of_singleton. exact (Hfresh Hy). }
  split.
  { apply Forall_app. split.
    - eapply Forall_impl; [exact Hbbelow |]. cbn. intros; lia.
    - apply Forall_singleton. cbn. lia. }
  apply Forall_app. split.
  - eapply Forall_impl; [exact Hlinked |]. intros b. apply linked_mono. intros i Hi. exact Hi.
  - apply Forall_singleton. unfold linked, make_battle, pokemon_ids. cbn.
    split; [apply Hin, H1 |]. split; [apply Hin, H2 |].
    destruct Hwinner as [-> | [-> | ->]]; [exact I | apply Hin, H1 | apply Hin, H2].
Qed.

(** What a lookup leaves behind, whatever its outcome. *)
Lemma get_or_fetch_summary (self : PokeAPIClient) (name : string) (w : World) :
  exists new,
    adds_pokemon (db w) (db (get_or_fetch_pokemon self name w).2) new
    /\ (length new <= 1)%nat
    /\ next_pokemon_id (db (get_or_fetch_pokemon self name w).2)
       = next_pokemon_id (db w) + Z.of_nat (length new)
    /\ (store_ok (db w) -> store_ok (db (get_or_fetch_pokemon self name w).2))
    /\ (forall p, (get_or_fetch_pokemon self name w).1 = inr p ->
                  p ∈ pokemon_rows (db (get_or_fetch_pokemon self name w).2))
    /\ (forall e, (get_or_fetch_pokemon self name w).1 = inl e -> new = []).
Proof.
  destruct (get_or_fetch_cases self name w)
    as [(p & Hrun & Hin & _) | [(e & Hrun & Hdb & _) | (p & Hrun & Hid & Hname & Hpokeapi & Hadds & Hnext)]].
  - exists []. rewrite Hrun. cbn [fst snd emit db length].
    split; [apply adds_pokemon_refl |]. split; [lia |]. split; [lia |].
    split; [auto |]. split; [| discriminate]. intros p' [= <-]. exact Hin.
  - exists []. rewrite Hdb, Hrun. cbn [length].
    split; [apply adds_pokemon_refl |]. split; [lia |]. split; [lia |].
    split; [auto |]. split; [discriminate | reflexivity].
  - exists [p]. rewrite Hrun, Hnext. cbn [length].
    split; [exact Hadds |]. split; [lia |]. split; [lia |].
    split; [intros Hok; exact (store_ok_add_pokemon _ _ p Hok Hadds Hid Hnext Hname Hpokeapi) |].
    split; [| discriminate]. intros p' [= <-].
    destruct Hadds as (Hrows & _). rewrite Hrows. apply elem_of_app. right. left.
Qed.

(** *** The orchestration, step by step *)

Lemma execute_battle_unfold (self : PokeAPIClient) (pokemon1_name pokemon2_name : string)
    (w : World) :
  BattleService_execute_battle self pokemon1_name pokemon2_name w
  = if String.eqb (normalize pokemon1_name) (normalize pokemon2_name)
    then (inl (Domain (SamePokemonError (normalize pokemon1_name))), w)
    else
      match get_or_fetch_pokemon self (normalize pokemon1_name) w with
      | (inl e, w1) => (inl e, w1)
      | (inr pokemon1, w1) =>
          match get_or_fetch_pokemon self (normalize pokemon2_name) w1 with
          | (inl e, w2) => (inl e, w2)
          | (inr pokemon2, w2) =>
              match Battle.execute_battle pokemon1 pokemon2 with
              | Some result => save_battle pokemon1 pokemon2 result w2
              | None => (inl ZeroDivisionError, w2)
              end
          end
      end.
Proof.
  unfold BattleService_execute_battle.
  fold (normalize pokemon1_name) (normalize pokemon2_name).
  destruct (String.eqb _ _); [reflexivity |]. run_M.
  destruct (get_or_fetch_pokemon self (normalize pokemon1_name) w) as [[e | pokemon1] w1];
    [reflexivity |].
  destruct (get_or_fetch_pokemon self (normalize pokemon2_name) w1) as [[e | pokemon2] w2];
    [reflexivity |].
  destruct (Battle.execute_battle pokemon1 pokemon2); reflexivity.
Qed.

(** What one contest leaves behind, whatever its outcome. *)
Lemma execute_battle_summary (self : PokeAPIClient) (pokemon1_name pokemon2_name : string)
    (w : World) :
  let run := BattleService_execute_battle self pokemon1_name pokemon2_name w in
  exists new,
    pokemon_rows (db run.2) = (pokemon_rows (db w) ++ new)%list
    /\ (length new <= 2)%nat
    /\ next_pokemon_id (db w) <= next_pokemon_id (db run.2)
    /\ next_battle_id (db w) <= next_battle_id (db run.2)
    /\ (store_ok (db w) -> store_ok (db run.2))
    /\ (forall e, run.1 = inl e ->
          battle_rows (db run.2) = battle_rows (db w)
          /\ (e = Domain (SamePokemonError (normalize pokemon1_name))
                /\ normalize pokemon1_name = normalize pokemon2_name /\ run.2 = w
              \/ normalize pokemon1_name <> normalize pokemon2_name
                 /\ (lookup_error e = true
                     \/ e = MultipleResultsFound /\ ~ store_ok (db w))))
    /\ (forall b, run.1 = inr b ->
          battle_rows (db run.2) = (battle_rows (db w) ++ [b])%list
          /\ battle_id b = next_battle_id (db w)
          /\ next_battle_id (db run.2) = next_battle_id (db w) + 1
          /\ pokemon1 b ∈ pokemon_rows (db run.2)
          /\ pokemon2 b ∈ pokemon_rows (db run.2)
          /\ pokemon1_id b = Battle.id (pokemon1 b)
          /\ pokemon2_id b = Battle.id (pokemon2 b)
          /\ winner_id b = Battle.id <$> winner b
          /\ (winner b = None \/ winner b = Some (pokemon1 b) \/ winner b = Some (pokemon2 b))).
Proof.
  cbv zeta. rewrite execute_battle_unfold.
  destruct (String.eqb _ _) eqn:Esame.
  { exists []. cbn [fst snd]. rewrite app_nil_r.
    split; [reflexivity |]. split; [cbn; lia |]. split; [lia |]. split; [lia |].
    split; [auto |]. split; [| discriminate].
    intros e [= <-]. split; [reflexivity |]. left.
    apply String.eqb_eq in Esame. auto. }
  assert (Hne : normalize pokemon1_name <> normalize pokemon2_name)
    by (apply String.eqb_neq; exact Esame).
  destruct (get_or_fetch_summary self (normalize pokemon1_name) w)
    as (new1 & (Hrows1 & Hbattles1 & Hnb1) & Hlen1 & Hnext1 & Hok1 & Hin1 & _).
  destruct (get_or_fetch_cases self (normalize pokemon1_name) w)
    as [(p & Hrun1 & _) | [(e1 & Hrun1 & _ & Herr1) | (p & Hrun1 & _)]].
  all: destruct (get_or_fetch_pokemon self (normalize pokemon1_name) w)
         as [[e | pokemon1] w1]; cbn [fst snd] in *; try discriminate Hrun1.
  2: { (* the first lookup fails *)
       injection Hrun1 as ->. exists new1.
       split; [exact Hrows1 |]. split; [lia |]. split; [lia |]. split; [lia |].
       split; [exact Hok1 |]. split; [| discriminate].
       intros e [= <-]. split; [exact Hbattles1 |]. right. split; [exact Hne |].
       destruct Herr1 as [Herr1 | [-> Hdup]]; [left; exact Herr1 |].
       right. split; [reflexivity |]. intros (Hnames & _). exact (Hdup Hnames). }
  all: clear Hrun1 p.
  all: destruct (get_or_fetch_summary self (normalize pokemon2_name) w1)
         as (new2 & (Hrows2 & Hbattles2 & Hnb2) & Hlen2 & Hnext2 & Hok2 & Hin2 & _).
  all: destruct (get_or_fetch_cases self (normalize pokemon2_name) w1)
         as [(p & Hrun2 & _) | [(e2 & Hrun2 & _ & Herr2) | (p & Hrun2 & _)]].
  all: destruct (get_or_fetch_pokemon self (normalize pokemon2_name) w1)
         as [[e | pokemon2] w2]; cbn [fst snd] in *; try discriminate Hrun2.
  all: exists (new1 ++ new2)%list; rewrite length_app.
  all: assert (Hrows : pokemon_rows (db w2) = (pokemon_rows (db w) ++ new1 ++ new2)%list)
         by (rewrite Hrows2, Hrows1, app_assoc; reflexivity).
  2, 5: (* the second lookup fails *)
    injection Hrun2 as ->;
    (split; [exact Hrows |]); (split; [lia |]); (split; [lia |]); (split; [lia |]);
    (split; [auto |]); (split; [| discriminate]);
    intros e [= <-]; (split; [congruence |]); right; (split; [exact Hne |]);
    destruct Herr2 as [Herr2 | [-> Hdup]]; [left; exact Herr2 |];
    right; (split; [reflexivity |]); intros Hok; apply Hok1 in Hok;
    destruct Hok as (Hnames & _); exact (Hdup Hnames).
  all: clear Hrun2 p.
  all: destruct (ServicesProps.result_invariant pokemon1 pokemon2)
         as (result & Hresult & _ & Hwinner); rewrite Hresult.
  all: assert (Hp1 : pokemon1 ∈ pokemon_rows (db w2))
         by (rewrite Hrows2; apply elem_of_app; left; apply Hin1; reflexivity).
  all: assert (Hp2 : pokemon2 ∈ pokemon_rows (db w2)) by (apply Hin2; reflexivity).
  all: split; [exact Hrows |].
  all: split; [lia |].
  all: split; [cbn; lia |].
  all: split; [cbn; lia |].
  all: split; [intros Hok; apply store_ok_save_battle; auto |].
  all: split; [discriminate |].
  all: intros b [= <-]; unfold save_battle; cbn.
  all: split; [congruence |].
  all: split; [congruence |].
  all: split; [lia |].
  all: split; [exact Hp1 |].
  all: split; [exact Hp2 |].
  all: split; [reflexivity |].
  all: split; [reflexivity |].
  all: split; [destruct (Battle.winner result); reflexivity | exact Hwinner].
Qed.

Lemma get_or_fetch_raises (self : PokeAPIClient) (name : string) (w : World) (e : exn) :
  store_ok (db w) ->
  (get_or_fetch_pokemon self name w).1 = inl e ->
  lookup_error e = true /\ db (get_or_fetch_pokemon self name w).2 = db w.
Proof.
  intros Hok He.
  destruct (get_or_fetch_cases self name w)
    as [(p & Hrun & _) | [(e' & Hrun & Hdb & Herr) | (p & Hrun & _)]];
    rewrite Hrun in He; try discriminate He.
  injection He as ->. split; [| exact Hdb].
  destruct Herr as [Herr | [_ Hdup]]; [exact Herr |].
  destruct Hok as (Hnames & _). destruct (Hdup Hnames).
Qed.

(** X20: a name that the store holds is served from the store alone: when
    names are unique in the [pokemon] table and a row has the normalized
    name, the lookup returns that row after one query by the normalized
    name, with no clock reading, no request and no change of the cache or
    the store. *)
Theorem stored_name_served_from_store (self : PokeAPIClient) (name : string) (w : World)
    (p : Battle.Pokemon) :
  NoDup (Battle.name <$> pokemon_rows (db w)) ->
  p ∈ pokemon_rows (db w) ->
  Battle.name p = normalize name ->
  get_or_fetch_pokemon self name w = (inr p, emit (DbSelect (normalize name)) w).
Proof.
  intros Hnodup Hin Hname. rewrite get_or_fetch_unfold. cbv zeta.
  rewrite (filter_unique_key Battle.name _ (normalize name) _ p
             (fun x => String.eqb_eq _ _) Hnodup Hin Hname).
  reflexivity.
Qed.

Lemma stored_name_served_from_store_witness :
  get_or_fetch_pokemon Fixtures.client "  Charizard " (stocked_world 3600)
  = (inr Fixtures.charizard, emit (DbSelect "charizard") (stocked_world 3600)).
Proof.
  apply (stored_name_served_from_store Fixtures.client "  Charizard " (stocked_world 3600)
           Fixtures.charizard).
  - compute_done.
  - right. left.
  - reflexivity.
Defined.





(** X23: what a contest persists.  A contest that returns has added
    exactly one row to the [battles] table, the returned one, under the
    next identifier, and its two participants are rows of the [pokemon]
    table whose identifiers are the row's foreign keys; a contest that
    fails has added no battle.  Either way the [pokemon] table keeps its
    rows and gains at most two. *)
Theorem battle_persisted (self : PokeAPIClient) (pokemon1_name pokemon2_name : string)
    (w : World) :
  let run := BattleService_execute_battle self pokemon1_name pokemon2_name w in
  (exists new, pokemon_rows (db run.2) = (pokemon_rows (db w) ++ new)%list
               /\ (length new <= 2)%nat)
  /\ (forall e, run.1 = inl e -> battle_rows (db run.2) = battle_rows (db w))
  /\ (forall b, run.1 = inr b ->
        battle_rows (db run.2) = (battle_rows (db w) ++ [b])%list
        /\ battle_id b = next_battle_id (db w)
        /\ pokemon1 b ∈ pokemon_rows (db run.2)
        /\ pokemon2 b ∈ pokemon_rows (db run.2)
        /\ pokemon1_id b = Battle.id (pokemon1 b)
        /\ pokemon2_id b = Battle.id (pokemon2 b)
        /\ winner_id b = Battle.id <$> winner b).
Proof.
  cbv zeta.
  destruct (execute_battle_summary self pokemon1_name pokemon2_name w)
    as (new & Hrows & Hlen & _ & _ & _ & Herr & Hret).
  split; [exists new; split; assumption |].
  split; [intros e He; exact (proj1 (Herr e He)) |].
  intros b Hb. destruct (Hret b Hb) as (H1 & H2 & _ & H4 & H5 & H6 & H7 & H8 & _).
  repeat split; assumption.
Qed.

Lemma battle_persisted_witness :
  let run := BattleService_execute_battle Fixtures.client "pikachu" "charizard"
               (stocked_world 3600) in
  exists b, run.1 = inr b
            /\ battle_rows (db run.2) = [b]
            /\ battle_id b = 1
            /\ pokemon1_id b = 1 /\ pokemon2_id b = 2.
Proof.
  cbv zeta.
  destruct (BattleService_execute_battle Fixtures.client "pikachu" "charizard"
              (stocked_world 3600)) as [[e | b] w'] eqn:Hrun.
  - exfalso. revert Hrun. vm_compute. discriminate.
  - exists b. split; [reflexivity |].
    pose proof (proj2 (proj2 (battle_persisted Fixtures.client "pikachu" "charizard"
                                (stocked_world 3600))) b) as H.
    cbv zeta in H. rewrite Hrun in H. cbn [fst snd] in H.
    destruct (H eq_refl) as (Hrows & Hid & _ & _ & H1 & H2 & _).
    split; [exact Hrows |]. split; [exact Hid |].
    revert Hrun. vm_compute. intros [= <- _]. split; reflexivity.
Defined.

(** *** The lookups by identifier *)

Lemma load_pokemon_row (d : Database) (p : Battle.Pokemon) :
  NoDup (pokemon_ids d) -> p ∈ pokemon_rows d -> load_pokemon d (Battle.id p) = Some p.
Proof.
  intros Hnodup Hin. unfold load_pokemon.
  rewrite (filter_unique_key Battle.id _ (Battle.id p) _ p (fun x => iff_refl _) Hnodup Hin
             eq_refl).
  reflexivity.
Qed.









End StoreProps.

(** ** The boundary: replies and the session of a request *)

Module ApiProps.

Import Json Exceptions World PokeAPI Services Queries Api Fetch ParseSpec StoreSpec.
Import StoreProps.

(** The body validates exactly when neither name is empty. *)
Lemma request_valid (pokemon1_name pokemon2_name : string) :
  BattleRequest_valid {| pokemon1_name := pokemon1_name; pokemon2_name := pokemon2_name |}
  = true
  <-> pokemon1_name <> "" /\ pokemon2_name <> "".
Proof.
  unfold BattleRequest_valid. cbn.
  destruct pokemon1_name, pokemon2_name; cbn; split; try discriminate;
    try (intros [H1 H2]; congruence); try (intros _; split; discriminate).
Qed.

Lemma api_create_battle_unfold (pokeapi : PokeAPIClient) (pokemon1_name pokemon2_name : string)
    (w : World) :
  api_create_battle pokeapi pokemon1_name pokemon2_name w
  = if BattleRequest_valid
         {| pokemon1_name := pokemon1_name; pokemon2_name := pokemon2_name |}
    then
      match BattleService_execute_battle pokeapi pokemon1_name pokemon2_name w with
      | (inr battle, w') =>
          (inr {| id := World.battle_id battle;
                  pokemon1 := World.pokemon1 battle;
                  pokemon2 := World.pokemon2 battle;
                  winner := World.winner battle;
                  pokemon1_score := World.pokemon1_score battle;
                  pokemon2_score := World.pokemon2_score battle;
                  battle_log := World.battle_log battle |}, w')
      | (inl (Domain e), w') => (inl (Http (handle_pokemon_error e)), w')
      | (inl e, w') => (inl (Unhandled e), w')
      end
    else (inl RequestValidationError, w).
Proof.
  unfold api_create_battle, create_battle, try_domain. cbv zeta.
  destruct (BattleRequest_valid _); [| reflexivity]. cbn [Api.pokemon1_name Api.pokemon2_name].
  unfold mbind, M_bind, bind, mret, M_ret, ret.
  destruct (BattleService_execute_battle pokeapi pokemon1_name pokemon2_name w)
    as [[e | battle] w']; reflexivity.
Qed.

(** The reply to an error of a lookup. *)
Lemma lookup_error_reply {A : Type} (m : M A) (w : World) (err : ApiError) :
  (forall e, (m w).1 = inl e -> lookup_error e = true) ->
  (try_domain m w).1 = inl err ->
  match err with
  | Http e => status_code e = 404 \/ status_code e = 502
  | Unhandled e => lookup_error e = true /\ forall d, e <> Domain d
  | RequestValidationError => False
  end.
Proof.
  intros Hm. unfold try_domain.
  destruct (m w) as [[e | a] w']; cbn [fst] in *; [| discriminate].
  specialize (Hm e eq_refl).
  destruct e as [d | | | | | | | | |]; intros [= <-]; try (split; [exact Hm | discriminate]).
  destruct d; try discriminate Hm; cbn; auto.
Qed.

(** X26: the error replies of the two endpoints that go to the external
    source, from a store that satisfies its constraints.  [GET
    /pokemon/{name}] replies to a failure with status 404 or 502, or lets
    through an exception of the parser, of the client or of a duplicate
    row.  [POST /battles] is refused with status 422, before the endpoint
    runs, exactly when one of the two names is empty; otherwise it does as
    the other endpoint, and replies with status 400 exactly when the two
    names are equal after normalization, then with the message of the
    identical-participants error and without touching the world.  Neither
    replies with status 500 through the handler, and no domain error is
    let through. *)
Theorem endpoint_error_replies (pokeapi : PokeAPIClient) (pokemon1_name pokemon2_name : string)
    (w : World) :
  store_ok (db w) ->
  (forall err, (api_get_pokemon pokeapi pokemon1_name w).1 = inl err ->
     match err with
     | Http e => status_code e = 404 \/ status_code e = 502
     | Unhandled e => lookup_error e = true /\ forall d, e <> Domain d
     | RequestValidationError => False
     end)
  /\ (forall err, (api_create_battle pokeapi pokemon1_name pokemon2_name w).1 = inl err ->
        match err with
        | RequestValidationError => pokemon1_name = "" \/ pokemon2_name = ""
        | Http e =>
            pokemon1_name <> "" /\ pokemon2_name <> ""
            /\ (status_code e = 400 /\ normalize pokemon1_name = normalize pokemon2_name
                \/ normalize pokemon1_name <> normalize pokemon2_name
                   /\ (status_code e = 404 \/ status_code e = 502))
        | Unhandled e => lookup_error e = true /\ forall d, e <> Domain d
        end)
  /\ (pokemon1_name = "" \/ pokemon2_name = "" ->
      api_create_battle pokeapi pokemon1_name pokemon2_name w
      = (inl RequestValidationError, w))
  /\ (pokemon1_name <> "" -> pokemon2_name <> "" ->
      normalize pokemon1_name = normalize pokemon2_name ->
      api_create_battle pokeapi pokemon1_name pokemon2_name w
      = (inl (Http {| status_code := 400;
                      detail := "Cannot battle '" ++ normalize pokemon1_name
                                ++ "' against itself" |}), w)).
Proof.
  intros Hok. split; [| split; [| split]].
  - intros err. unfold api_get_pokemon. apply lookup_error_reply.
    intros e He. exact (proj1 (get_or_fetch_raises _ _ _ e Hok He)).
  - intros err. rewrite api_create_battle_unfold.
    destruct (BattleRequest_valid _) eqn:Hvalid.
    + apply request_valid in Hvalid.
      destruct (execute_battle_summary pokeapi pokemon1_name pokemon2_name w)
        as (new & _ & _ & _ & _ & _ & Herr & _). cbv zeta in Herr.
      destruct (BattleService_execute_battle pokeapi pokemon1_name pokemon2_name w)
        as [[e | battle] w']; cbn [fst snd] in *; [| discriminate].
      destruct (Herr e eq_refl) as [_ [(-> & Hsame & _) | [Hne [Hlookup | [_ Hbad]]]]].
      * intros [= <-]. split; [apply Hvalid |]. split; [apply Hvalid |].
        left. split; [reflexivity | exact Hsame].
      * destruct e as [d | | | | | | | | |]; intros [= <-];
          try (split; [exact Hlookup | discriminate]).
        split; [apply Hvalid |]. split; [apply Hvalid |].
        right. split; [exact Hne |]. destruct d; try discriminate Hlookup; cbn; auto.
      * destruct (Hbad Hok).
    + intros [= <-].
      destruct pokemon1_name; [left; reflexivity |].
      destruct pokemon2_name; [right; reflexivity |]. discriminate Hvalid.
  - intros Hempty. rewrite api_create_battle_unfold.
    destruct (BattleRequest_valid _) eqn:Hvalid; [| reflexivity].
    apply request_valid in Hvalid. destruct Hvalid, Hempty; contradiction.
  - intros H1 H2 Hsame. rewrite api_create_battle_unfold, execute_battle_unfold.
    rewrite (proj2 (request_valid pokemon1_name pokemon2_name) (conj H1 H2)).
    apply String.eqb_eq in Hsame. rewrite Hsame. reflexivity.
Qed.

Lemma endpoint_error_replies_witness :
  (api_get_pokemon Fixtures.client "fakemon" (stocked_world 3600)).1
  = inl (Http {| status_code := 404; detail := "Pokemon 'fakemon' not found" |})
  /\ (api_create_battle Fixtures.client "pikachu" "mew" (stocked_world 3600)).1
     = inl (Http {| status_code := 502; detail := "PokeAPI error: HTTP error 503" |})
  /\ api_create_battle Fixtures.client "" "pikachu" (stocked_world 3600)
     = (inl RequestValidationError, stocked_world 3600)
  /\ api_create_battle Fixtures.client "Pikachu " "pikachu" (stocked_world 3600)
     = (inl (Http {| status_code := 400;
                     detail := "Cannot battle 'pikachu' against itself" |}),
        stocked_world 3600).
Proof.
  assert (Hok : store_ok (db (stocked_world 3600))).
  { unfold store_ok, pokemon_ids, battle_ids. cbn. repeat split; try compute_done.
    constructor. }
  destruct (endpoint_error_replies Fixtures.client "Pikachu " "pikachu"
              (stocked_world 3600) Hok) as (_ & _ & _ & Hsame).
  split; [vm_compute; reflexivity |]. split; [vm_compute; reflexivity |].
  split; [reflexivity |].
  apply Hsame; [discriminate | discriminate | reflexivity].
Defined.

(** *** The session of a request *)

(** X27: a battle request is all or nothing.  Under the session of
    [get_db], a request that fails, with whatever error, leaves both
    tables with the rows they had, also when a participant had already
    been fetched and inserted; a request that succeeds leaves the
    [battles] table with exactly one more row, that of the reply, and the
    [pokemon] table with its rows and at most two more, the participants
    of the reply among them.  Either way the constraints of the store are
    kept. *)
Theorem battle_request_atomic (pokeapi : PokeAPIClient) (pokemon1_name pokemon2_name : string)
    (w : World) :
  let run := get_db (api_create_battle pokeapi pokemon1_name pokemon2_name) w in
  (forall err, run.1 = inl err ->
     pokemon_rows (db run.2) = pokemon_rows (db w)
     /\ battle_rows (db run.2) = battle_rows (db w))
  /\ (forall reply, run.1 = inr reply ->
        exists row new,
          battle_rows (db run.2) = (battle_rows (db w) ++ [row])%list
          /\ World.battle_id row = id reply
          /\ pokemon_rows (db run.2) = (pokemon_rows (db w) ++ new)%list
          /\ (length new <= 2)%nat
          /\ pokemon1 reply ∈ pokemon_rows (db run.2)
          /\ pokemon2 reply ∈ pokemon_rows (db run.2))
  /\ (store_ok (db w) -> store_ok (db run.2)).
Proof.
  cbv zeta.
  assert (Hrollback :
    forall (err : ApiError) (w' : World),
      next_pokemon_id (db w) <= next_pokemon_id (db w') ->
      next_battle_id (db w) <= next_battle_id (db w') ->
      let run := (inl err : ApiError + BattleResponse,
                  with_db {| pokemon_rows := pokemon_rows (db w);
                             battle_rows := battle_rows (db w);
                             next_pokemon_id := next_pokemon_id (db w');
                             next_battle_id := next_battle_id (db w') |} w') in
      (forall err', run.1 = inl err' ->
         pokemon_rows (db run.2) = pokemon_rows (db w)
         /\ battle_rows (db run.2) = battle_rows (db w))
      /\ (forall reply, run.1 = inr reply ->
            exists row new,
              battle_rows (db run.2) = (battle_rows (db w) ++ [row])%list
              /\ World.battle_id row = id reply
              /\ pokemon_rows (db run.2) = (pokemon_rows (db w) ++ new)%list
              /\ (length new <= 2)%nat
              /\ pokemon1 reply ∈ pokemon_rows (db run.2)
              /\ pokemon2 reply ∈ pokemon_rows (db run.2))
      /\ (store_ok (db w) -> store_ok (db run.2))).
  { intros err w' Hnext Hnext_battle. cbv zeta.
    cbn [fst snd with_db db pokemon_rows battle_rows].
    split; [intros; split; reflexivity |]. split; [discriminate |].
    intros (Hnames & Hpokeapi & Hids & Hbelow & Hbids & Hbbelow & Hlinked).
    unfold store_ok, pokemon_ids, battle_ids in *. cbn.
    repeat split; try assumption.
    - eapply Forall_impl; [exact Hbelow |]. cbn. intros; lia.
    - eapply Forall_impl; [exact Hbbelow |]. cbn. intros; lia. }
  unfold get_db. rewrite api_create_battle_unfold.
  destruct (BattleRequest_valid _); [| apply Hrollback; lia].
  destruct (execute_battle_summary pokeapi pokemon1_name pokemon2_name w)
    as (new & Hrows & Hlen & Hnext & Hnext_battle & Hkeeps & _ & Hret). cbv zeta in *.
  destruct (BattleService_execute_battle pokeapi pokemon1_name pokemon2_name w)
    as [[e | battle] w']; cbn [fst snd] in *.
  - destruct e as [d | | | | | | | | |]; apply Hrollback; assumption.
  - cbn [fst snd]. split; [discriminate |].
    destruct (Hret battle eq_refl) as (Hbattles & _ & _ & Hp1 & Hp2 & _).
    split; [| exact Hkeeps].
    intros reply [= <-]. exists battle, new. cbn [id pokemon1 pokemon2].
    repeat split; assumption.
Qed.

Lemma battle_request_atomic_witness :
  let w := Fixtures.fresh_world 3600 in
  pokemon_rows (db (api_create_battle Fixtures.client "pikachu" "mew" w).2)
  = [Fixtures.pikachu]
  /\ (get_db (api_create_battle Fixtures.client "pikachu" "mew") w).1
     = inl (Http {| status_code := 502; detail := "PokeAPI error: HTTP error 503" |})
  /\ pokemon_rows (db (get_db (api_create_battle Fixtures.client "pikachu" "mew") w).2) = []
  /\ battle_rows (db (get_db (api_create_battle Fixtures.client "pikachu" "mew") w).2) = [].
Proof.
  cbv zeta.
  assert (Herr : (get_db (api_create_battle Fixtures.client "pikachu" "mew")
                    (Fixtures.fresh_world 3600)).1
                 = inl (Http {| status_code := 502;
                                detail := "PokeAPI error: HTTP error 503" |}))
    by (vm_compute; reflexivity).
  split; [vm_compute; reflexivity |]. split; [exact Herr |].
  exact (proj1 (battle_request_atomic Fixtures.client "pikachu" "mew"
                  (Fixtures.fresh_world 3600)) _ Herr).
Defined.



(** X29: a battle that was created can be read back.  From a store that
    satisfies its constraints, when [POST /battles] replies with a battle
    and its session commits, [GET /battles/{id}] for the identifier of
    that reply gives the same reply: the same participants, winner,
    scores and log. *)
Theorem created_battle_read_back (pokeapi : PokeAPIClient)
    (pokemon1_name pokemon2_name : string) (w w' : World) (reply : BattleResponse) :
  store_ok (db w) ->
  get_db (api_create_battle pokeapi pokemon1_name pokemon2_name) w = (inr reply, w') ->
  (get_db (api_get_battle (id reply)) w').1 = inr reply.
Proof.
  intros Hok. unfold get_db at 1. rewrite api_create_battle_unfold.
  destruct (BattleRequest_valid _); [| discriminate].
  destruct (execute_battle_summary pokeapi pokemon1_name pokemon2_name w)
    as (new & _ & _ & _ & _ & Hkeeps & _ & Hret). cbv zeta in *.
  destruct (BattleService_execute_battle pokeapi pokemon1_name pokemon2_name w)
    as [[e | battle] w1]; cbn [fst snd] in *.
  { destruct e as [d | | | | | | | | |]; discriminate. }
  intros [= <- <-]. cbn [id].
  destruct (Hret battle eq_refl)
    as (Hbattles & _ & _ & Hp1 & Hp2 & Hid1 & Hid2 & Hwid & Hwinner).
  destruct (Hkeeps Hok) as (_ & _ & Hids & _ & Hbids & _ & _).
  assert (Hin : battle ∈ battle_rows (db w1))
    by (rewrite Hbattles; apply elem_of_app; right; left).
  unfold get_db, api_get_battle, get_battle.
  rewrite (filter_unique_key World.battle_id _ (World.battle_id battle) _ battle
             (fun x => iff_refl _) Hbids Hin eq_refl).
  cbn. unfold load_battle.
  rewrite Hid1, Hid2, !load_pokemon_row by assumption.
  cbn [loaded_pokemon1 loaded_pokemon2 loaded_row loaded_winner fst].
  do 2 f_equal. rewrite Hwid.
  destruct Hwinner as [-> | [-> | ->]]; cbn; rewrite ?load_pokemon_row by assumption;
    reflexivity.
Qed.

Lemma created_battle_read_back_witness :
  let w := stocked_world 3600 in
  let run := get_db (api_create_battle Fixtures.client "blastoise" "charizard") w in
  store_ok (db w)
  /\ exists reply, run.1 = inr reply
                   /\ (get_db (api_get_battle 1) run.2).1 = inr reply
                   /\ winner reply = Some Fixtures.blastoise.
Proof.
  cbv zeta.
  assert (Hok : store_ok (db (stocked_world 3600))).
  { unfold store_ok, pokemon_ids, battle_ids. cbn. repeat split; try compute_done.
    constructor. }
  split; [exact Hok |].
  destruct (get_db (api_create_battle Fixtures.client "blastoise" "charizard")
              (stocked_world 3600)) as [[err | reply] w'] eqn:Hrun.
  - exfalso. revert Hrun. vm_compute. discriminate.
  - exists reply. split; [reflexivity |].
    pose proof (created_battle_read_back Fixtures.client "blastoise" "charizard"
                  (stocked_world 3600) w' reply Hok Hrun) as Hback.
    assert (Hreply : id reply = 1 /\ winner reply = Some Fixtures.blastoise).
    { revert Hrun. vm_compute. intros [= <- _]. split; reflexivity. }
    destruct Hreply as [Hid Hwinner]. rewrite Hid in Hback.
    split; [exact Hback | exact Hwinner].
Defined.

End ApiProps.

(** ** The assertions of the test suite, on the embedding *)

Module Tests.

Import Json Exceptions World PokeAPI.
Local Open Scope Q_scope.

(** [test_type_advantage_affects_outcome]: Blastoise (water) beats
    Charizard (fire/flying). *)
Example test_type_advantage_affects_outcome :
  exists r, Battle.execute_battle Fixtures.charizard Fixtures.blastoise = Some r
            /\ Battle.pokemon1_score r < Battle.pokemon2_score r
            /\ Battle.is_draw r = false
            /\ Battle.winner r = Some Fixtures.blastoise.
Proof. eexists. split; [vm_compute; reflexivity |]. repeat split. Qed.

(** The engine of the protocol is the resolution itself. *)
Example default_engine_executes pokemon1 pokemon2 :
  Battle.execute Battle.get_battle_engine pokemon1 pokemon2
  = Battle.execute_battle pokemon1 pokemon2.
Proof. reflexivity. Qed.

(** [test_parse_pokemon_data] and [test_parse_dual_type_pokemon]. *)
Example test_parse_pokemon_data lax :
  _parse_pokemon_data lax Fixtures.mock_pikachu_data
  = inr (Schemas.mkPokemonCreate 25 "pikachu" 35 55 40 50 50 90 "electric"
           (Some "https://example.com/pikachu.png")).
Proof. reflexivity. Qed.

Example test_parse_dual_type_pokemon lax :
  exists data, _parse_pokemon_data lax Fixtures.mock_charizard_data = inr data
               /\ Schemas.types data = "fire,flying".
Proof. eexists. split; reflexivity. Qed.

(** [test_parse_missing_sprite]: an empty [sprites] object gives no image. *)
Example test_parse_missing_sprite lax :
  exists data,
    _parse_pokemon_data lax
      (JDict [("id", JInt 25); ("name", JStr "pikachu"); ("stats", JList []);
              ("types", JList [Fixtures.type_entry "electric"]); ("sprites", JDict [])])
    = inr data
    /\ Schemas.sprite_url data = None.
Proof. eexists. split; reflexivity. Qed.

(** [test_set_and_get] and [test_get_missing_key], with a time-to-live of
    60 seconds and a clock that advances 1.1 seconds per reading. *)
Example test_set_and_get :
  (PokemonCache_get "pikachu"
     (PokemonCache_set "pikachu" (JDict [("name", JStr "pikachu")])
        (Fixtures.fresh_world 60)).2).1
  = inr (Some (JDict [("name", JStr "pikachu")])).
Proof. reflexivity. Qed.

Example test_get_missing_key :
  (PokemonCache_get "missing" (Fixtures.fresh_world 60)).1 = inr None.
Proof. reflexivity. Qed.

(** A second request for the same name is served from the store: no
    further request goes out. *)
Example second_lookup_from_store :
  let w1 := (Services.get_or_fetch_pokemon Fixtures.client "pikachu"
               (Fixtures.fresh_world 3600)).2 in
  let w2 := (Services.get_or_fetch_pokemon Fixtures.client "PIKACHU" w1).2 in
  events w1 = [DbSelect "pikachu"; HttpGet "https://pokeapi.co/api/v2/pokemon/pikachu";
               ClockRead; DbInsertPokemon "pikachu"]
  /\ events w2 = (events w1 ++ [DbSelect "pikachu"])%list.
Proof. vm_compute. split; reflexivity. Qed.

(** A cached [null] does not count as a hit: the second call for the name
    requests it again. *)
Example cached_null_fetched_again :
  let w1 := (get_pokemon Fixtures.client "unown" (Fixtures.fresh_world 3600)).2 in
  data <$> (_cache (cache w1) !! "unown") = Some JNull
  /\ events (get_pokemon Fixtures.client "unown" w1).2
     = [HttpGet "https://pokeapi.co/api/v2/pokemon/unown"; ClockRead; ClockRead;
        HttpGet "https://pokeapi.co/api/v2/pokemon/unown"; ClockRead].
Proof. vm_compute. split; reflexivity. Qed.

(** Names are compared after lower-casing and trimming, also beyond
    ASCII: the no-break space is whitespace, and the capital A with
    grave has a small letter. *)
Example normalize_beyond_ascii :
  Fetch.normalize ("Pikachu" ++ String (ascii_of_N 160) "") = "pikachu"
  /\ Fetch.normalize (String (ascii_of_N 192) "") = String (ascii_of_N 224) "".
Proof. split; reflexivity. Qed.

End Tests.
